(** * BCAT alignment scorer

    A shallow embedding of [bcat-scorer/scorer.py] and [bcat-scorer/api.py].

    - Python floats are IEEE-754 binary64 numbers: Rocq's primitive [float].
    - Python ints are unbounded: [Z].
    - Python dicts are insertion-ordered: association lists whose keys are
      kept distinct by [dict_set].
    - Dicts are objects: a [value] holds the location of a dict in a [store],
      [dict(x)] allocates a copy, and [d[k] = v] updates the object in place.
    - Exceptions are explicit: a computation returns a result or raises,
      and leaves a store either way.

    The three configuration documents read by [load_weights],
    [load_multipliers] and [load_patterns] are not part of the sources and
    are parameters of the development.  Strings are ASCII text.  JSON arrays
    do not occur in a Signal Bundle (its values are numbers, strings and
    nested mappings) and have no counterpart in [value]. *)

From Stdlib Require Import ZArith List String Ascii Bool Lia Permutation.
From Stdlib Require Import Floats DecimalString.
Import ListNotations.

Set Warnings "-inexact-float,-register-all".
Local Open Scope string_scope.
Local Open Scope list_scope.

(** ** Python values, dicts and the object store *)

Module Py.

(** The exceptions the code can meet; all derive from [Exception]. *)
Inductive exn :=
| TypeError | ValueError | KeyError | IndexError
| OverflowError | ZeroDivisionError.

Inductive res (A : Type) :=
| Ok (a : A)
| Raise (e : exn).
Arguments Ok {A} a.
Arguments Raise {A} e.

Definition loc := nat.

Inductive value :=
| VNone
| VBool (b : bool)
| VInt (z : Z)
| VFloat (f : float)
| VStr (s : string)
| VDict (l : loc).

(** A dict with string keys, in insertion order. *)
Definition pydict (V : Type) := list (string * V).
Definition dict := pydict value.
Definition store := list dict.

Section Dict.
Context {V : Type}.

(** [d.get(k)] *)
Fixpoint dict_get (d : pydict V) (k : string) : option V :=
  match d with
  | [] => None
  | (k', v) :: r => if String.eqb k' k then Some v else dict_get r k
  end.

(** [k in d] *)
Definition dict_has (d : pydict V) (k : string) : bool :=
  match dict_get d k with Some _ => true | None => false end.

(** [d[k] = v]: an existing key keeps its position. *)
Fixpoint dict_set (d : pydict V) (k : string) (v : V) : pydict V :=
  match d with
  | [] => [(k, v)]
  | (k', v') :: r =>
      if String.eqb k' k then (k', v) :: r else (k', v') :: dict_set r k v
  end.

(** [d[k]] *)
Definition dict_index (d : pydict V) (k : string) : res V :=
  match dict_get d k with Some v => Ok v | None => Raise KeyError end.

(** [d.get(k, dflt)] *)
Definition dict_get_default (d : pydict V) (k : string) (dflt : V) : V :=
  match dict_get d k with Some v => v | None => dflt end.

Definition dict_keys (d : pydict V) : list string := map fst d.
Definition dict_values (d : pydict V) : list V := map snd d.
End Dict.

(** ** Floats *)

(** [min(a, b)] and [max(a, b)] on floats: the first argument is kept unless
    the second compares strictly smaller (greater). *)
Definition py_min (a b : float) : float := if (b <? a)%float then b else a.
Definition py_max (a b : float) : float := if (a <? b)%float then b else a.

(** [float(n)] for an int: round to nearest even, [OverflowError] when the
    result is not finite. *)
Definition float_of_int (z : Z) : res float :=
  match binary_normalize prec emax z 0 false with
  | S754_infinity _ => Raise OverflowError
  | sf => Ok (SF2Prim sf)
  end.

Definition float_of_bool (b : bool) : float := if b then 1%float else 0%float.

(** [x / y] on floats *)
Definition py_fdiv (x y : float) : res float :=
  if (y =? 0)%float then Raise ZeroDivisionError else Ok (x / y)%float.

(** [math.sqrt(x)] *)
Definition math_sqrt (x : float) : res float :=
  if (x <? 0)%float then Raise ValueError else Ok (PrimFloat.sqrt x).

(** [sum(xs)] of floats, added left to right from the start value [0], as
    CPython does up to version 3.11 (later versions carry a compensation
    term; the two agree wherever the additions are exact). *)
Definition py_sum (xs : list float) : float :=
  fold_left (fun acc x => (acc + x)%float) xs 0%float.

(** [x or 1.0] on a float: zero (of either sign) is falsy, NaN is truthy. *)
Definition float_or (x dflt : float) : float :=
  if (x =? 0)%float then dflt else x.

(** [round(x, 2)]: the binary64 nearest to the decimal obtained by rounding
    the exact value of [x] to two places, halves to even; infinities and NaN
    are returned unchanged.  (Python raises [OverflowError] where the result
    would not be finite; the scorer rounds values of [clamp] only.) *)
Definition round_half_even (num den : Z) : Z :=
  let q := (num / den)%Z in
  let r := (num mod den)%Z in
  match (2 * r ?= den)%Z with
  | Lt => q
  | Gt => (q + 1)%Z
  | Eq => if Z.even q then q else (q + 1)%Z
  end.

Definition hundredths (m : positive) (e : Z) : Z :=
  match e with
  | Zneg p => round_half_even (100 * Zpos m) (Z.pow_pos 2 p)
  | _ => (100 * Zpos m * 2 ^ e)%Z
  end.

Definition round2 (x : float) : float :=
  match Prim2SF x with
  | S754_finite s m e =>
      match hundredths m e with
      | Zpos k =>
          SF2Prim (SFdiv prec emax (S754_finite s k 0) (S754_finite false 100 0))
      | _ => SF2Prim (S754_zero s)
      end
  | _ => x
  end.

(** ** Strings *)

Definition lower_ascii (c : ascii) : ascii :=
  let n := nat_of_ascii c in
  if ((65 <=? n) && (n <=? 90))%nat then ascii_of_nat (n + 32) else c.

(** [s.lower()] on the letters A to Z, the other characters kept.  The
    scorer lowers a text only to test an ASCII prefix (lines 81 and 88) and
    to rename the four factors (line 202), where this is what [str.lower]
    does; the endpoint compares whole names, and takes [str.lower] as a
    parameter. *)
Fixpoint lower (s : string) : string :=
  match s with
  | EmptyString => EmptyString
  | String c r => String (lower_ascii c) (lower r)
  end.

(** [s.startswith(p)] *)
Definition startswith (s p : string) : bool := String.prefix p s.

(** [str(n)] for an int *)
Definition str_of_int (z : Z) : string := NilZero.string_of_int (Z.to_int z).

(** ** Conversions and operators on values *)

Definition is_dict (v : value) : bool :=
  match v with VDict _ => true | _ => false end.
Definition is_str (v : value) : bool :=
  match v with VStr _ => true | _ => false end.
Definition is_none (v : value) : bool :=
  match v with VNone => true | _ => false end.

Definition of_opt (o : option float) : value :=
  match o with Some f => VFloat f | None => VNone end.

Section Builtins.
(** The text-to-float part of [float(s)]: [None] when Python raises
    [ValueError]. *)
Variable float_of_str : string -> option float.

(** [float(v)] *)
Definition py_float (v : value) : res float :=
  match v with
  | VFloat f => Ok f
  | VInt z => float_of_int z
  | VBool b => Ok (float_of_bool b)
  | VStr s =>
      match float_of_str s with Some f => Ok f | None => Raise ValueError end
  | VNone | VDict _ => Raise TypeError
  end.
End Builtins.

Definition int_of_bool (b : bool) : Z := if b then 1%Z else 0%Z.

(** [a + b] *)
Definition py_add (a b : value) : res value :=
  let int_int x y := Ok (VInt (x + y)) in
  let flt_int f y :=
    match float_of_int y with
    | Ok g => Ok (VFloat (f + g))
    | Raise e => Raise e
    end in
  let int_flt x g :=
    match float_of_int x with
    | Ok f => Ok (VFloat (f + g))
    | Raise e => Raise e
    end in
  match a, b with
  | VInt x, VInt y => int_int x y
  | VInt x, VBool y => int_int x (int_of_bool y)
  | VBool x, VInt y => int_int (int_of_bool x) y
  | VBool x, VBool y => int_int (int_of_bool x) (int_of_bool y)
  | VFloat f, VFloat g => Ok (VFloat (f + g))
  | VFloat f, VInt y => flt_int f y
  | VFloat f, VBool y => flt_int f (int_of_bool y)
  | VInt x, VFloat g => int_flt x g
  | VBool x, VFloat g => int_flt (int_of_bool x) g
  | VStr s, VStr t => Ok (VStr (s ++ t)%string)
  | _, _ => Raise TypeError
  end.

(** [f * b] for a float [f] *)
Definition py_fmul (f : float) (b : value) : res value :=
  match b with
  | VFloat g => Ok (VFloat (f * g))
  | VInt y =>
      match float_of_int y with
      | Ok g => Ok (VFloat (f * g))
      | Raise e => Raise e
      end
  | VBool y => Ok (VFloat (f * float_of_bool y))
  | VNone | VStr _ | VDict _ => Raise TypeError
  end.

(** [a <= 1] *)
Definition py_le1 (a : value) : res bool :=
  match a with
  | VFloat f => Ok (f <=? 1)%float
  | VInt x => Ok (x <=? 1)%Z
  | VBool _ => Ok true
  | VNone | VStr _ | VDict _ => Raise TypeError
  end.

(** [a / 100.0] *)
Definition py_div100 (a : value) : res value :=
  match a with
  | VFloat f => Ok (VFloat (f / 100))
  | VInt x =>
      match float_of_int x with
      | Ok f => Ok (VFloat (f / 100))
      | Raise e => Raise e
      end
  | VBool x => Ok (VFloat (float_of_bool x / 100))
  | VNone | VStr _ | VDict _ => Raise TypeError
  end.

(** ** Computations over the store *)

Inductive outcome (A : Type) :=
| Done (a : A) (h : store)
| Fail (e : exn) (h : store)
| Dangling.
Arguments Done {A} a h.
Arguments Fail {A} e h.
Arguments Dangling {A}.

Definition M (A : Type) := store -> outcome A.

Definition ret {A} (a : A) : M A := fun h => Done a h.
Definition bind {A B} (m : M A) (k : A -> M B) : M B :=
  fun h => match m h with
           | Done a h' => k a h'
           | Fail e h' => Fail e h'
           | Dangling => Dangling
           end.
Definition raise {A} (e : exn) : M A := fun h => Fail e h.
Definition lift {A} (r : res A) : M A :=
  match r with Ok a => ret a | Raise e => raise e end.
Definition when (b : bool) (m : M unit) : M unit := if b then m else ret tt.

Declare Scope py_scope.
Delimit Scope py_scope with py.
Notation "x <- m ;; k" := (bind m (fun x => k))
  (at level 61, m at next level, right associativity) : py_scope.
Notation "m ;; k" := (bind m (fun _ => k))
  (at level 61, right associativity) : py_scope.

(** The same for code that raises but does not touch the store. *)
Definition rbind {A B} (r : res A) (k : A -> res B) : res B :=
  match r with Ok a => k a | Raise e => Raise e end.
Notation "x <~ r ;; k" := (rbind r (fun x => k))
  (at level 61, r at next level, right associativity) : py_scope.

(** [for x in xs: acc = body(acc, x)] *)
Fixpoint rfold {A B} (body : A -> B -> res A) (xs : list B) (acc : A) : res A :=
  match xs with
  | [] => Ok acc
  | x :: r => rbind (body acc x) (rfold body r)
  end.

(** [[f(x) for x in xs]] *)
Fixpoint rmap {A B} (f : A -> res B) (xs : list A) : res (list B) :=
  match xs with
  | [] => Ok []
  | x :: r => rbind (f x) (fun y => rbind (rmap f r) (fun ys => Ok (y :: ys)))
  end.

(** [xs[i]] *)
Definition list_index {A} (xs : list A) (i : nat) : res A :=
  match nth_error xs i with Some x => Ok x | None => Raise IndexError end.
Local Open Scope py_scope.

(** A computation seen from outside: its result without the store. *)
Inductive answer (A : Type) :=
| Returns (a : A)
| Raises (e : exn)
| Stuck.
Arguments Returns {A} a.
Arguments Raises {A} e.
Arguments Stuck {A}.

Definition observe {A} (o : outcome A) : answer A :=
  match o with
  | Done a _ => Returns a
  | Fail e _ => Raises e
  | Dangling => Stuck
  end.

(** The contents of the dict at [l]; a location outside the store cannot
    arise from Python code and stops the computation. *)
Definition deref (l : loc) : M dict :=
  fun h => match nth_error h l with
           | Some d => Done d h
           | None => Dangling
           end.

(** A new dict object with contents [d]. *)
Definition alloc (d : dict) : M loc :=
  fun h => Done (List.length h) (h ++ [d]).

Fixpoint store_put (h : store) (l : loc) (d : dict) : store :=
  match h, l with
  | [], _ => []
  | _ :: r, O => d :: r
  | x :: r, S l' => x :: store_put r l' d
  end.

(** [l[k] = v] *)
Definition d_set (l : loc) (k : string) (v : value) : M unit :=
  fun h => match nth_error h l with
           | Some d => Done tt (store_put h l (dict_set d k v))
           | None => Dangling
           end.

(** [l.get(k)] *)
Definition d_get (l : loc) (k : string) : M value :=
  d <- deref l ;; ret (dict_get_default d k VNone).

(** [l.get(k, dflt)] *)
Definition d_get_default (l : loc) (k : string) (dflt : value) : M value :=
  d <- deref l ;; ret (dict_get_default d k dflt).

(** [k in l] *)
Definition d_has (l : loc) (k : string) : M bool :=
  d <- deref l ;; ret (dict_has d k).

(** [l[k]] *)
Definition d_index (l : loc) (k : string) : M value :=
  d <- deref l ;; lift (dict_index d k).

(** [bool(v)] *)
Definition truthy (v : value) : M bool :=
  match v with
  | VNone => ret false
  | VBool b => ret b
  | VInt z => ret (negb (z =? 0)%Z)
  | VFloat f => ret (negb (f =? 0)%float)
  | VStr s => ret (negb (s =? ""))
  | VDict l => d <- deref l ;; ret (match d with [] => false | _ => true end)
  end.

(** [a or b]; [b] is evaluated only when [a] is falsy. *)
Definition py_or (a : value) (b : M value) : M value :=
  t <- truthy a ;; if t then ret a else b.

(** [dict(v)]: a shallow copy of a dict; the empty string has no items;
    any other string and any non-iterable raise.  (A list of pairs, of which
    [dict] makes a dict, is not among the values: documents are modelled
    without arrays.) *)
Definition dict_ctor (v : value) : M loc :=
  match v with
  | VDict l => d <- deref l ;; alloc d
  | VStr "" => alloc []
  | VStr _ => raise ValueError
  | VNone | VBool _ | VInt _ | VFloat _ => raise TypeError
  end.

(** ** Documents as the caller builds them *)

(** A parsed JSON document without arrays. *)
Inductive json :=
| JNull
| JBool (b : bool)
| JInt (z : Z)
| JFloat (f : float)
| JStr (s : string)
| JObj (fields : list (string * json)).

(** Build the objects of a document in the store; a repeated key keeps the
    last value, as a Python dict does. *)
Fixpoint load (j : json) : M value :=
  match j with
  | JNull => ret VNone
  | JBool b => ret (VBool b)
  | JInt z => ret (VInt z)
  | JFloat f => ret (VFloat f)
  | JStr s => ret (VStr s)
  | JObj fields =>
      d <- (fix go (fs : list (string * json)) (acc : dict) : M dict :=
              match fs with
              | [] => ret acc
              | (k, j') :: r => v <- load j' ;; go r (dict_set acc k v)
              end) fields [] ;;
      l <- alloc d ;;
      ret (VDict l)
  end.

End Py.

(** ** scorer.py *)

Module Scorer.
Import Py.
Local Open Scope py_scope.

(** The four factors, in the order of the dict literal of [base_factors]. *)
Definition factor_names : list string :=
  ["Precision"; "Resolve"; "Innovation"; "Harmony"].

(** [clamp(x, lo, hi)] *)
Definition clamp (x lo hi : float) : float := py_max lo (py_min hi x).

(** One scored pattern, as [score_one] returns it. *)
Record result := {
  factors : pydict float;
  alignment_pct : float;
  curated : pydict float;
  raw : dict
}.

(** Modelled from the spec: the entries of the Pattern Catalog of
    [config/patterns.json], which carry a display name and the ordering. *)
Record pattern_info := {
  p_name : string;
  p_order : list string
}.

(** The [pattern] field of a response entry. *)
Record pattern_tag := {
  t_id : option Z;
  t_name : string;
  t_order : list string
}.

Record entry := {
  e_result : result;
  e_pattern : pattern_tag
}.

Record response := {
  best : option entry;
  all : pydict entry
}.

Section Engine.
(** [float(s)] and [int(s)] on text *)
Variable float_of_str : string -> option float.
Variable int_of_str : string -> option Z.
(** [load_weights()], [load_multipliers()], [load_patterns()] *)
Variable weights : pydict (pydict float).
Variable multipliers : pydict float.
Variable patterns : pydict pattern_info.

Definition float_ (v : value) : res float := py_float float_of_str v.

(** [to100] (lines 8-13) *)
Definition to100 (v : value) : option float :=
  match float_ v with
  | Raise _ => None
  | Ok v => Some (clamp (if (v <=? 1)%float then (v * 100)%float else v) 0 100)
  end.

(** [inv100] (lines 15-17) *)
Definition inv100 (v : value) : option float :=
  match to100 v with
  | None => None
  | Some v => Some (100 - v)%float
  end.

(** [minmax] (lines 19-26) *)
Definition minmax (v : value) (vmin vmax : float) : res (option float) :=
  match float_ v with
  | Raise _ => Ok None
  | Ok v =>
      if (vmin =? vmax)%float then Ok (Some 0%float)
      else q <~ py_fdiv (v - vmin) (vmax - vmin) ;;
           Ok (Some (clamp (q * 100) 0 100))
  end.

(** [talk_balance_score] (lines 28-33) *)
Definition talk_balance_score (ratio : value) : option float :=
  match float_ ratio with
  | Raise _ => None
  | Ok r => Some (clamp (100 - abs (r - 0.5) * 200) 0 100)
  end.

(** [x for x in vals if x is not None] *)
Definition not_none (vals : list value) : list value :=
  filter (fun x => negb (is_none x)) vals.

(** [_avg] (lines 35-37) *)
Definition _avg (vals : list value) : res (option float) :=
  v <~ rmap float_ (not_none vals) ;;
  match v with
  | [] => Ok None
  | _ => n <~ float_of_int (Z.of_nat (List.length v)) ;;
         q <~ py_fdiv (py_sum v) n ;;
         Ok (Some q)
  end.

(** [_wavg] (lines 39-46) *)
Definition _wavg (vals : list value) (ws : list float) : res (option float) :=
  pts <~ rmap (fun vw : value * float =>
                 v <~ float_ (fst vw) ;; Ok (v, snd vw))
              (filter (fun vw : value * float => negb (is_none (fst vw)))
                      (combine vals ws)) ;;
  match pts with
  | [] => Ok None
  | _ =>
      let sw := py_sum (map snd pts) in
      if (sw <=? 0)%float then Ok None
      else q <~ py_fdiv
                  (py_sum (map (fun vw : float * float => fst vw * snd vw)%float pts))
                  sw ;;
           Ok (Some q)
  end.

(** *** [normalize_metrics] (lines 48-133) *)

(** [dict(spiky.get(name) or {})] (lines 50-54) *)
Definition section_copy (spiky : loc) (name : string) : M loc :=
  v <- d_get spiky name ;;
  x <- py_or v (l <- alloc [] ;; ret (VDict l)) ;;
  dict_ctor x.

(** Lines 56-64. *)
Definition norm_positivity (L out : loc) : M unit :=
  a <- d_get L "positivity_classes" ;;
  pos_classes <-
    py_or a (b <- d_get L "polarity" ;;
             py_or b (c <- d_get L "positivity" ;;
                      ret (if is_dict c then c else VNone))) ;;
  match pos_classes with
  | VDict pc =>
      vp <- d_get_default pc "positive" (VFloat 0) ;;
      p <- lift (float_ vp) ;;
      vu <- d_get_default pc "neutral" (VFloat 0) ;;
      neu <- lift (float_ vu) ;;
      vg <- d_get_default pc "negative" (VFloat 0) ;;
      neg <- lift (float_ vg) ;;
      d_set out "positivity" (of_opt (to100 (VFloat (p + 0.5 * neu)))) ;;
      d_set out "negativity_inv"
            (VFloat (100 - (if (neg <=? 1)%float then neg * 100 else neg)))
  | _ =>
      has <- d_has L "positivity" ;;
      when has (v <- d_get L "positivity" ;;
                d_set out "positivity" (of_opt (to100 v)))
  end.

(** Lines 66-70. *)
Definition norm_objectivity (L out : loc) : M unit :=
  obj <- d_get L "objectivity" ;;
  match obj with
  | VDict o =>
      v <- d_get_default o "objective" (VInt 0) ;;
      d_set out "objectivity" (of_opt (to100 v))
  | VNone => ret tt
  | _ => d_set out "objectivity" (of_opt (to100 obj))
  end.

(** Lines 72-74. *)
Definition norm_style (L out : loc) : M unit :=
  has <- d_has L "filler_ratio" ;;
  when has (v <- d_get L "filler_ratio" ;;
            d_set out "filler_inv" (of_opt (inv100 v))) ;;
  has <- d_has L "avg_sentence_len" ;;
  when has (v <- d_get L "avg_sentence_len" ;;
            r <- lift (minmax v 4 25) ;;
            d_set out "avg_sentence_len_norm" (of_opt r)) ;;
  has <- d_has L "patience" ;;
  when has (v <- d_get L "patience" ;;
            r <- lift (minmax v 0 180) ;;
            d_set out "patience_norm" (of_opt r)).

(** [[to100(v) for v in vs if to100(v) is not None]] *)
Fixpoint to100_all (vs : list value) : list float :=
  match vs with
  | [] => []
  | v :: r =>
      match to100 v with
      | Some f => f :: to100_all r
      | None => to100_all r
      end
  end.

(** Lines 75-78. *)
Definition norm_keywords (L out : loc) : M unit :=
  kw <- d_get L "keywords" ;;
  match kw with
  | VDict k =>
      nonempty <- truthy kw ;;
      when nonempty
        (d <- deref k ;;
         let vals := to100_all (dict_values d) in
         match vals with
         | [] => ret tt
         | _ => n <- lift (float_of_int (Z.of_nat (List.length vals))) ;;
                q <- lift (py_fdiv (py_sum vals) n) ;;
                d_set out "kw_strength" (VFloat q)
         end)
  | _ => ret tt
  end ;;
  has <- d_has L "lang_emo_curiosity" ;;
  when has (v <- d_get L "lang_emo_curiosity" ;;
            d_set out "lang_emo_curiosity" (of_opt (to100 v))).

(** [1.0 if s.lower().startswith(p) else 0.0] *)
Definition flag_of_prefix (s p : string) : value :=
  VFloat (if startswith (lower s) p then 1 else 0).

(** Lines 80-86. *)
Definition norm_question (L out : loc) : M unit :=
  q <- d_get L "question" ;;
  match q with
  | VStr s => d_set L "question" (flag_of_prefix s "question")
  | _ => ret tt
  end ;;
  has_ratio <- d_has L "question_ratio" ;;
  has_q <- d_has L "question" ;;
  when (negb has_ratio && has_q)
    (v <- d_index L "question" ;;
     qv <- match float_ v with
           | Ok f => ret f
           | Raise _ => t <- truthy v ;; ret (if t then 1 else 0)%float
           end ;;
     d_set L "question_ratio" (VFloat qv)) ;;
  has_ratio <- d_has L "question_ratio" ;;
  when has_ratio (v <- d_index L "question_ratio" ;;
                  d_set out "question_ratio" (of_opt (to100 v))).

(** Lines 87-89. *)
Definition norm_offensiveness (L out : loc) : M unit :=
  o <- d_get L "offensiveness" ;;
  match o with
  | VStr s => d_set L "offensiveness" (flag_of_prefix s "offen")
  | _ => ret tt
  end ;;
  has <- d_has L "offensiveness" ;;
  when has (v <- d_index L "offensiveness" ;;
            d_set out "offensiveness_inv" (of_opt (inv100 v))).

(** Lines 91-96. *)
Definition norm_energy (V out : loc) : M unit :=
  e <- d_get V "energy" ;;
  match e with
  | VDict ed =>
      ve <- d_get_default ed "energetic" (VFloat 0) ;;
      ener <- lift (float_ ve) ;;
      vm <- d_get_default ed "monotonic" (VFloat 0) ;;
      mono <- lift (float_ vm) ;;
      d_set V "energy" (VFloat (if (0 <? ener)%float then ener else 1 - mono))
  | _ => ret tt
  end ;;
  has <- d_has V "energy" ;;
  when has (x <- d_index V "energy" ;;
            small <- lift (py_le1 x) ;;
            arg <- (if small then ret x else lift (py_div100 x)) ;;
            d_set out "energy" (of_opt (to100 arg))).

(** [d.get(k, 0.0) or 0.0] *)
Definition get_or_zero (d : loc) (k : string) : M value :=
  v <- d_get_default d k (VFloat 0) ;;
  py_or v (ret (VFloat 0)).

(** Lines 98-105. *)
Definition norm_vocal_emotions (V out : loc) : M unit :=
  e <- d_get V "emotions" ;;
  ve <- py_or e (l <- alloc [] ;; ret (VDict l)) ;;
  match ve with
  | VDict d =>
      nonempty <- truthy ve ;;
      when nonempty
        (emo_pos <- d_get d "happy" ;;
         emo_neu <- d_get d "neutral" ;;
         sad <- get_or_zero d "sad" ;;
         angry <- get_or_zero d "angry" ;;
         emo_neg <- lift (py_add sad angry) ;;
         when (negb (is_none emo_pos))
              (d_set out "emo_pos" (of_opt (to100 emo_pos))) ;;
         when (negb (is_none emo_neu))
              (d_set out "emo_neu" (of_opt (to100 emo_neu))) ;;
         d_set out "emo_neg_inv" (of_opt (inv100 emo_neg)))
  | _ => ret tt
  end.

(** Lines 107-116. *)
Definition norm_attention (F out : loc) : M unit :=
  a <- d_get F "attention" ;;
  att <- py_or a (l <- alloc [] ;; ret (VDict l)) ;;
  match att with
  | VDict d =>
      nonempty <- truthy att ;;
      when nonempty
        (att_att <- d_get d "attentive" ;;
         att_norm <- d_get d "normal" ;;
         att_dist <- d_get d "distracted" ;;
         att_val <-
           (if negb (is_none att_att) || negb (is_none att_norm) then
              x <- py_or att_att (ret (VFloat 0)) ;;
              y <- py_or att_norm (ret (VFloat 0)) ;;
              hy <- lift (py_fmul 0.5 y) ;;
              lift (py_add x hy)
            else ret VNone) ;;
         when (negb (is_none att_val))
              (d_set out "attention_att" (of_opt (to100 att_val))) ;;
         when (negb (is_none att_dist))
              (d_set out "attention_dist_inv" (of_opt (inv100 att_dist))))
  | _ => ret tt
  end.

(** Lines 118-125. *)
Definition norm_facial_emotions (F out : loc) : M unit :=
  e <- d_get F "emotions" ;;
  fe <- py_or e (l <- alloc [] ;; ret (VDict l)) ;;
  match fe with
  | VDict d =>
      nonempty <- truthy fe ;;
      when nonempty
        (pos <- d_get d "happy" ;;
         n1 <- get_or_zero d "neutral" ;;
         n2 <- get_or_zero d "surprised" ;;
         neu <- lift (py_add n1 n2) ;;
         d1 <- get_or_zero d "dissatisfied" ;;
         d2 <- get_or_zero d "annoyed" ;;
         dis <- lift (py_add d1 d2) ;;
         when (negb (is_none pos))
              (d_set out "facial_emo_pos" (of_opt (to100 pos))) ;;
         d_set out "facial_emo_neu" (of_opt (to100 neu)) ;;
         d_set out "facial_emo_dis_inv" (of_opt (inv100 dis)))
  | _ => ret tt
  end.

(** Lines 127-128. *)
Definition norm_interaction (I out : loc) : M unit :=
  has <- d_has I "talk_listen" ;;
  when has (v <- d_index I "talk_listen" ;;
            d_set out "talk_balance" (of_opt (talk_balance_score v))) ;;
  has <- d_has I "speed_wpm" ;;
  when has (v <- d_index I "speed_wpm" ;;
            r <- lift (minmax v 90 180) ;;
            d_set out "speed_norm" (of_opt r)).

(** Lines 130-131. *)
Definition norm_highlevel (H out : loc) : M unit :=
  has <- d_has H "action_items" ;;
  when has (v <- d_index H "action_items" ;;
            d_set out "action_items" (of_opt (to100 v))) ;;
  has <- d_has H "followup_questions" ;;
  when has (v <- d_index H "followup_questions" ;;
            d_set out "followup_questions" (of_opt (to100 v))).

Definition normalize_metrics (spiky : loc) : M loc :=
  out <- alloc [] ;;
  L <- section_copy spiky "language" ;;
  V <- section_copy spiky "vocal" ;;
  F <- section_copy spiky "facial" ;;
  I <- section_copy spiky "interaction" ;;
  H <- section_copy spiky "highlevel" ;;
  norm_positivity L out ;;
  norm_objectivity L out ;;
  norm_style L out ;;
  norm_keywords L out ;;
  norm_question L out ;;
  norm_offensiveness L out ;;
  norm_energy V out ;;
  norm_vocal_emotions V out ;;
  norm_attention F out ;;
  norm_facial_emotions F out ;;
  norm_interaction I out ;;
  norm_highlevel H out ;;
  ret out.

(** *** [build_curated_metrics] (lines 135-147) *)

Definition build_curated_metrics (norm : dict) : res (pydict float) :=
  let get k := dict_get_default norm k VNone in
  let cur : dict := [] in
  let cur := dict_set cur "objectivity" (get "objectivity") in
  a <~ _avg [get "filler_inv"; get "avg_sentence_len_norm"] ;;
  let cur := dict_set cur "clarity_conciseness" (of_opt a) in
  let cur := dict_set cur "energy" (get "energy") in
  let cur := dict_set cur "decision_orientation" (get "action_items") in
  let cur := dict_set cur "followup_questions" (get "followup_questions") in
  a <~ _avg [get "kw_strength"; get "lang_emo_curiosity"] ;;
  let cur := dict_set cur "novelty_ideation" (of_opt a) in
  a <~ _wavg [get "attention_att"; get "attention_dist_inv"] [0.7; 0.3]%float ;;
  let cur := dict_set cur "attention_listening" (of_opt a) in
  let cur := dict_set cur "talk_balance" (get "talk_balance") in
  let cur := dict_set cur "patience" (get "patience_norm") in
  a <~ _avg [get "positivity"; get "emo_pos"; get "emo_neg_inv"] ;;
  let cur := dict_set cur "positivity_tone" (of_opt a) in
  rfold (fun (acc : pydict float) (kv : string * value) =>
           if is_none (snd kv) then Ok acc
           else f <~ float_ (snd kv) ;; Ok (dict_set acc (fst kv) f))
        cur [].

(** *** [base_factors] (lines 164-173) *)

(** [bases[f] += s * (w / total)] *)
Definition add_weighted (s total : float) (bases : pydict float)
           (fw : string * float) : res (pydict float) :=
  b <~ dict_index bases (fst fw) ;;
  q <~ py_fdiv (snd fw) total ;;
  Ok (dict_set bases (fst fw) (b + s * q)%float).

Definition add_metric (bases : pydict float) (ms : string * float)
  : res (pydict float) :=
  match dict_get weights (fst ms) with
  | None => Ok bases
  | Some row =>
      let total := float_or (py_sum (dict_values row)) 1 in
      rfold (add_weighted (snd ms) total) row bases
  end.

Definition base_factors (curated : pydict float) : res (pydict float) :=
  let bases := map (fun f => (f, 0%float)) factor_names in
  bases <~ rfold add_metric curated bases ;;
  Ok (fold_left (fun (b : pydict float) k =>
                   dict_set b k (clamp (dict_get_default b k 0%float) 0 100))
                (dict_keys bases) bases).

(** *** [apply_pattern] (lines 175-182) *)

(** The dict literal of line 177. *)
Definition rank_map (order : list string) : res (pydict string) :=
  o0 <~ list_index order 0 ;;
  o1 <~ list_index order 1 ;;
  o2 <~ list_index order 2 ;;
  o3 <~ list_index order 3 ;;
  Ok (dict_set (dict_set (dict_set (dict_set [] o0 "primary")
                                   o1 "secondary") o2 "tertiary")
               o3 "quaternary").

(** [multipliers.get(pmap.get(f, "quaternary"), 1.0)] *)
Definition multiplier_of (pmap : pydict string) (f : string) : float :=
  dict_get_default multipliers (dict_get_default pmap f "quaternary") 1%float.

Definition apply_pattern (bases : pydict float) (order : list string)
  : res (pydict float) :=
  pmap <~ rank_map order ;;
  Ok (fold_left (fun (out : pydict float) (fb : string * float) =>
                   dict_set out (fst fb)
                            (clamp (snd fb * multiplier_of pmap (fst fb)) 0 100))
                bases []).

(** *** [cosine_alignment] (lines 184-193) *)

(** [math.sqrt(sum(x*x for x in v)) or 1.0] *)
Definition norm_or_one (v : list float) : res float :=
  n <~ math_sqrt (py_sum (map (fun x => x * x)%float v)) ;;
  Ok (float_or n 1).

(** Lines 186-188. *)
Definition target_vector : res (list float) :=
  t <~ rmap (dict_index multipliers)
            ["primary"; "secondary"; "tertiary"; "quaternary"] ;;
  tnorm <~ norm_or_one t ;;
  rmap (fun x => py_fdiv x tnorm) t.

(** Line 189. *)
Definition subject_vector (scores : pydict float) (order : list string)
  : res (list float) :=
  rmap (fun i => k <~ list_index order i ;; dict_index scores k)
       [0; 1; 2; 3]%nat.

Definition cosine_alignment (scores : pydict float) (order : list string)
  : res float :=
  tvec <~ target_vector ;;
  svec <~ subject_vector scores order ;;
  snorm <~ norm_or_one svec ;;
  let dot := py_sum (map (fun ab : float * float => fst ab * snd ab)%float
                         (combine svec tvec)) in
  sim <~ py_fdiv dot (snorm * 1) ;;
  Ok (clamp (sim * 100) 0 100).

(** *** [score_one] (lines 195-205) *)

(** Lines 197-205, on the contents of the dict [normalize_metrics]
    returned. *)
Definition score_norm (s_norm : dict) (order : list string) : res result :=
  s_cur <~ build_curated_metrics s_norm ;;
  bases <~ base_factors s_cur ;;
  scores <~ apply_pattern bases order ;;
  align <~ cosine_alignment scores order ;;
  Ok {| factors := fold_left (fun (d : pydict float) (kv : string * float) =>
                                dict_set d (lower (fst kv)) (round2 (snd kv)))
                             scores [];
        alignment_pct := round2 align;
        curated := s_cur;
        raw := s_norm |}.

(** [score_one] with the store it leaves behind. *)
Definition score_one_st (spiky : loc) (order : list string) : M result :=
  out <- normalize_metrics spiky ;;
  s_norm <- deref out ;;
  lift (score_norm s_norm order).

(** The dict [normalize_metrics] returns, by its contents. *)
Definition normalized (h : store) (spiky : loc) : answer dict :=
  observe ((out <- normalize_metrics spiky ;; deref out) h).

(** What the caller of [score_one] sees.  The objects [score_one_st]
    allocates are local to the call (the result holds their contents), so
    the calls of one request all start from the request's store. *)
Definition score_one (h : store) (spiky : loc) (order : list string)
  : answer result :=
  observe (score_one_st spiky order h).

(** *** [score_all_patterns] (lines 207-216) *)

(** The loop state: [best] and [all_scores]. *)
Definition search_state := (option entry * pydict entry)%type.

(** The loop body, lines 212-215. *)
Definition search_step (h : store) (spiky : loc) (st : search_state)
           (p : string * pattern_info) : answer search_state :=
  let (pid, pinfo) := p in
  let (best, all_scores) := st in
  match score_one h spiky (p_order pinfo) with
  | Returns res =>
      match int_of_str pid with
      | None => Raises ValueError
      | Some id =>
          let e := {| e_result := res;
                      e_pattern := {| t_id := Some id;
                                      t_name := p_name pinfo;
                                      t_order := p_order pinfo |} |} in
          let all_scores := dict_set all_scores pid e in
          let best :=
            match best with
            | None => Some e
            | Some b =>
                if (alignment_pct (e_result b) <? alignment_pct res)%float
                then Some e else Some b
            end in
          Returns (best, all_scores)
      end
  | Raises e => Raises e
  | Stuck => Stuck
  end.

Fixpoint search (h : store) (spiky : loc) (ps : pydict pattern_info)
         (st : search_state) : answer search_state :=
  match ps with
  | [] => Returns st
  | p :: r =>
      match search_step h spiky st p with
      | Returns st' => search h spiky r st'
      | Raises e => Raises e
      | Stuck => Stuck
      end
  end.

Definition score_all_patterns (h : store) (spiky : loc) : answer response :=
  match search h spiky patterns (None, []) with
  | Returns (b, a) => Returns {| best := b; all := a |}
  | Raises e => Raises e
  | Stuck => Stuck
  end.

End Engine.
End Scorer.

(** ** api.py *)

Module Api.
Import Py Scorer.
Local Open Scope py_scope.

(** [ScoreRequest] (lines 9-13); [spiky] is the dict the request carries. *)
Record ScoreRequest := {
  spiky : loc;
  pattern_id : option Z;
  pattern_name : option string;
  bcat_pattern : option (list string)
}.

(** What the endpoint sends back: the JSON body, or the [HTTPException] with
    status 400 built from the exception caught at line 40. *)
Inductive reply :=
| Http200 (body : response)
| Http400 (e : exn)
| Broken.

(** Truthiness of the three optional selectors. *)
Definition id_given (i : option Z) : bool :=
  match i with Some z => negb (z =? 0)%Z | None => false end.
Definition name_given (n : option string) : bool :=
  match n with Some s => negb (s =? "") | None => false end.
Definition order_given (o : option (list string)) : bool :=
  match o with Some (_ :: _) => true | _ => false end.

Section Endpoint.
Variable float_of_str : string -> option float.
Variable int_of_str : string -> option Z.
(** [str.lower], which follows the Unicode case mapping. *)
Variable str_lower : string -> string.
Variable weights : pydict (pydict float).
Variable multipliers : pydict float.
Variable patterns : pydict pattern_info.

(** Line 32: the first catalog entry whose name, lowered, is the name
    asked for, lowered. *)
Definition find_by_name (name : string) : option (list string) :=
  match filter (fun v : pattern_info =>
                  str_lower (p_name v) =? str_lower name)
               (dict_values patterns) with
  | v :: _ => Some (p_order v)
  | [] => None
  end.

(** [req.pattern_id and str(req.pattern_id) in patterns] (line 29) *)
Definition id_in_catalog (i : option Z) : bool :=
  match i with
  | Some z => negb (z =? 0)%Z && dict_has patterns (str_of_int z)
  | None => false
  end.

(** Lines 27-35: the ordering a request with a selector is scored with. *)
Definition select_order (req : ScoreRequest) : res (list string) :=
  if order_given (bcat_pattern req) then
    Ok (match bcat_pattern req with Some o => o | None => [] end)
  else if id_in_catalog (pattern_id req) then
    info <~ dict_index patterns
              (str_of_int (match pattern_id req with
                           | Some z => z | None => 0%Z end)) ;;
    Ok (p_order info)
  else if name_given (pattern_name req) then
    match find_by_name (match pattern_name req with
                        | Some s => s | None => "" end) with
    | Some order => Ok order
    | None => Raise ValueError
    end
  else
    info <~ dict_index patterns "15" ;;
    Ok (p_order info).

Definition reply_of (a : answer response) : reply :=
  match a with
  | Returns r => Http200 r
  | Raises e => Http400 e
  | Stuck => Broken
  end.

(** Lines 36-37, under the handler of lines 40-41. *)
Definition reply_single (h : store) (spiky : loc) (order : list string) : reply :=
  match score_one float_of_str weights multipliers h spiky order with
  | Returns res =>
      Http200 {| best := Some {| e_result := res;
                                 e_pattern := {| t_id := None;
                                                 t_name := "custom";
                                                 t_order := order |} |};
                 all := [] |}
  | Raises e => Http400 e
  | Stuck => Broken
  end.

(** Line 39, under the handler of lines 40-41. *)
Definition reply_best (h : store) (spiky : loc) : reply :=
  reply_of (score_all_patterns float_of_str int_of_str weights multipliers
                               patterns h spiky).

(** [score] (lines 19-41) *)
Definition score (h : store) (req : ScoreRequest) : reply :=
  if id_given (pattern_id req) || name_given (pattern_name req)
     || order_given (bcat_pattern req)
  then
    match select_order req with
    | Raise e => Http400 e
    | Ok order => reply_single h (spiky req) order
    end
  else reply_best h (spiky req).

End Endpoint.
End Api.

(** ** A sample configuration and sample requests *)

Module Sample.
Import Py Scorer Api.

(** No text is a number; the catalog ids are the decimal numerals; the
    names are ASCII, where [str.lower] lowers the letters A to Z. *)
Definition float_of_str (s : string) : option float := None.
Definition str_lower : string -> string := lower.
Definition int_of_str (s : string) : option Z :=
  if s =? "1" then Some 1%Z
  else if s =? "2" then Some 2%Z
  else if s =? "15" then Some 15%Z
  else None.

Definition weights : pydict (pydict float) :=
  [("talk_balance", [("Harmony", 1%float)]);
   ("objectivity", [("Precision", 2%float); ("Resolve", 2%float)]);
   ("positivity_tone", [("Harmony", 1%float); ("Innovation", 1%float)])].

Definition multipliers : pydict float :=
  [("primary", 1.5%float); ("secondary", 1.25%float);
   ("tertiary", 1%float); ("quaternary", 0.75%float)].

Definition patterns : pydict pattern_info :=
  [("1", {| p_name := "Analyst";
            p_order := ["Precision"; "Resolve"; "Innovation"; "Harmony"] |});
   ("2", {| p_name := "Mediator";
            p_order := ["Harmony"; "Resolve"; "Innovation"; "Precision"] |});
   ("15", {| p_name := "Driver";
             p_order := ["Resolve"; "Precision"; "Innovation"; "Harmony"] |})].

(** The store and the location of a document loaded into the empty store. *)
Definition build (j : json) : store * loc :=
  match load j [] with
  | Done (VDict l) h => (h, l)
  | _ => ([], O)
  end.

(** [{"interaction": {"talk_listen": 0.5}}] *)
Definition balanced : json :=
  JObj [("interaction", JObj [("talk_listen", JFloat 0.5)])].

(** [{}] *)
Definition empty_bundle : json := JObj [].

(** [{"vocal": {"energy": "high"}}] *)
Definition energy_text : json :=
  JObj [("vocal", JObj [("energy", JStr "high")])].

(** [{"language": {"polarity": {"negative": 250}}}] *)
Definition strong_negative : json :=
  JObj [("language", JObj [("polarity", JObj [("negative", JInt 250)])])].


(** [{"language": {"question": "Question about price", "filler_ratio": 0.25}}] *)
Definition asks : json :=
  JObj [("language", JObj [("question", JStr "Question about price");
                           ("filler_ratio", JFloat 0.25)])].

Definition request (j : json) (id : option Z) (name : option string)
           (order : option (list string)) : store * ScoreRequest :=
  let (h, l) := build j in
  (h, {| spiky := l; pattern_id := id; pattern_name := name;
         bcat_pattern := order |}).

End Sample.

(** ** Notions the properties are stated with *)

Module Notions.
Import Py Scorer Api.

(** A request with its falsy selectors removed. *)
Definition drop_falsy (req : ScoreRequest) : ScoreRequest :=
  {| spiky := spiky req;
     pattern_id := if id_given (pattern_id req) then pattern_id req else None;
     pattern_name :=
       if name_given (pattern_name req) then pattern_name req else None;
     bcat_pattern :=
       if order_given (bcat_pattern req) then bcat_pattern req else None |}.

(** The objects below [n] have the same contents in [h'] as in [h]. *)
Definition agree (n : nat) (h h' : store) : Prop :=
  forall l, l < n -> nth_error h' l = nth_error h l.

(** [m] keeps the objects below [n], whether it returns or raises, and a
    value it returns satisfies [Q]. *)
Definition frame {A} (n : nat) (m : M A) (Q : A -> Prop) : Prop :=
  forall h, n <= List.length h ->
    match m h with
    | Done a h' => n <= List.length h' /\ agree n h h' /\ Q a
    | Fail _ h' => n <= List.length h' /\ agree n h h'
    | Dangling => True
    end.

Definition any {A} : A -> Prop := fun _ => True.
Definition fresh (n : nat) : loc -> Prop := fun l => n <= l.


(** A float that is not NaN, placed in the lexicographic order the
    comparison of [SpecFloat] uses: class, then exponent, then mantissa. *)
Definition rank (f : spec_float) : Z * Z * Z :=
  match f with
  | S754_nan | S754_zero _ => (0, 0, 0)%Z
  | S754_infinity false => (2, 0, 0)%Z
  | S754_infinity true => (-2, 0, 0)%Z
  | S754_finite false m e => (1, e, Zpos m)%Z
  | S754_finite true m e => (-1, - e, Zneg m)%Z
  end.

Definition lex_lt (a b : Z * Z * Z) : Prop :=
  let '(a1, a2, a3) := a in
  let '(b1, b2, b3) := b in
  (a1 < b1 \/ (a1 = b1 /\ (a2 < b2 \/ (a2 = b2 /\ a3 < b3))))%Z.

Definition lex_le (a b : Z * Z * Z) : Prop :=
  let '(a1, a2, a3) := a in
  let '(b1, b2, b3) := b in
  (a1 < b1 \/ (a1 = b1 /\ (a2 < b2 \/ (a2 = b2 /\ a3 <= b3))))%Z.

Definition not_nan (f : spec_float) : Prop :=
  match f with S754_nan => False | _ => True end.

Definition frank (x : float) : Z * Z * Z := rank (Prim2SF x).

(** The record [shr_1] leaves after [n] shifts of [N]. *)
Definition shifted (N : Z) (n : nat) : shr_record :=
  {| shr_m := (N / 2 ^ Z.of_nat n)%Z;
     shr_r := Z.odd (N / 2 ^ (Z.of_nat n - 1));
     shr_s := negb (N mod 2 ^ (Z.of_nat n - 1) =? 0)%Z |}.

(** Round to nearest, ties to even, of [N / 2^n]. *)
Definition rne (N n : Z) : Z :=
  let q := (N / 2 ^ n)%Z in
  match (2 * (N mod 2 ^ n) ?= 2 ^ n)%Z with
  | Lt => q
  | Gt => (q + 1)%Z
  | Eq => if Z.even q then q else (q + 1)%Z
  end.

(** The float 100: mantissa and bits. *)
Definition M100 : positive := 7036874417766400.
Definition P100 : spec_float := S754_finite false M100 (-46).

Definition align (e : entry) : float := alignment_pct (e_result e).

(** [b] is an entry of [entries], no entry has a greater alignment, and the
    entries before [b] have a strictly smaller one. *)
Definition first_maximum (b : entry) (entries : pydict entry) : Prop :=
  exists before pid after,
    entries = before ++ (pid, b) :: after
    /\ (forall e, In e (dict_values before) -> (align e <? align b)%float = true)
    /\ (forall e, In e (dict_values after) -> (align e <=? align b)%float = true).

(** The loop invariant of lines 211-215 of [score_all_patterns]. *)
Definition good (st : search_state) : Prop :=
  match st with
  | (None, acc) => acc = []
  | (Some b, acc) =>
      first_maximum b acc
      /\ Forall (fun e => is_nan (align e) = false) (dict_values acc)
  end.

(** The factor scores of a bundle that supplies nothing. *)
Definition zeros : pydict float := map (fun f => (f, 0%float)) factor_names.

Definition empty_result : result :=
  {| factors := [("precision", 0%float); ("resolve", 0%float);
                 ("innovation", 0%float); ("harmony", 0%float)];
     alignment_pct := 0;
     curated := [];
     raw := [] |}.

End Notions.

(** ** Ranges, invariants and well-formed configurations *)

Module Conditions.
Import Py Scorer Api Notions.
Local Open Scope py_scope.

(** A score: a float between 0 and 100, so not a NaN. *)
Definition in_range (x : float) : Prop :=
  (0 <=? x)%float = true /\ (x <=? 100)%float = true.

(** The ranges [normalize_metrics] passes to [minmax] (lines 73, 74, 128). *)
Definition minmax_ranges : list (float * float) :=
  [(4, 25); (0, 180); (90, 180)]%float.

(** The sections of a Signal Bundle, in the order of lines 50-54. *)
Definition sections : list string :=
  ["language"; "vocal"; "facial"; "interaction"; "highlevel"].

(** A truthy scalar: [True], a number other than zero, a non-empty
    string. *)
Definition truthy_scalar (v : value) : bool :=
  match v with
  | VBool b => b
  | VInt z => negb (z =? 0)%Z
  | VFloat f => negb (f =? 0)%float
  | VStr s => negb (s =? "")
  | VNone | VDict _ => false
  end.

(** A section value [dict(... or {})] accepts: absent, falsy, or a dict
    that exists. *)
Definition section_ok (h : store) (o : option value) : Prop :=
  match o with
  | None => True
  | Some (VDict l) => l < List.length h
  | Some v => truthy_scalar v = false
  end.

(** The keys [normalize_metrics] assigns (lines 61-131), in program order. *)
Definition normalized_keys : list string :=
  ["positivity"; "negativity_inv"; "objectivity"; "filler_inv";
   "avg_sentence_len_norm"; "patience_norm"; "kw_strength";
   "lang_emo_curiosity"; "question_ratio"; "offensiveness_inv"; "energy";
   "emo_pos"; "emo_neu"; "emo_neg_inv"; "attention_att";
   "attention_dist_inv"; "facial_emo_pos"; "facial_emo_neu";
   "facial_emo_dis_inv"; "talk_balance"; "speed_norm"; "action_items";
   "followup_questions"].

(** The two keys whose value is not the result of [clamp] or of [inv100]:
    line 62 and line 77. *)
Definition unclamped (k : string) : bool :=
  (k =? "negativity_inv") || (k =? "kw_strength").

(** A number or [None]. *)
Definition number_or_none (v : value) : Prop :=
  match v with VNone | VFloat _ => True | _ => False end.

Definition is_number (v : value) : bool :=
  match v with VFloat _ => true | _ => false end.

(** What an item of the normalized set can be. *)
Definition metric_ok (k : string) (v : value) : Prop :=
  In k normalized_keys
  /\ match v with
     | VNone => True
     | VFloat f => unclamped k = true \/ in_range f
     | _ => False
     end.

Definition metrics_ok (d : dict) : Prop :=
  Forall (fun kv : string * value => metric_ok (fst kv) (snd kv)) d.

(** The object at [out] holds a normalized set. *)
Definition holds_metrics (out : loc) (h : store) : Prop :=
  exists d, nth_error h out = Some d /\ metrics_ok d.

(** [m] keeps the store in [I], and a value it returns satisfies [Q]. *)
Definition keeps (I : store -> Prop) {A} (m : M A) (Q : A -> Prop) : Prop :=
  forall h, I h ->
    match m h with
    | Done a h' => I h' /\ Q a
    | Fail _ _ | Dangling => True
    end.

(** The ten curated metrics with the keys of the normalized set each is
    computed from (lines 137-146), in program order. *)
Definition curated_sources : list (string * list string) :=
  [("objectivity", ["objectivity"]);
   ("clarity_conciseness", ["filler_inv"; "avg_sentence_len_norm"]);
   ("energy", ["energy"]);
   ("decision_orientation", ["action_items"]);
   ("followup_questions", ["followup_questions"]);
   ("novelty_ideation", ["kw_strength"; "lang_emo_curiosity"]);
   ("attention_listening", ["attention_att"; "attention_dist_inv"]);
   ("talk_balance", ["talk_balance"]);
   ("patience", ["patience_norm"]);
   ("positivity_tone", ["positivity"; "emo_pos"; "emo_neg_inv"])].

(** One of the keys holds a number. *)
Definition has_number (norm : dict) (srcs : list string) : bool :=
  existsb (fun s => is_number (dict_get_default norm s VNone)) srcs.

(** The items of a dict that are numbers. *)
Definition numbers (cur : dict) : pydict float :=
  flat_map (fun kv : string * value =>
              match snd kv with VFloat f => [(fst kv, f)] | _ => [] end) cur.

(** The dict [cur] of lines 136-146, given the four averages. *)
Definition cur_of (norm : dict) (a1 a2 a3 a4 : option float) : dict :=
  let get k := dict_get_default norm k VNone in
  [("objectivity", get "objectivity");
   ("clarity_conciseness", of_opt a1);
   ("energy", get "energy");
   ("decision_orientation", get "action_items");
   ("followup_questions", get "followup_questions");
   ("novelty_ideation", of_opt a2);
   ("attention_listening", of_opt a3);
   ("talk_balance", get "talk_balance");
   ("patience", get "patience_norm");
   ("positivity_tone", of_opt a4)].

(** [f] is one of the four factor names. *)
Definition known_factor (f : string) : bool :=
  existsb (String.eqb f) factor_names.

(** A row of the weights table that names factors only. *)
Definition row_known (row : pydict float) : bool :=
  forallb known_factor (dict_keys row).

(** The rows of the curated metrics name factors only. *)
Definition rows_known (weights : pydict (pydict float))
           (curated : pydict float) : bool :=
  forallb (fun ms : string * float =>
             match dict_get weights (fst ms) with
             | None => true
             | Some row => row_known row
             end) curated.

(** Every row of the weights table names factors only. *)
Definition weights_ok (weights : pydict (pydict float)) : bool :=
  forallb (fun mr : string * pydict float => row_known (snd mr)) weights.

(** The ranks, in the order of line 186. *)
Definition ranks : list string :=
  ["primary"; "secondary"; "tertiary"; "quaternary"].

(** The multiplier table has the four ranks. *)
Definition multipliers_ok (multipliers : pydict float) : bool :=
  forallb (dict_has multipliers) ranks.

(** At least four entries, the first four of them factor names. *)
Definition order_ok (order : list string) : bool :=
  (4 <=? List.length order)%nat && forallb known_factor (firstn 4 order).

(** The keys of the [factors] of a result (line 202). *)
Definition factor_keys : list string :=
  ["precision"; "resolve"; "innovation"; "harmony"].

(** Every catalog key reads as an int and every catalog ordering is made of
    factor names. *)
Definition catalog_ok (int_of_str : string -> option Z)
           (patterns : pydict pattern_info) : bool :=
  forallb (fun p : string * pattern_info =>
             match int_of_str (fst p) with Some _ => true | None => false end
             && order_ok (p_order (snd p))) patterns.

(** The entry [score_all_patterns] stores for a catalog entry (line 213). *)
Definition catalog_entry (id : Z) (pinfo : pattern_info) (r : result) : entry :=
  {| e_result := r;
     e_pattern := {| t_id := Some id; t_name := p_name pinfo;
                     t_order := p_order pinfo |} |}.

(** The [pattern] field of the reply to a request with a selector
    (line 37 of [api.py]). *)
Definition custom_tag (order : list string) : pattern_tag :=
  {| t_id := None; t_name := "custom"; t_order := order |}.

(** A request for one bundle with no selector, and one with a literal
    ordering. *)
Definition auto_request (l : loc) : ScoreRequest :=
  {| spiky := l; pattern_id := None; pattern_name := None;
     bcat_pattern := None |}.
Definition order_request (l : loc) (o : list string) : ScoreRequest :=
  {| spiky := l; pattern_id := None; pattern_name := None;
     bcat_pattern := Some o |}.

(** Not negative: a zero, a positive number, plus infinity, or a NaN. *)
Definition unsigned (f : spec_float) : Prop :=
  match f with
  | S754_zero s | S754_infinity s | S754_finite s _ _ => s = false
  | S754_nan => True
  end.

(** With the sign [s], or a NaN. *)
Definition signed (s : bool) (f : spec_float) : Prop :=
  match f with
  | S754_zero s' | S754_infinity s' | S754_finite s' _ _ => s' = s
  | S754_nan => True
  end.

(** The quotient [k / 100] that [round(x, 2)] ends with, and the check that
    it is a float between 0 and 100, for [n] values of [k] from [k] on. *)
Definition cents (k : positive) : spec_float :=
  SFdiv prec emax (S754_finite false k 0) (S754_finite false 100 0).

Definition cent_ok (k : positive) : bool :=
  valid_binary (cents k) && SFleb (S754_zero false) (cents k)
  && SFleb (cents k) P100.

Fixpoint cents_ok (n : nat) (k : positive) : bool :=
  match n with
  | O => true
  | S n' => cent_ok k && cents_ok n' (Pos.succ k)
  end.




End Conditions.

(** * Properties *)

(** ** Dicts *)

Module DictFacts.
Import Notions Py.

Section Facts.
Context {V : Type}.
Implicit Types (d : pydict V) (k : string) (v : V).

Lemma dict_get_set_same d k v : dict_get (dict_set d k v) k = Some v.
Proof.
  induction d as [|[k' v'] r IH]; simpl.
  - now rewrite String.eqb_refl.
  - destruct (String.eqb k' k) eqn:E; simpl; rewrite E; auto.
Qed.

Lemma dict_get_set_other d k k' v :
  k <> k' -> dict_get (dict_set d k v) k' = dict_get d k'.
Proof.
  intros Hne. induction d as [|[k0 v0] r IH]; simpl.
  - destruct (String.eqb_spec k k'); congruence.
  - destruct (String.eqb_spec k0 k) as [->|Hk]; simpl.
    + destruct (String.eqb_spec k k'); congruence.
    + destruct (String.eqb_spec k0 k'); auto.
Qed.

Lemma dict_get_not_in d k : ~ In k (dict_keys d) -> dict_get d k = None.
Proof.
  induction d as [|[k' v'] r IH]; simpl; auto.
  intros H. destruct (String.eqb_spec k' k) as [->|]; [tauto|].
  apply IH. tauto.
Qed.

Lemma dict_get_in d k v : dict_get d k = Some v -> In (k, v) d.
Proof.
  induction d as [|[k' v'] r IH]; simpl; [discriminate|].
  destruct (String.eqb_spec k' k) as [->|].
  - intros [= ->]. now left.
  - intros H. right. auto.
Qed.

Lemma dict_get_some_key d k v : dict_get d k = Some v -> In k (dict_keys d).
Proof.
  intros H. apply dict_get_in in H. unfold dict_keys.
  change k with (fst (k, v)). now apply in_map.
Qed.

Lemma dict_set_fresh d k v :
  ~ In k (dict_keys d) -> dict_set d k v = d ++ [(k, v)].
Proof.
  induction d as [|[k' v'] r IH]; simpl; auto.
  intros H. destruct (String.eqb_spec k' k) as [->|]; [tauto|].
  f_equal. apply IH. tauto.
Qed.

Lemma dict_keys_set d k v :
  dict_keys (dict_set d k v)
  = if dict_has d k then dict_keys d else dict_keys d ++ [k].
Proof.
  unfold dict_has. induction d as [|[k' v'] r IH]; simpl; auto.
  destruct (String.eqb_spec k' k) as [->|]; simpl; auto.
  rewrite IH. now destruct (dict_get r k).
Qed.

(** Filling an empty dict from the items of a dict gives its items back,
    transformed. *)
Lemma fold_dict_set_map {U : Type} (f : string -> U -> V) (src : pydict U)
      (acc : pydict V) :
  NoDup (dict_keys acc ++ dict_keys src) ->
  fold_left (fun (out : pydict V) (kv : string * U) =>
               dict_set out (fst kv) (f (fst kv) (snd kv))) src acc
  = acc ++ map (fun kv : string * U => (fst kv, f (fst kv) (snd kv))) src.
Proof.
  revert acc. induction src as [|[k u] r IH]; intros acc Hnd; simpl.
  - now rewrite app_nil_r.
  - simpl in Hnd.
    assert (Hk : ~ In k (dict_keys acc)).
    { apply NoDup_remove_2 in Hnd. intros Hin. apply Hnd.
      apply in_or_app. now left. }
    rewrite dict_set_fresh by exact Hk.
    rewrite IH.
    + now rewrite <- app_assoc.
    + unfold dict_keys in *. rewrite map_app. simpl.
      rewrite <- app_assoc. simpl.
      apply NoDup_remove_1 in Hnd as Hnd1.
      apply NoDup_remove_2 in Hnd as Hnd2.
      clear - Hnd1 Hnd2.
      revert Hnd1 Hnd2. generalize (map fst acc) as a.
      generalize (@map (string * U) string fst r) as b. intros b a.
      revert b. induction a as [|x a IHa]; intros b H1 H2; simpl in *.
      * constructor; auto.
      * inversion H1; subst. constructor.
        -- intros Hin. apply in_app_or in Hin as [Hin|[->|Hin]].
           ++ apply H3. apply in_or_app. now left.
           ++ apply H2. now left.
           ++ apply H3. apply in_or_app. now right.
        -- apply IHa; auto.
Qed.
End Facts.
End DictFacts.

(** ** The pattern stage *)

Module PatternFacts.
Import Notions Py Scorer DictFacts.
Local Open Scope py_scope.

Section Facts.
Variable multipliers : pydict float.

Lemma rank_map_short (order : list string) :
  List.length order < 4 -> rank_map order = Raise IndexError.
Proof.
  destruct order as [|a [|b [|c [|d r]]]]; simpl; intros H;
    try reflexivity; lia.
Qed.

Lemma rank_map_long (order : list string) :
  4 <= List.length order ->
  exists a b c d r,
    order = a :: b :: c :: d :: r /\
    rank_map order
    = Ok (dict_set (dict_set (dict_set (dict_set [] a "primary")
                                       b "secondary") c "tertiary")
                   d "quaternary").
Proof.
  destruct order as [|a [|b [|c [|d r]]]]; simpl; intros H; try lia.
  now exists a, b, c, d, r.
Qed.

Lemma rank_map_absent (order : list string) (pmap : pydict string) (f : string) :
  rank_map order = Ok pmap ->
  ~ In f (firstn 4 order) ->
  dict_get pmap f = None.
Proof.
  intros Hmap Hf.
  destruct (Nat.lt_ge_cases (List.length order) 4) as [Hlt|Hge].
  - rewrite (rank_map_short _ Hlt) in Hmap. discriminate.
  - destruct (rank_map_long _ Hge) as (a & b & c & d & r & -> & Heq).
    assert (Hp : pmap = dict_set (dict_set (dict_set (dict_set [] a "primary")
                                                     b "secondary")
                                           c "tertiary") d "quaternary")
      by congruence.
    rewrite Hp. clear Hp Hmap Heq.
    simpl in Hf.
    assert (Ha : a <> f) by tauto. assert (Hb : b <> f) by tauto.
    assert (Hc : c <> f) by tauto. assert (Hd : d <> f) by tauto.
    rewrite (dict_get_set_other _ d f _ Hd), (dict_get_set_other _ c f _ Hc),
      (dict_get_set_other _ b f _ Hb), (dict_get_set_other _ a f _ Ha).
    reflexivity.
Qed.

Lemma subject_vector_unknown (scores : pydict float) (order : list string) (k : string) :
  4 <= List.length order ->
  In k (firstn 4 order) ->
  ~ In k (dict_keys scores) ->
  subject_vector scores order = Raise KeyError.
Proof.
  intros Hlen Hin Hk.
  destruct order as [|a [|b [|c [|d r]]]]; simpl in Hlen; try lia.
  apply dict_get_not_in in Hk.
  unfold subject_vector, dict_index, list_index.
  cbn [rmap nth_error rbind].
  simpl in Hin.
  destruct Hin as [->|[->|[->|[->|[]]]]]; rewrite ?Hk;
    repeat (match goal with
            | |- context [match dict_get scores ?x with _ => _ end] =>
                destruct (dict_get scores x)
            end; cbn [rbind]);
    rewrite ?Hk; reflexivity.
Qed.

Lemma apply_pattern_distinct (bases : pydict float) (order : list string)
      (pmap : pydict string) :
  NoDup (dict_keys bases) ->
  rank_map order = Ok pmap ->
  apply_pattern multipliers bases order
  = Ok (map (fun fb : string * float =>
               (fst fb, clamp (snd fb * multiplier_of multipliers pmap (fst fb)) 0 100))
            bases).
Proof.
  intros Hnd Hmap. unfold apply_pattern. rewrite Hmap. cbn [rbind].
  f_equal.
  exact (fold_dict_set_map
           (fun k b => clamp (b * multiplier_of multipliers pmap k) 0 100)
           bases [] Hnd).
Qed.

(** C1, as the code has it: the pattern stage validates nothing.  It raises
    [IndexError] exactly on an ordering of fewer than four entries;
    otherwise it scales every base factor, a factor that is not among the
    first four entries by the quaternary multiplier.  A request fails
    afterwards, in the alignment stage, when one of the first four entries
    is not the name of a factor score. *)
Theorem apply_pattern_unchecked (bases : pydict float) (order : list string) :
  NoDup (dict_keys bases) ->
  (List.length order < 4 ->
   apply_pattern multipliers bases order = Raise IndexError)
  /\ (4 <= List.length order ->
      exists pmap,
        rank_map order = Ok pmap
        /\ apply_pattern multipliers bases order
           = Ok (map (fun fb : string * float =>
                        (fst fb,
                         clamp (snd fb * multiplier_of multipliers pmap (fst fb))
                               0 100))
                     bases)
        /\ (forall f, ~ In f (firstn 4 order) ->
                      multiplier_of multipliers pmap f
                      = dict_get_default multipliers "quaternary" 1%float)
        /\ (forall scores k,
               In k (firstn 4 order) -> ~ In k (dict_keys scores) ->
               exists e, cosine_alignment multipliers scores order = Raise e)).
Proof.
  intros Hnd. split.
  - intros Hlt. unfold apply_pattern.
    now rewrite (rank_map_short _ Hlt).
  - intros Hge.
    destruct (rank_map_long _ Hge) as (a & b & c & d & r & Horder & Hmap).
    eexists. split; [exact Hmap|]. split; [|split].
    + now apply apply_pattern_distinct.
    + intros f Hf. unfold multiplier_of, dict_get_default at 2.
      now rewrite (rank_map_absent _ _ _ Hmap Hf).
    + intros scores k Hin Hk. unfold cosine_alignment.
      destruct (target_vector multipliers) as [t|e]; cbn [rbind].
      * rewrite (subject_vector_unknown _ _ _ Hge Hin Hk). cbn [rbind].
        now eexists.
      * now eexists.
Qed.
End Facts.

(** C1: an ordering that repeats [Precision] and omits [Harmony] is scored,
    and [Harmony] takes the quaternary multiplier 0.75. *)
Lemma repeated_factor_is_scored :
  let order := ["Precision"; "Precision"; "Resolve"; "Innovation"] in
  let h := fst (Sample.build Sample.balanced) in
  let l := snd (Sample.build Sample.balanced) in
  ~ Permutation order factor_names
  /\ exists r,
      score_one Sample.float_of_str Sample.weights Sample.multipliers h l order
      = Returns r
      /\ dict_get (factors r) "harmony" = Some 75%float.
Proof.
  cbv zeta. split.
  - intros P. apply Permutation_sym in P.
    assert (Hin : In "Harmony" factor_names) by (simpl; tauto).
    apply (Permutation_in _ P) in Hin. simpl in Hin.
    repeat (destruct Hin as [Hin|Hin]; [discriminate|]). exact Hin.
  - eexists. split; vm_compute; reflexivity.
Qed.

Lemma apply_pattern_unchecked_witness :
  let bases := [("Precision", 0%float); ("Resolve", 0%float);
                ("Innovation", 0%float); ("Harmony", 100%float)] in
  let order := ["Precision"; "Precision"; "Resolve"; "Innovation"] in
  apply_pattern Sample.multipliers bases order
  = Ok [("Precision", 0%float); ("Resolve", 0%float);
        ("Innovation", 0%float); ("Harmony", 75%float)].
Proof.
  intros bases order.
  assert (Hnd : NoDup (dict_keys bases)).
  { repeat constructor; simpl; intuition discriminate. }
  destruct (apply_pattern_unchecked Sample.multipliers bases order Hnd)
    as [_ Hlong].
  destruct (Hlong ltac:(simpl; lia)) as (pmap & Hmap & Happly & _).
  rewrite Happly. injection Hmap as <-. vm_compute. reflexivity.
Defined.

End PatternFacts.

(** ** The endpoint *)

Module ApiFacts.
Import Notions Conditions Py Scorer Api DictFacts.
Local Open Scope py_scope.

Section Facts.
Variable float_of_str : string -> option float.
Variable int_of_str : string -> option Z.
Variable str_lower : string -> string.
Variable weights : pydict (pydict float).
Variable multipliers : pydict float.
Variable patterns : pydict pattern_info.

Local Abbreviation score :=
  (score float_of_str int_of_str str_lower weights multipliers patterns).
Local Abbreviation score_one := (score_one float_of_str weights multipliers).
Local Abbreviation reply_single := (reply_single float_of_str weights multipliers).
Local Abbreviation reply_best :=
  (reply_best float_of_str int_of_str weights multipliers patterns).

Lemma id_given_drop i :
  id_given (if id_given i then i else None) = id_given i.
Proof. now destruct (id_given i) eqn:E. Qed.

Lemma name_given_drop n :
  name_given (if name_given n then n else None) = name_given n.
Proof. now destruct (name_given n) eqn:E. Qed.

Lemma order_given_drop o :
  order_given (if order_given o then o else None) = order_given o.
Proof. now destruct (order_given o) eqn:E. Qed.

Lemma id_in_catalog_drop i :
  id_in_catalog patterns (if id_given i then i else None)
  = id_in_catalog patterns i.
Proof.
  destruct i as [z|]; simpl; auto.
  destruct (z =? 0)%Z eqn:E; simpl; rewrite ?E; reflexivity.
Qed.

Lemma id_in_catalog_given i :
  id_in_catalog patterns i = true -> id_given i = true.
Proof.
  destruct i as [z|]; simpl; [|discriminate].
  now destruct (z =? 0)%Z.
Qed.

Lemma select_order_drop req :
  select_order str_lower patterns (drop_falsy req) = select_order str_lower patterns req.
Proof.
  unfold select_order, drop_falsy. cbn [pattern_id pattern_name bcat_pattern].
  rewrite order_given_drop, id_in_catalog_drop, name_given_drop.
  destruct (order_given (bcat_pattern req)) eqn:Ho; [reflexivity|].
  destruct (id_in_catalog patterns (pattern_id req)) eqn:Hi.
  - now rewrite (id_in_catalog_given _ Hi).
  - destruct (name_given (pattern_name req)) eqn:Hn; reflexivity.
Qed.

(** C10: a selector that is present but falsy ([pattern_id] 0, an empty
    [pattern_name], an empty [bcat_pattern]) is treated as an absent one;
    a request whose selectors are all absent or falsy gets best-of-catalog
    scoring. *)
Theorem falsy_selector_is_absent (h : store) (req : ScoreRequest) :
  score h req = score h (drop_falsy req)
  /\ (id_given (pattern_id req) = false ->
      name_given (pattern_name req) = false ->
      order_given (bcat_pattern req) = false ->
      score h req = reply_best h (spiky req)).
Proof.
  split.
  - unfold Api.score. rewrite select_order_drop.
    unfold drop_falsy at 1 2 3. cbn [pattern_id pattern_name bcat_pattern].
    rewrite id_given_drop, name_given_drop, order_given_drop.
    reflexivity.
  - intros Hi Hn Ho. unfold Api.score. now rewrite Hi, Hn, Ho.
Qed.

(** Line 32 finds nothing exactly when no name of the catalog is, lowered,
    the name asked for, lowered. *)
Lemma find_by_name_none name :
  find_by_name str_lower patterns name = None
  <-> forall v, In v (dict_values patterns) ->
        str_lower (p_name v) <> str_lower name.
Proof.
  unfold find_by_name. generalize (dict_values patterns) as vs.
  induction vs as [|w r IH]; cbn [filter].
  - split; [intros _ v []|reflexivity].
  - destruct (String.eqb_spec (str_lower (p_name w)) (str_lower name))
      as [E|E].
    + split; [discriminate|]. intros H. elim (H w); simpl; auto.
    + rewrite IH. split.
      * intros H v [<-|Hv]; auto.
      * intros H v Hv. apply H. now right.
Qed.

(** C2, as the code has it: a name that, lowered, is the lowered name of no
    catalog entry is an error for the client (400, ValueError).  An id that
    is not in the catalog is not: without a name or a literal ordering the
    request is scored with the ordering of catalog entry "15" and answered
    as a request for that ordering is, with status 200 and the result
    tagged [custom] where [score_one] returns and with the 400 of its
    error where it raises; it is a 400 (KeyError) when the catalog has no
    entry "15". *)
Theorem unresolved_selector (h : store) (req : ScoreRequest) :
  order_given (bcat_pattern req) = false ->
  id_in_catalog patterns (pattern_id req) = false ->
  (forall name,
     pattern_name req = Some name -> name <> "" ->
     (forall v, In v (dict_values patterns) ->
        str_lower (p_name v) <> str_lower name) ->
     score h req = Http400 ValueError)
  /\ (id_given (pattern_id req) = true ->
      name_given (pattern_name req) = false ->
      match dict_get patterns "15" with
      | None => score h req = Http400 KeyError
      | Some info =>
          match score_one h (spiky req) (p_order info) with
          | Returns r =>
              score h req
              = Http200 {| best := Some {| e_result := r;
                                           e_pattern :=
                                             custom_tag (p_order info) |};
                           all := [] |}
          | Raises e => score h req = Http400 e
          | Stuck => score h req = Broken
          end
      end).
Proof.
  intros Ho Hi. split.
  - intros name Hname Hne Hfind.
    assert (Hn : name_given (pattern_name req) = true).
    { rewrite Hname. unfold name_given.
      destruct (String.eqb_spec name ""); [contradiction|reflexivity]. }
    apply find_by_name_none in Hfind.
    unfold Api.score, select_order. rewrite Ho, Hi, Hn, Hname, Hfind.
    now rewrite orb_true_r.
  - intros Hid Hn.
    unfold Api.score, select_order, dict_index.
    rewrite Ho, Hi, Hn, Hid. cbn [orb].
    destruct (dict_get patterns "15") as [info|]; cbn [rbind]; [|reflexivity].
    unfold Api.reply_single.
    now destruct (score_one h (spiky req) (p_order info)).
Qed.
End Facts.

(** C2: id 99 is not in the sample catalog; the request is answered with
    status 200 and scored with the ordering of entry "15". *)
Lemma unknown_id_is_scored :
  let hr := Sample.request Sample.balanced (Some 99%Z) None None in
  dict_has Sample.patterns (str_of_int 99) = false
  /\ exists e,
      score Sample.float_of_str Sample.int_of_str Sample.str_lower
            Sample.weights Sample.multipliers Sample.patterns (fst hr) (snd hr)
      = Http200 {| best := Some e; all := [] |}
      /\ t_order (e_pattern e)
         = ["Resolve"; "Precision"; "Innovation"; "Harmony"].
Proof.
  cbv zeta. split; [reflexivity|].
  eexists. split; vm_compute; reflexivity.
Qed.

Lemma unresolved_selector_witness :
  let hr := Sample.request Sample.balanced (Some 99%Z) (Some "nobody") None in
  score Sample.float_of_str Sample.int_of_str Sample.str_lower Sample.weights
        Sample.multipliers Sample.patterns (fst hr) (snd hr)
  = Http400 ValueError.
Proof.
  cbv zeta.
  refine (proj1 (unresolved_selector Sample.float_of_str Sample.int_of_str
                   Sample.str_lower Sample.weights Sample.multipliers
                   Sample.patterns _ _ _ _)
                "nobody" _ _ _);
    try reflexivity; try discriminate.
  intros v Hv. simpl in Hv.
  destruct Hv as [<-|[<-|[<-|[]]]]; discriminate.
Defined.

(** Id 99 is not in the sample catalog and the bundle cannot be normalized:
    the reply is the 400 of the scoring error, entry "15" being there. *)
Lemma unknown_id_scoring_error :
  let hr := Sample.request Sample.energy_text (Some 99%Z) None None in
  dict_has Sample.patterns "15" = true
  /\ score Sample.float_of_str Sample.int_of_str Sample.str_lower
           Sample.weights Sample.multipliers Sample.patterns (fst hr) (snd hr)
     = Http400 TypeError.
Proof. cbv zeta. split; vm_compute; reflexivity. Qed.

Lemma falsy_selector_is_absent_witness :
  let hr := Sample.request Sample.balanced (Some 0%Z) (Some "") (Some []) in
  score Sample.float_of_str Sample.int_of_str Sample.str_lower
        Sample.weights Sample.multipliers Sample.patterns (fst hr) (snd hr)
  = reply_best Sample.float_of_str Sample.int_of_str Sample.weights
               Sample.multipliers Sample.patterns (fst hr) (spiky (snd hr)).
Proof.
  cbv zeta.
  refine (proj2 (falsy_selector_is_absent Sample.float_of_str Sample.int_of_str Sample.str_lower
                   Sample.weights Sample.multipliers Sample.patterns _ _) _ _ _);
    reflexivity.
Defined.

End ApiFacts.

(** ** The store: what a computation leaves untouched *)

Module StoreFacts.
Import Notions Py Scorer.
Local Open Scope py_scope.

Lemma agree_refl n h : agree n h h.
Proof. now intros l _. Qed.

Lemma agree_trans n h1 h2 h3 : agree n h1 h2 -> agree n h2 h3 -> agree n h1 h3.
Proof. intros H12 H23 l Hl. now rewrite H23, H12. Qed.

Lemma length_store_put h l d : List.length (store_put h l d) = List.length h.
Proof.
  revert l. induction h as [|x r IH]; intros [|l]; simpl; auto.
Qed.

Lemma nth_error_store_put_other h l d l' :
  l <> l' -> nth_error (store_put h l d) l' = nth_error h l'.
Proof.
  revert l l'. induction h as [|x r IH]; intros [|l] [|l'] Hne; simpl; auto;
    congruence.
Qed.

Lemma nth_error_store_put_same h l d :
  l < List.length h -> nth_error (store_put h l d) l = Some d.
Proof.
  revert l. induction h as [|x r IH]; intros [|l] Hl; simpl in *; try lia; auto.
  apply IH. lia.
Qed.

Section Rules.
Context {A B : Type}.
Variable n : nat.

Lemma frame_ret (a : A) (Q : A -> Prop) : Q a -> frame n (ret a) Q.
Proof. intros Ha h Hn. simpl. auto using agree_refl. Qed.

Lemma frame_bind (m : M A) (k : A -> M B) (Q : A -> Prop) (R : B -> Prop) :
  frame n m Q -> (forall a, Q a -> frame n (k a) R) -> frame n (bind m k) R.
Proof.
  intros Hm Hk h Hn. unfold bind. specialize (Hm h Hn).
  destruct (m h) as [a h1|e h1|]; auto.
  destruct Hm as (Hn1 & H01 & Ha).
  specialize (Hk a Ha h1 Hn1).
  destruct (k a h1) as [b h2|e h2|]; auto.
  - destruct Hk as (Hn2 & H12 & Hb). eauto using agree_trans.
  - destruct Hk as (Hn2 & H12). eauto using agree_trans.
Qed.

Lemma frame_weaken (m : M A) (Q R : A -> Prop) :
  frame n m Q -> (forall a, Q a -> R a) -> frame n m R.
Proof.
  intros Hm HQR h Hn. specialize (Hm h Hn).
  destruct (m h) as [a h1|e h1|]; auto.
  destruct Hm as (? & ? & ?). auto.
Qed.

Lemma frame_raise (e : exn) (Q : A -> Prop) : frame n (raise e) Q.
Proof. intros h Hn. simpl. auto using agree_refl. Qed.

Lemma frame_lift (r : res A) : frame n (lift r) any.
Proof.
  destruct r; [apply frame_ret; exact I | apply frame_raise].
Qed.
End Rules.

Section Primitives.
Variable n : nat.

Lemma frame_deref l : frame n (deref l) any.
Proof.
  intros h Hn. unfold deref. destruct (nth_error h l); auto.
  repeat split; auto using agree_refl.
Qed.

Lemma frame_alloc d : frame n (alloc d) (fresh n).
Proof.
  intros h Hn. unfold alloc, fresh. rewrite length_app. simpl.
  repeat split; try lia.
  intros l Hl. apply nth_error_app1. lia.
Qed.

Lemma frame_d_set l k v : n <= l -> frame n (d_set l k v) any.
Proof.
  intros Hl h Hn. unfold d_set. destruct (nth_error h l); auto.
  rewrite length_store_put. repeat split; auto.
  intros l' Hl'. apply nth_error_store_put_other. lia.
Qed.

Lemma frame_d_get l k : frame n (d_get l k) any.
Proof.
  unfold d_get. eapply frame_bind; [apply frame_deref|].
  intros. now apply frame_ret.
Qed.

Lemma frame_d_get_default l k v : frame n (d_get_default l k v) any.
Proof.
  unfold d_get_default. eapply frame_bind; [apply frame_deref|].
  intros. now apply frame_ret.
Qed.

Lemma frame_d_has l k : frame n (d_has l k) any.
Proof.
  unfold d_has. eapply frame_bind; [apply frame_deref|].
  intros. now apply frame_ret.
Qed.

Lemma frame_d_index l k : frame n (d_index l k) any.
Proof.
  unfold d_index. eapply frame_bind; [apply frame_deref|].
  intros. apply frame_lift.
Qed.

Lemma frame_truthy v : frame n (truthy v) any.
Proof.
  destruct v; simpl; try (now apply frame_ret).
  eapply frame_bind; [apply frame_deref|]. intros. now apply frame_ret.
Qed.

Lemma frame_py_or a (b : M value) :
  frame n b any -> frame n (py_or a b) any.
Proof.
  intros Hb. unfold py_or. eapply frame_bind; [apply frame_truthy|].
  intros [|] _; [now apply frame_ret | exact Hb].
Qed.

Lemma frame_empty_dict :
  frame n (l <- alloc [] ;; ret (VDict l)) any.
Proof.
  eapply frame_bind; [apply frame_alloc|]. intros. now apply frame_ret.
Qed.

Lemma frame_dict_ctor v : frame n (dict_ctor v) (fresh n).
Proof.
  destruct v as [| | | |s|l]; simpl; try apply frame_raise.
  - destruct s as [|c s]; [apply frame_alloc | apply frame_raise].
  - eapply frame_bind; [apply frame_deref|]. intros. apply frame_alloc.
Qed.

Lemma frame_when (b : bool) (m : M unit) :
  frame n m any -> frame n (when b m) any.
Proof. destruct b; simpl; auto. intros _. now apply frame_ret. Qed.
End Primitives.


Create HintDb frame.
#[export] Hint Resolve frame_raise frame_lift frame_deref frame_d_get
  frame_d_get_default frame_d_has frame_d_index frame_truthy frame_empty_dict
  frame_alloc frame_dict_ctor : frame.

(** One step through a computation, by its shape. *)
Ltac frame_step :=
  lazymatch goal with
  | |- frame _ (ret _) any => apply frame_ret; exact I
  | |- frame _ (bind (alloc _) _) _ =>
      eapply frame_bind; [apply frame_alloc | unfold fresh; intros ? ?]
  | |- frame _ (bind (dict_ctor _) _) _ =>
      eapply frame_bind; [apply frame_dict_ctor | unfold fresh; intros ? ?]
  | |- frame _ (bind _ _) _ =>
      eapply (frame_bind _ _ _ any); [ | intros ? _ ]
  | |- frame _ (when _ _) any => apply frame_when
  | |- frame _ (py_or _ _) any => apply frame_py_or
  | |- frame _ (d_set _ _ _) any => apply frame_d_set; assumption
  | |- frame _ (match ?x with _ => _ end) _ => destruct x
  | |- frame _ _ _ => solve [auto with frame]
  end.

Ltac frame_auto := repeat frame_step.

Section Normalizer.
Variable float_of_str : string -> option float.
Variable n : nat.

Lemma frame_section_copy spiky name :
  frame n (section_copy spiky name) (fresh n).
Proof.
  unfold section_copy.
  eapply (frame_bind _ _ _ any); [auto with frame | intros v _].
  eapply (frame_bind _ _ _ any); [|intros x _; apply frame_dict_ctor].
  frame_auto.
Qed.

Lemma frame_norm_positivity L out :
  n <= L -> n <= out -> frame n (norm_positivity float_of_str L out) any.
Proof. intros HL Hout. unfold norm_positivity. frame_auto. Qed.

Lemma frame_norm_objectivity L out :
  n <= L -> n <= out -> frame n (norm_objectivity float_of_str L out) any.
Proof. intros HL Hout. unfold norm_objectivity. frame_auto. Qed.

Lemma frame_norm_style L out :
  n <= L -> n <= out -> frame n (norm_style float_of_str L out) any.
Proof. intros HL Hout. unfold norm_style. frame_auto. Qed.

Lemma frame_norm_keywords L out :
  n <= L -> n <= out -> frame n (norm_keywords float_of_str L out) any.
Proof. intros HL Hout. unfold norm_keywords. frame_auto. Qed.

Lemma frame_norm_question L out :
  n <= L -> n <= out -> frame n (norm_question float_of_str L out) any.
Proof. intros HL Hout. unfold norm_question. frame_auto. Qed.

Lemma frame_norm_offensiveness L out :
  n <= L -> n <= out -> frame n (norm_offensiveness float_of_str L out) any.
Proof. intros HL Hout. unfold norm_offensiveness. frame_auto. Qed.

Lemma frame_norm_energy V out :
  n <= V -> n <= out -> frame n (norm_energy float_of_str V out) any.
Proof. intros HV Hout. unfold norm_energy. frame_auto. Qed.

Lemma frame_get_or_zero d k : frame n (get_or_zero d k) any.
Proof. unfold get_or_zero. frame_auto. Qed.

Lemma frame_norm_vocal_emotions V out :
  n <= V -> n <= out -> frame n (norm_vocal_emotions float_of_str V out) any.
Proof.
  pose proof frame_get_or_zero.
  intros HV Hout. unfold norm_vocal_emotions. frame_auto.
Qed.

Lemma frame_norm_attention F out :
  n <= F -> n <= out -> frame n (norm_attention float_of_str F out) any.
Proof. intros HF Hout. unfold norm_attention. frame_auto. Qed.

Lemma frame_norm_facial_emotions F out :
  n <= F -> n <= out -> frame n (norm_facial_emotions float_of_str F out) any.
Proof.
  pose proof frame_get_or_zero.
  intros HF Hout. unfold norm_facial_emotions. frame_auto.
Qed.

Lemma frame_norm_interaction I out :
  n <= I -> n <= out -> frame n (norm_interaction float_of_str I out) any.
Proof. intros HI Hout. unfold norm_interaction. frame_auto. Qed.

Lemma frame_norm_highlevel H out :
  n <= H -> n <= out -> frame n (norm_highlevel float_of_str H out) any.
Proof. intros HH Hout. unfold norm_highlevel. frame_auto. Qed.

Lemma frame_normalize_metrics spiky :
  frame n (normalize_metrics float_of_str spiky) any.
Proof.
  unfold normalize_metrics.
  eapply frame_bind; [apply frame_alloc | unfold fresh; intros out Hout].
  do 5 (eapply frame_bind;
        [apply frame_section_copy | unfold fresh; intros ? ?]).
  repeat lazymatch goal with
         | |- frame _ (bind _ _) _ =>
             eapply (frame_bind _ _ _ any);
             [ solve [auto using frame_norm_positivity, frame_norm_objectivity,
                        frame_norm_style, frame_norm_keywords,
                        frame_norm_question, frame_norm_offensiveness,
                        frame_norm_energy, frame_norm_vocal_emotions,
                        frame_norm_attention, frame_norm_facial_emotions,
                        frame_norm_interaction, frame_norm_highlevel]
             | intros ? _ ]
         end.
  apply frame_ret. exact I.
Qed.
End Normalizer.

Section Request.
Variable float_of_str : string -> option float.
Variable weights : pydict (pydict float).
Variable multipliers : pydict float.

Lemma frame_score_one_st n spiky order :
  frame n (score_one_st float_of_str weights multipliers spiky order) any.
Proof.
  unfold score_one_st.
  eapply (frame_bind _ _ _ any); [apply frame_normalize_metrics | intros out _].
  frame_auto.
Qed.

(** C9: scoring a request, from normalization through alignment, leaves
    every dict that existed before the call with the contents it had, also
    when the call raises: the sections of the caller's Signal Bundle and the
    mappings nested in them are not mutated. *)
Theorem score_one_keeps_bundle (h : store) (spiky : loc) (order : list string) :
  match score_one_st float_of_str weights multipliers spiky order h with
  | Done _ h' | Fail _ h' =>
      forall l d, nth_error h l = Some d -> nth_error h' l = Some d
  | Dangling => True
  end.
Proof.
  pose proof (frame_score_one_st (List.length h) spiky order h (le_n _)) as H.
  destruct (score_one_st float_of_str weights multipliers spiky order h)
    as [r h'|e h'|]; auto.
  - destruct H as (_ & Hagree & _). intros l d Hl.
    rewrite Hagree; auto. apply nth_error_Some. congruence.
  - destruct H as (_ & Hagree). intros l d Hl.
    rewrite Hagree; auto. apply nth_error_Some. congruence.
Qed.
End Request.

Lemma score_one_keeps_bundle_witness :
  let h := fst (Sample.build Sample.asks) in
  let l := snd (Sample.build Sample.asks) in
  match score_one_st Sample.float_of_str Sample.weights Sample.multipliers l
                     ["Resolve"; "Precision"; "Innovation"; "Harmony"] h with
  | Done _ h' | Fail _ h' =>
      nth_error h' 0 = Some [("question", VStr "Question about price");
                             ("filler_ratio", VFloat 0.25)]
  | Dangling => True
  end.
Proof.
  intros h l.
  pose proof (score_one_keeps_bundle Sample.float_of_str Sample.weights
                Sample.multipliers h l
                ["Resolve"; "Precision"; "Innovation"; "Harmony"]) as H.
  destruct (score_one_st _ _ _ _ _ _); auto; apply H; reflexivity.
Defined.

(** The rewriting of [question] (lines 80-85) happens, and happens in the
    copy: after the call the caller's [language] section (object 0) still
    holds the text, and the copy (object 3) holds the flag and the ratio. *)
Example question_is_rewritten_in_the_copy :
  let h := fst (Sample.build Sample.asks) in
  let l := snd (Sample.build Sample.asks) in
  exists out h',
    normalize_metrics Sample.float_of_str l h = Done out h'
    /\ nth_error h 0 = nth_error h' 0
    /\ nth_error h' 0
       = Some [("question", VStr "Question about price");
               ("filler_ratio", VFloat 0.25)]
    /\ nth_error h' 3
       = Some [("question", VFloat 1); ("filler_ratio", VFloat 0.25);
               ("question_ratio", VFloat 1)].
Proof.
  cbv zeta. do 2 eexists. repeat split; vm_compute; reflexivity.
Qed.

End StoreFacts.

(** ** The normalizer on particular bundles *)

Module NormalizerFacts.
Import Notions Py Scorer.
Local Open Scope py_scope.

(** C3: [{"vocal": {"energy": "high"}}] makes normalization raise
    [TypeError], whatever [float] accepts as a number: line 96 compares the
    text with [1]. *)
Theorem energy_text_raises (float_of_str : string -> option float) :
  normalized float_of_str (fst (Sample.build Sample.energy_text))
             (snd (Sample.build Sample.energy_text))
  = Raises TypeError.
Proof. vm_compute. reflexivity. Qed.

(** C5: [{"language": {"polarity": {"negative": 250}}}] is normalized to
    [negativity_inv = -150], below the range. *)
Theorem negativity_inv_below_range (float_of_str : string -> option float) :
  exists norm,
    normalized float_of_str (fst (Sample.build Sample.strong_negative))
               (snd (Sample.build Sample.strong_negative))
    = Returns norm
    /\ dict_get norm "negativity_inv" = Some (VFloat (-150))
    /\ (-150 <? 0)%float = true.
Proof. eexists. repeat split; vm_compute; reflexivity. Qed.

End NormalizerFacts.

(** ** Floats: order and NaN *)

Module FloatFacts.
Import Notions Py Scorer.

Ltac split_compare :=
  repeat match goal with
         | |- context [Pos.compare_cont Eq ?m1 ?m2] =>
             change (Pos.compare_cont Eq m1 m2) with (Z.compare (Zpos m1) (Zpos m2))
         | |- context [Z.compare ?x ?y] =>
             destruct (Z.compare_spec x y)
         end.

Lemma SFltb_rank a b :
  SFltb a b = true <-> not_nan a /\ not_nan b /\ lex_lt (rank a) (rank b).
Proof.
  unfold SFltb, SFcompare.
  destruct a as [[|]|[|]| |[|] m1 e1], b as [[|]|[|]| |[|] m2 e2];
    cbn [rank lex_lt not_nan]; split_compare; cbn [CompOpp];
    intuition (try discriminate; try lia).
Qed.

Lemma SFleb_rank a b :
  SFleb a b = true <-> not_nan a /\ not_nan b /\ lex_le (rank a) (rank b).
Proof.
  unfold SFleb, SFcompare.
  destruct a as [[|]|[|]| |[|] m1 e1], b as [[|]|[|]| |[|] m2 e2];
    cbn [rank lex_le not_nan]; split_compare; cbn [CompOpp];
    intuition (try discriminate; try lia).
Qed.

Lemma is_nan_spec x : is_nan x = false <-> not_nan (Prim2SF x).
Proof.
  unfold is_nan. rewrite eqb_spec. unfold SFeqb, SFcompare.
  destruct (Prim2SF x) as [[|]|[|]| |[|] m e]; cbn [not_nan negb];
    rewrite ?Z.compare_refl, ?Pos.compare_cont_refl; cbn [CompOpp negb];
    intuition discriminate.
Qed.

Lemma ltb_rank x y :
  (x <? y)%float = true
  <-> is_nan x = false /\ is_nan y = false /\ lex_lt (frank x) (frank y).
Proof. rewrite ltb_spec, SFltb_rank, !is_nan_spec. reflexivity. Qed.

Lemma leb_rank x y :
  (x <=? y)%float = true
  <-> is_nan x = false /\ is_nan y = false /\ lex_le (frank x) (frank y).
Proof. rewrite leb_spec, SFleb_rank, !is_nan_spec. reflexivity. Qed.

Ltac lex_arith :=
  unfold lex_lt, lex_le in *;
  repeat match goal with
         | |- context [frank ?x] =>
             let a := fresh "a" in let b := fresh "b" in let c := fresh "c" in
             destruct (frank x) as [[a b] c]
         | H : context [frank ?x] |- _ =>
             let a := fresh "a" in let b := fresh "b" in let c := fresh "c" in
             destruct (frank x) as [[a b] c]
         end;
  lia.

(** On floats that are not NaN the order is total. *)
Lemma ltb_false_leb x y :
  is_nan x = false -> is_nan y = false ->
  (x <? y)%float = false -> (y <=? x)%float = true.
Proof.
  intros Hx Hy Hlt. apply leb_rank. repeat split; auto.
  assert (H : ~ lex_lt (frank x) (frank y)).
  { intros H. rewrite (proj2 (ltb_rank x y)) in Hlt by auto. discriminate. }
  clear Hlt. lex_arith.
Qed.

Lemma ltb_leb x y : (x <? y)%float = true -> (x <=? y)%float = true.
Proof.
  rewrite ltb_rank, leb_rank. intros (Hx & Hy & H). repeat split; auto.
  lex_arith.
Qed.

Lemma leb_ltb_trans x y z :
  (x <=? y)%float = true -> (y <? z)%float = true -> (x <? z)%float = true.
Proof.
  rewrite !ltb_rank, leb_rank. intros (Hx & Hy & H1) (_ & Hz & H2).
  repeat split; auto. lex_arith.
Qed.

Lemma ltb_trans x y z :
  (x <? y)%float = true -> (y <? z)%float = true -> (x <? z)%float = true.
Proof. intros H. apply leb_ltb_trans. now apply ltb_leb. Qed.

Lemma leb_refl x : is_nan x = false -> (x <=? x)%float = true.
Proof. intros H. apply leb_rank. repeat split; auto. lex_arith. Qed.

Lemma ltb_not_nan_l x y : (x <? y)%float = true -> is_nan x = false.
Proof. rewrite ltb_rank. tauto. Qed.

(** [clamp] never returns NaN, and its result is within the bounds. *)
Lemma clamp_not_nan x : is_nan (clamp x 0 100) = false.
Proof.
  unfold clamp, py_max, py_min.
  destruct (x <? 100)%float eqn:H1.
  - destruct (0 <? x)%float eqn:H2; [|reflexivity].
    now apply ltb_not_nan_l in H1.
  - reflexivity.
Qed.

Lemma clamp_range x :
  (0 <=? clamp x 0 100)%float = true /\ (clamp x 0 100 <=? 100)%float = true.
Proof.
  unfold clamp, py_max, py_min.
  destruct (x <? 100)%float eqn:H1.
  - destruct (0 <? x)%float eqn:H2.
    + split; now apply ltb_leb.
    + split; reflexivity.
  - split; reflexivity.
Qed.


(** Rounding a non-negative mantissa never produces NaN. *)
Lemma shr_1_nonneg r : (0 <= shr_m r)%Z -> (0 <= shr_m (shr_1 r))%Z.
Proof.
  destruct r as [m rb sb]. destruct m as [|[p|p|]|p]; simpl; lia.
Qed.

Lemma iter_shr_1_nonneg p r :
  (0 <= shr_m r)%Z -> (0 <= shr_m (iter_pos shr_1 p r))%Z.
Proof.
  revert r. induction p as [p IH|p IH|]; intros r Hr; simpl.
  - apply IH, IH. now apply shr_1_nonneg.
  - now apply IH, IH.
  - now apply shr_1_nonneg.
Qed.

Lemma shr_fexp_nonneg m e l :
  (0 <= m)%Z -> (0 <= shr_m (fst (shr_fexp prec emax m e l)))%Z.
Proof.
  intros Hm. unfold shr_fexp, shr.
  assert (H0 : (0 <= shr_m (shr_record_of_loc m l))%Z)
    by (destruct l as [|[| |]]; exact Hm).
  destruct (fexp prec emax (Zdigits2 m + e) - e)%Z; simpl; auto.
  now apply iter_shr_1_nonneg.
Qed.

Lemma round_nearest_even_nonneg m l :
  (0 <= m)%Z -> (0 <= round_nearest_even m l)%Z.
Proof.
  intros Hm. destruct l as [|[| |]]; simpl; try lia.
  destruct (Z.even m); lia.
Qed.

Lemma binary_round_aux_not_nan s m e l :
  (0 <= m)%Z -> not_nan (binary_round_aux prec emax s m e l).
Proof.
  intros Hm. unfold binary_round_aux.
  pose proof (shr_fexp_nonneg m e l Hm) as H1.
  destruct (shr_fexp prec emax m e l) as [mrs1 e1]. simpl in H1.
  pose proof (shr_fexp_nonneg
                (round_nearest_even (shr_m mrs1) (loc_of_shr_record mrs1))
                e1 loc_Exact (round_nearest_even_nonneg _ _ H1)) as H2.
  destruct (shr_fexp prec emax _ e1 loc_Exact) as [mrs2 e2]. simpl in H2.
  destruct (shr_m mrs2); cbn [not_nan]; try lia; auto.
  now destruct (e2 <=? emax - prec)%Z.
Qed.

Lemma binary_round_not_nan s m e : not_nan (binary_round prec emax s m e).
Proof.
  unfold binary_round.
  destruct (shl_align m e _) as [mz ez].
  apply binary_round_aux_not_nan. lia.
Qed.

Lemma binary_normalize_not_nan m e s :
  not_nan (binary_normalize prec emax m e s).
Proof.
  destruct m; simpl; auto using binary_round_not_nan.
Qed.

Lemma SFdiv_finite_not_nan s1 m1 e1 s2 m2 e2 :
  not_nan (SFdiv prec emax (S754_finite s1 m1 e1) (S754_finite s2 m2 e2)).
Proof.
  cbn [SFdiv]. unfold SFdiv_core_binary.
  set (m' := match (e1 - e2 - _)%Z with
             | Zpos _ => _ | Z0 => _ | Zneg _ => _ end).
  assert (Hm' : (0 <= m')%Z).
  { subst m'. destruct (e1 - e2 - _)%Z; try lia.
    apply Z.shiftl_nonneg. lia. }
  pose proof (Z.div_pos m' (Zpos m2) Hm' ltac:(lia)) as Hq.
  unfold Z.div in Hq.
  destruct (Z.div_eucl m' (Zpos m2)) as [q r].
  now apply binary_round_aux_not_nan.
Qed.

Lemma SF2Prim_not_nan sf : not_nan sf -> is_nan (SF2Prim sf) = false.
Proof.
  destruct sf as [[|]|[|]| |s m e]; cbn [not_nan]; try reflexivity;
    try contradiction.
  intros _. cbn [SF2Prim].
  set (pm := of_uint63 (Uint63Axioms.of_Z (Zpos m))).
  assert (Hf : not_nan (Prim2SF (Z.ldexp pm e))).
  { rewrite Z_ldexp_spec. subst pm. rewrite of_uint63_spec.
    pose proof (binary_normalize_not_nan
                  (Uint63Axioms.to_Z (Uint63Axioms.of_Z (Zpos m))) 0 false) as H.
    destruct (binary_normalize prec emax _ 0 false); cbn [SFldexp]; auto.
    apply binary_round_not_nan. }
  destruct s; apply is_nan_spec; auto.
  rewrite opp_spec. now destruct (Prim2SF (Z.ldexp pm e)).
Qed.

Lemma round2_not_nan x : is_nan x = false -> is_nan (round2 x) = false.
Proof.
  intros Hx. unfold round2.
  destruct (Prim2SF x) as [| | |s m e]; auto.
  destruct (hundredths m e).
  - now destruct s.
  - apply SF2Prim_not_nan, SFdiv_finite_not_nan.
  - now destruct s.
Qed.

(** A finite float is a zero or has a mantissa. *)
Lemma is_finite_spec x :
  is_finite x = true ->
  match Prim2SF x with
  | S754_zero _ | S754_finite _ _ _ => True
  | _ => False
  end.
Proof.
  unfold is_finite, Prim2SF. intros H.
  destruct (is_nan x); [discriminate|].
  destruct (is_infinity x); [discriminate|].
  destruct (is_zero x); [exact I|].
  destruct (Z.frexp x) as [r e].
  destruct (shr_fexp prec emax _ _ loc_Exact) as [sh e'].
  now destruct (shr_m sh).
Qed.

(** Zero times a finite float is a zero. *)
Lemma zero_mul_finite m :
  is_finite m = true -> (0 * m = 0 \/ 0 * m = -0)%float.
Proof.
  intros H. apply is_finite_spec in H.
  assert (E : Prim2SF (0 * m) = SFmul prec emax (S754_zero false) (Prim2SF m))
    by (rewrite mul_spec; reflexivity).
  rewrite <- (SF2Prim_Prim2SF (0 * m)), E.
  destruct (Prim2SF m) as [[|]|[|]| |[|] mm em]; try contradiction;
    cbn [SFmul xorb SF2Prim]; auto.
Qed.

Lemma clamp_zero_mul m : is_finite m = true -> clamp (0 * m) 0 100 = 0%float.
Proof.
  intros H. destruct (zero_mul_finite m H) as [-> | ->]; reflexivity.
Qed.

End FloatFacts.

(** ** Best-of-catalog search *)

Module SearchFacts.
Import Notions Py Scorer DictFacts FloatFacts.
Local Open Scope py_scope.

Lemma rbind_ok {A B} (r : res A) (k : A -> res B) (b : B) :
  rbind r k = Ok b -> exists a, r = Ok a /\ k a = Ok b.
Proof. destruct r as [a|e]; simpl; [eauto|discriminate]. Qed.

Section Facts.
Variable float_of_str : string -> option float.
Variable int_of_str : string -> option Z.
Variable str_lower : string -> string.
Variable weights : pydict (pydict float).
Variable multipliers : pydict float.
Variable patterns : pydict pattern_info.

Local Abbreviation score_one := (score_one float_of_str weights multipliers).
Local Abbreviation search_step :=
  (search_step float_of_str int_of_str weights multipliers).
Local Abbreviation search := (search float_of_str int_of_str weights multipliers).

Lemma cosine_alignment_not_nan scores order a :
  cosine_alignment multipliers scores order = Ok a -> is_nan a = false.
Proof.
  unfold cosine_alignment. intros H.
  repeat (apply rbind_ok in H as (? & _ & H)).
  injection H as <-. apply clamp_not_nan.
Qed.

Lemma score_norm_not_nan s_norm order r :
  score_norm float_of_str weights multipliers s_norm order = Ok r ->
  is_nan (alignment_pct r) = false.
Proof.
  unfold score_norm. intros H.
  apply rbind_ok in H as (s_cur & _ & H).
  apply rbind_ok in H as (bases & _ & H).
  apply rbind_ok in H as (scores & _ & H).
  apply rbind_ok in H as (a & Ha & H).
  injection H as <-. cbn [alignment_pct].
  apply round2_not_nan. eapply cosine_alignment_not_nan; eauto.
Qed.

Lemma score_one_not_nan h spiky order r :
  score_one h spiky order = Returns r -> is_nan (alignment_pct r) = false.
Proof.
  unfold Scorer.score_one, score_one_st, bind.
  destruct (normalize_metrics float_of_str spiky h) as [out h1|e h1|];
    try discriminate.
  destruct (deref out h1) as [s_norm h2|e h2|]; try discriminate.
  destruct (score_norm float_of_str weights multipliers s_norm order)
    as [r'|e] eqn:E; try discriminate.
  simpl. intros [= <-]. eapply score_norm_not_nan; eauto.
Qed.

Lemma search_step_good h spiky best acc pid pinfo id r :
  good (best, acc) ->
  ~ In pid (dict_keys acc) ->
  int_of_str pid = Some id ->
  score_one h spiky (p_order pinfo) = Returns r ->
  exists b acc',
    search_step h spiky (best, acc) (pid, pinfo) = Returns (Some b, acc')
    /\ good (Some b, acc')
    /\ dict_keys acc' = dict_keys acc ++ [pid].
Proof.
  intros Hgood Hfresh Hid Hscore.
  unfold Scorer.search_step. rewrite Hscore, Hid.
  set (e := {| e_result := r;
               e_pattern := {| t_id := Some id; t_name := p_name pinfo;
                               t_order := p_order pinfo |} |}).
  rewrite (dict_set_fresh acc pid e Hfresh).
  assert (He : is_nan (align e) = false)
    by (eapply score_one_not_nan; eauto).
  assert (Hkeys : dict_keys (acc ++ [(pid, e)]) = dict_keys acc ++ [pid])
    by (unfold dict_keys; now rewrite map_app).
  destruct best as [b|].
  - destruct Hgood as [(before & pb & after & Hacc & Hbefore & Hafter) Hnan].
    assert (Hb : is_nan (align b) = false).
    { rewrite Forall_forall in Hnan. apply Hnan. rewrite Hacc.
      unfold dict_values. rewrite map_app. apply in_or_app. right. now left. }
    assert (Hnan' : Forall (fun e => is_nan (align e) = false)
                           (dict_values (acc ++ [(pid, e)]))).
    { unfold dict_values in *. rewrite map_app. apply Forall_app. split; auto.
      now repeat constructor. }
    change (alignment_pct (e_result b)) with (align b).
    change (alignment_pct r) with (align e).
    destruct (align b <? align e)%float eqn:Hlt.
    + exists e, (acc ++ [(pid, e)]).
      split; [reflexivity|]. split; [|exact Hkeys]. split; [|exact Hnan'].
      exists acc, pid, []. split; [reflexivity|]. split.
      * intros x Hx. rewrite Hacc in Hx. unfold dict_values in Hx.
        rewrite map_app in Hx. apply in_app_or in Hx as [Hx|[<-|Hx]]; auto.
        -- eapply ltb_trans; eauto.
        -- eapply leb_ltb_trans; eauto.
      * intros x [].
    + exists b, (acc ++ [(pid, e)]).
      split; [reflexivity|]. split; [|exact Hkeys]. split; [|exact Hnan'].
      exists before, pb, (after ++ [(pid, e)]). split; [|split; [exact Hbefore|]].
      * rewrite Hacc, <- app_assoc. reflexivity.
      * intros x Hx. unfold dict_values in Hx. rewrite map_app in Hx.
        apply in_app_or in Hx as [Hx|[<-|[]]]; auto.
        now apply ltb_false_leb.
  - simpl in Hgood. subst acc.
    exists e, [(pid, e)].
    split; [reflexivity|]. split; [|reflexivity]. split.
    + exists [], pid, []. split; [reflexivity|]. split; intros x [].
    + now repeat constructor.
Qed.

Lemma search_good h spiky ps :
  forall b acc,
    good (Some b, acc) ->
    NoDup (dict_keys acc ++ dict_keys ps) ->
    (forall pid pinfo, In (pid, pinfo) ps ->
       (exists id, int_of_str pid = Some id)
       /\ exists r, score_one h spiky (p_order pinfo) = Returns r) ->
    exists b' acc',
      search h spiky ps (Some b, acc) = Returns (Some b', acc')
      /\ good (Some b', acc')
      /\ dict_keys acc' = dict_keys acc ++ dict_keys ps.
Proof.
  induction ps as [|[pid pinfo] ps IH]; intros b acc Hgood Hnd Hok.
  - exists b, acc. simpl. now rewrite app_nil_r.
  - destruct (Hok pid pinfo (or_introl eq_refl)) as [[id Hid] [r Hr]].
    assert (Hfresh : ~ In pid (dict_keys acc)).
    { simpl in Hnd. apply NoDup_remove_2 in Hnd. intros Hin. apply Hnd.
      apply in_or_app. now left. }
    destruct (search_step_good h spiky (Some b) acc pid pinfo id r
                               Hgood Hfresh Hid Hr)
      as (b1 & acc1 & Hstep & Hgood1 & Hkeys1).
    cbn [Scorer.search]. rewrite Hstep.
    destruct (IH b1 acc1 Hgood1) as (b' & acc' & Hs & Hg & Hk).
    + rewrite Hkeys1, <- app_assoc. exact Hnd.
    + intros pid' pinfo' Hin. apply Hok. now right.
    + exists b', acc'. split; [exact Hs|]. split; [exact Hg|].
      rewrite Hk, Hkeys1, <- app_assoc. reflexivity.
Qed.

(** C4: when every catalog entry can be scored, best-of-catalog scoring
    returns; [all] has the catalog's keys in the catalog's order; [best] is
    an entry of [all] whose alignment no entry exceeds, and every entry
    before it has a strictly smaller alignment, so among equal maxima the
    first one in catalog order is [best]. *)
Theorem best_is_first_maximum (h : store) (spiky : loc) :
  patterns <> [] ->
  NoDup (dict_keys patterns) ->
  (forall pid pinfo, In (pid, pinfo) patterns ->
     (exists id, int_of_str pid = Some id)
     /\ exists r, score_one h spiky (p_order pinfo) = Returns r) ->
  exists b entries,
    score_all_patterns float_of_str int_of_str weights multipliers patterns
                       h spiky
    = Returns {| best := Some b; all := entries |}
    /\ dict_keys entries = dict_keys patterns
    /\ first_maximum b entries.
Proof.
  intros Hne Hnd Hok. unfold score_all_patterns.
  destruct patterns as [|[pid pinfo] ps]; [congruence|].
  destruct (Hok pid pinfo (or_introl eq_refl)) as [[id Hid] [r Hr]].
  destruct (search_step_good h spiky None [] pid pinfo id r
                             eq_refl (fun H => H) Hid Hr)
    as (b1 & acc1 & Hstep & Hgood1 & Hkeys1).
  destruct (search_good h spiky ps b1 acc1 Hgood1) as (b' & acc' & Hs & Hg & Hk).
  - rewrite Hkeys1. exact Hnd.
  - intros pid' pinfo' Hin. apply Hok. now right.
  - exists b', acc'. split; [|split].
    + cbn [Scorer.search]. unfold pydict in *.
      rewrite Hstep, Hs. reflexivity.
    + rewrite Hk, Hkeys1. reflexivity.
    + apply Hg.
Qed.
End Facts.

Lemma best_is_first_maximum_witness :
  exists b entries,
    score_all_patterns Sample.float_of_str Sample.int_of_str Sample.weights
                       Sample.multipliers Sample.patterns
                       (fst (Sample.build Sample.balanced))
                       (snd (Sample.build Sample.balanced))
    = Returns {| best := Some b; all := entries |}
    /\ dict_keys entries = dict_keys Sample.patterns
    /\ first_maximum b entries.
Proof.
  apply best_is_first_maximum.
  - discriminate.
  - repeat constructor; simpl; intuition discriminate.
  - intros pid pinfo [H|[H|[H|[]]]]; injection H as <- <-;
      (split; eexists; vm_compute; reflexivity).
Defined.

(** On the empty bundle every pattern has alignment 0, and the first catalog
    entry is [best]. *)
Example tie_keeps_the_first_entry :
  exists b entries,
    score_all_patterns Sample.float_of_str Sample.int_of_str Sample.weights
                       Sample.multipliers Sample.patterns
                       (fst (Sample.build Sample.empty_bundle))
                       (snd (Sample.build Sample.empty_bundle))
    = Returns {| best := Some b; all := entries |}
    /\ map (fun e => align (snd e)) entries = [0; 0; 0]%float
    /\ t_id (e_pattern b) = Some 1%Z.
Proof. do 2 eexists. repeat split; vm_compute; reflexivity. Qed.

End SearchFacts.

(** ** The empty Signal Bundle *)

Module EmptyFacts.
Import Notions Py Scorer DictFacts FloatFacts PatternFacts SearchFacts.
Local Open Scope py_scope.

Lemma rmap_length {A B} (f : A -> res B) xs ys :
  rmap f xs = Ok ys -> List.length ys = List.length xs.
Proof.
  revert ys. induction xs as [|x r IH]; intros ys; simpl.
  - now intros [= <-].
  - intros H. apply rbind_ok in H as (y & _ & H).
    apply rbind_ok in H as (ys' & Hr & H). injection H as <-.
    simpl. f_equal. auto.
Qed.

Section Facts.
Variable float_of_str : string -> option float.
Variable weights : pydict (pydict float).
Variable multipliers : pydict float.

Hypothesis finite_multipliers :
  Forall (fun lm => is_finite (snd lm) = true) multipliers.

Lemma multiplier_of_finite pmap f :
  is_finite (multiplier_of multipliers pmap f) = true.
Proof.
  unfold multiplier_of, dict_get_default at 1.
  destruct (dict_get multipliers _) as [m|] eqn:E; [|reflexivity].
  apply dict_get_in in E. rewrite Forall_forall in finite_multipliers.
  exact (finite_multipliers _ E).
Qed.

Lemma apply_pattern_zeros order :
  4 <= List.length order -> apply_pattern multipliers zeros order = Ok zeros.
Proof.
  intros Hlen.
  destruct (rank_map_long order Hlen) as (a & b & c & d & r & _ & Hmap).
  rewrite (apply_pattern_distinct multipliers zeros order _) with (2 := Hmap).
  - unfold zeros, factor_names. cbn [map fst snd].
    now rewrite !clamp_zero_mul by apply multiplier_of_finite.
  - repeat constructor; simpl; intuition discriminate.
Qed.

Lemma subject_vector_zeros order :
  Permutation order factor_names ->
  subject_vector zeros order = Ok [0; 0; 0; 0]%float.
Proof.
  intros P.
  assert (Hin : forall k, In k order -> dict_index zeros k = Ok 0%float).
  { intros k Hk. apply (Permutation_in _ P) in Hk. simpl in Hk.
    destruct Hk as [<-|[<-|[<-|[<-|[]]]]]; reflexivity. }
  pose proof (Permutation_length P) as Hlen.
  destruct order as [|a [|b [|c [|d [|x r]]]]]; try discriminate.
  unfold subject_vector, list_index. cbn [rmap nth_error rbind].
  rewrite !Hin by (simpl; tauto). reflexivity.
Qed.

Lemma cosine_alignment_zeros order tvec :
  Permutation order factor_names ->
  target_vector multipliers = Ok tvec ->
  Forall (fun t => is_finite t = true) tvec ->
  cosine_alignment multipliers zeros order = Ok 0%float.
Proof.
  intros P Ht Hfin. unfold cosine_alignment.
  rewrite Ht, (subject_vector_zeros order P). cbn [rbind].
  assert (Hlen : List.length tvec = 4).
  { unfold target_vector in Ht.
    apply rbind_ok in Ht as (t & Hlab & Ht).
    apply rbind_ok in Ht as (tnorm & _ & Ht).
    apply rmap_length in Ht, Hlab. now rewrite Ht, Hlab. }
  destruct tvec as [|t0 [|t1 [|t2 [|t3 [|x r]]]]]; try discriminate.
  inversion Hfin as [|? ? H0 Hfin1]; subst.
  inversion Hfin1 as [|? ? H1 Hfin2]; subst.
  inversion Hfin2 as [|? ? H2 Hfin3]; subst.
  inversion Hfin3 as [|? ? H3 _]; subst.
  cbn [combine map fst snd].
  destruct (zero_mul_finite t0 H0) as [-> | ->];
    destruct (zero_mul_finite t1 H1) as [-> | ->];
    destruct (zero_mul_finite t2 H2) as [-> | ->];
    destruct (zero_mul_finite t3 H3) as [-> | ->];
    reflexivity.
Qed.

(** C7: on the empty Signal Bundle, with finite multipliers and a finite
    target vector, every 4-permutation pattern is scored without an
    exception; the normalized and the curated metrics are empty, the four
    base factor scores are 0, and so are the adjusted scores and the
    alignment. *)
Theorem empty_bundle_scores_zero (order : list string) (tvec : list float) :
  Permutation order factor_names ->
  target_vector multipliers = Ok tvec ->
  Forall (fun t => is_finite t = true) tvec ->
  let h := fst (Sample.build Sample.empty_bundle) in
  let l := snd (Sample.build Sample.empty_bundle) in
  normalized float_of_str h l = Returns []
  /\ build_curated_metrics float_of_str [] = Ok []
  /\ base_factors weights [] = Ok zeros
  /\ norm_or_one [0; 0; 0; 0]%float = Ok 1%float
  /\ score_one float_of_str weights multipliers h l order = Returns empty_result.
Proof.
  intros P Ht Hfin h l.
  assert (Hnorm : exists h',
             normalize_metrics float_of_str l h = Done 1 h'
             /\ deref 1 h' = Done [] h')
    by (eexists; split; vm_compute; reflexivity).
  destruct Hnorm as (h' & Hnorm & Hout).
  split; [|split; [|split; [|split]]].
  - unfold normalized, bind. rewrite Hnorm, Hout. reflexivity.
  - reflexivity.
  - reflexivity.
  - reflexivity.
  - unfold score_one, score_one_st, bind. rewrite Hnorm, Hout.
    unfold score_norm.
    change (build_curated_metrics float_of_str []) with (Ok ([] : pydict float)).
    cbn [rbind].
    change (base_factors weights []) with (Ok zeros).
    cbn [rbind].
    rewrite apply_pattern_zeros
      by (rewrite (Permutation_length P); simpl; lia).
    cbn [rbind].
    rewrite (cosine_alignment_zeros order tvec P Ht Hfin).
    reflexivity.
Qed.
End Facts.

Lemma empty_bundle_scores_zero_witness :
  score_one Sample.float_of_str Sample.weights Sample.multipliers
            (fst (Sample.build Sample.empty_bundle))
            (snd (Sample.build Sample.empty_bundle))
            ["Resolve"; "Precision"; "Innovation"; "Harmony"]
  = Returns empty_result.
Proof.
  refine (proj2 (proj2 (proj2 (proj2
    (empty_bundle_scores_zero Sample.float_of_str Sample.weights
       Sample.multipliers _ ["Resolve"; "Precision"; "Innovation"; "Harmony"]
       (match target_vector Sample.multipliers with Ok t => t | Raise _ => [] end)
       _ _ _))))).
  - repeat constructor.
  - apply perm_swap.
  - vm_compute. reflexivity.
  - vm_compute. repeat constructor.
Defined.

End EmptyFacts.

(** ** Running a computation on a known store *)

Module RunFacts.
Import Notions Py Scorer StoreFacts.
Local Open Scope py_scope.

Lemma run_bind {A B} (m : M A) (k : A -> M B) h a h' :
  m h = Done a h' -> bind m k h = k a h'.
Proof. unfold bind. now intros ->. Qed.

Lemma run_deref h l d : nth_error h l = Some d -> deref l h = Done d h.
Proof. unfold deref. now intros ->. Qed.

Lemma run_d_get h l d k :
  nth_error h l = Some d -> d_get l k h = Done (dict_get_default d k VNone) h.
Proof.
  intros H. unfold d_get. now rewrite (run_bind _ _ _ _ _ (run_deref _ _ _ H)).
Qed.




Lemma run_d_set h l d k v :
  nth_error h l = Some d ->
  d_set l k v h = Done tt (store_put h l (dict_set d k v)).
Proof. unfold d_set. now intros ->. Qed.



Lemma nth_error_put h l d d' :
  nth_error h l = Some d -> nth_error (store_put h l d') l = Some d'.
Proof.
  intros H. apply nth_error_store_put_same. apply nth_error_Some. congruence.
Qed.



End RunFacts.

(** ** The emotion buckets *)

Module EmotionFacts.
Import Notions Conditions Py Scorer StoreFacts DictFacts RunFacts.
Local Open Scope py_scope.

Section Facts.
Variable float_of_str : string -> option float.

Local Abbreviation to100 := (to100 float_of_str).
Local Abbreviation inv100 := (inv100 float_of_str).










End Facts.


(** [{"vocal": {"emotions": {"sad": "x", "angry": 0.1}}}]: the text cannot
    be added to the number, and normalization raises. *)
Lemma negative_class_text_raises :
  let j := JObj [("vocal", JObj [("emotions",
                    JObj [("sad", JStr "x"); ("angry", JFloat 0.1)])])] in
  normalized Sample.float_of_str (fst (Sample.build j)) (snd (Sample.build j))
  = Raises TypeError.
Proof. vm_compute. reflexivity. Qed.


End EmotionFacts.

(** ** Floats: rounding to nearest even

    [SpecFloat] gives the result of an operation by its bits.  Here the
    rounding it performs is related to division by a power of two, far
    enough to show that [(100 - c) + c] is [100] for every [c] in
    [[0, 100]]. *)

Module RoundingFacts.
Import Notions Py Scorer FloatFacts.
Local Open Scope Z_scope.

(** The number of binary digits of a positive integer. *)
Lemma digits_bounds p :
  2 ^ (Zpos (digits2_pos p) - 1) <= Zpos p < 2 ^ Zpos (digits2_pos p).
Proof.
  induction p as [p IH|p IH|]; cbn [digits2_pos].
  - rewrite Pos2Z.inj_succ. replace (Z.succ (Zpos (digits2_pos p)) - 1) with (Z.succ (Zpos (digits2_pos p) - 1)) by lia.
    rewrite !Z.pow_succ_r by lia. lia.
  - rewrite Pos2Z.inj_succ. replace (Z.succ (Zpos (digits2_pos p)) - 1) with (Z.succ (Zpos (digits2_pos p) - 1)) by lia.
    rewrite !Z.pow_succ_r by lia. lia.
  - simpl. lia.
Qed.

Lemma digits_unique N d :
  2 ^ (d - 1) <= N < 2 ^ d -> 0 < d -> Zdigits2 N = d.
Proof.
  intros [Hlo Hhi] Hd.
  assert (HN : 0 < N) by (pose proof (Z.pow_pos_nonneg 2 (d - 1)); lia).
  destruct N as [|p|p]; try lia. cbn [Zdigits2].
  pose proof (digits_bounds p) as [Hl Hh].
  set (d' := Zpos (digits2_pos p)) in *.
  assert (Hd' : 0 < d') by (subst d'; lia).
  destruct (Z.lt_trichotomy d d') as [H|[H|H]]; auto.
  - assert (2 ^ d <= 2 ^ (d' - 1)) by (apply Z.pow_le_mono_r; lia). lia.
  - assert (2 ^ d' <= 2 ^ (d - 1)) by (apply Z.pow_le_mono_r; lia). lia.
Qed.

(** Shifting right, step by step. *)
Lemma iter_pos_nat {A} (f : A -> A) p x :
  iter_pos f p x = Nat.iter (Pos.to_nat p) f x.
Proof.
  revert x. induction p as [p IH|p IH|]; intros x; cbn [iter_pos].
  - rewrite !IH. rewrite Pos2Nat.inj_xI.
    replace (S (2 * Pos.to_nat p))%nat with (Pos.to_nat p + (Pos.to_nat p + 1))%nat by lia.
    rewrite !Nat.iter_add. simpl. reflexivity.
  - rewrite !IH. rewrite Pos2Nat.inj_xO.
    replace (2 * Pos.to_nat p)%nat with (Pos.to_nat p + Pos.to_nat p)%nat by lia.
    rewrite Nat.iter_add. reflexivity.
  - reflexivity.
Qed.

Lemma shr_1_spec m r s :
  0 <= m -> shr_1 {| shr_m := m; shr_r := r; shr_s := s |}
            = {| shr_m := m / 2; shr_r := Z.odd m; shr_s := r || s |}.
Proof.
  intros Hm. destruct m as [|[p|p|]|p]; try lia; cbn [shr_1].
  - reflexivity.
  - f_equal. rewrite Pos2Z.inj_xI. apply Z.div_unique with 1; lia.
  - f_equal. rewrite Pos2Z.inj_xO. apply Z.div_unique with 0; lia.
  - reflexivity.
Qed.

Lemma mod_pow2_succ N j :
  0 <= j -> N mod 2 ^ (j + 1) = N mod 2 ^ j + 2 ^ j * ((N / 2 ^ j) mod 2).
Proof.
  intros Hj. rewrite Z.pow_add_r by lia. change (2 ^ 1) with 2.
  apply Z.rem_mul_r; try lia.
Qed.

Lemma shr_iter N n :
  0 <= N ->
  Nat.iter (S n) shr_1 {| shr_m := N; shr_r := false; shr_s := false |}
  = shifted N (S n).
Proof.
  intros HN. induction n as [|n IH].
  - cbn [Nat.iter nat_rect]. rewrite shr_1_spec by lia. unfold shifted.
    change (Z.of_nat 1 - 1) with 0. change (Z.of_nat 1) with 1.
    rewrite Z.pow_0_r, Z.pow_1_r, Z.div_1_r, Z.mod_1_r. reflexivity.
  - change (Nat.iter (S (S n)) shr_1 ?x) with (shr_1 (Nat.iter (S n) shr_1 x)).
    rewrite IH. unfold shifted.
    assert (Hpos : 0 < 2 ^ Z.of_nat (S n)) by (apply Z.pow_pos_nonneg; lia).
    rewrite shr_1_spec by (apply Z.div_pos; lia).
    replace (Z.of_nat (S (S n)) - 1) with (Z.of_nat (S n)) by lia.
    replace (Z.of_nat (S (S n))) with (Z.of_nat (S n) + 1) by lia.
    f_equal.
    + rewrite Z.pow_add_r by lia. change (2 ^ 1) with 2.
      rewrite Z.div_div by lia. reflexivity.
    + replace (Z.of_nat (S n)) with ((Z.of_nat (S n) - 1) + 1) at 3 by lia.
      rewrite mod_pow2_succ by lia.
      set (j := Z.of_nat (S n) - 1).
      assert (H2j : 0 < 2 ^ j) by (apply Z.pow_pos_nonneg; lia).
      pose proof (Z.mod_pos_bound N (2 ^ j) H2j) as Hm.
      pose proof (Z.mod_pos_bound (N / 2 ^ j) 2 ltac:(lia)) as Hb.
      rewrite Zodd_mod.
      destruct (Z.eqb_spec ((N / 2 ^ j) mod 2) 1) as [Eb|Eb].
      * rewrite Eb. simpl.
        symmetry. apply negb_true_iff. apply Z.eqb_neq. nia.
      * assert (E0 : (N / 2 ^ j) mod 2 = 0) by lia.
        rewrite E0. simpl. rewrite Z.mul_0_r, Z.add_0_r. reflexivity.
Qed.

Lemma rne_split N j :
  0 <= N -> 0 <= j ->
  rne N (j + 1)
  = match Z.odd (N / 2 ^ j), negb (N mod 2 ^ j =? 0) with
    | false, _ => N / 2 ^ (j + 1)
    | true, false => if Z.even (N / 2 ^ (j + 1)) then N / 2 ^ (j + 1)
                     else N / 2 ^ (j + 1) + 1
    | true, true => N / 2 ^ (j + 1) + 1
    end.
Proof.
  intros HN Hj. unfold rne.
  rewrite mod_pow2_succ by lia.
  assert (Hp : 2 ^ (j + 1) = 2 * 2 ^ j)
    by (rewrite Z.pow_add_r by lia; change (2 ^ 1) with 2; lia).
  assert (H2j : 0 < 2 ^ j) by (apply Z.pow_pos_nonneg; lia).
  pose proof (Z.mod_pos_bound N (2 ^ j) H2j) as Hm.
  pose proof (Z.mod_pos_bound (N / 2 ^ j) 2 ltac:(lia)) as Hb.
  rewrite Zodd_mod.
  destruct (Z.eqb_spec ((N / 2 ^ j) mod 2) 1) as [Eb|Eb].
  - rewrite Eb.
    destruct (Z.eqb_spec (N mod 2 ^ j) 0) as [E0|E0]; cbn [negb].
    + replace (2 * (N mod 2 ^ j + 2 ^ j * 1) ?= 2 ^ (j + 1)) with Eq; [reflexivity|].
      symmetry. apply Z.compare_eq_iff. lia.
    + replace (2 * (N mod 2 ^ j + 2 ^ j * 1) ?= 2 ^ (j + 1)) with Gt; [reflexivity|].
      symmetry. apply Z.compare_gt_iff. lia.
  - assert (E2 : (N / 2 ^ j) mod 2 = 0) by lia. rewrite E2.
    replace (2 * (N mod 2 ^ j + 2 ^ j * 0) ?= 2 ^ (j + 1)) with Lt; [reflexivity|].
    symmetry. apply Z.compare_lt_iff. lia.
Qed.

Lemma round_shifted N n :
  0 <= N ->
  round_nearest_even (shr_m (shifted N (S n))) (loc_of_shr_record (shifted N (S n)))
  = rne N (Z.of_nat (S n)).
Proof.
  intros HN.
  pose proof (rne_split N (Z.of_nat (S n) - 1) HN ltac:(lia)) as H.
  replace (Z.of_nat (S n) - 1 + 1) with (Z.of_nat (S n)) in H by lia.
  rewrite H. unfold shifted. cbn [shr_m loc_of_shr_record].
  destruct (Z.odd _), (negb _); reflexivity.
Qed.

Lemma fexp_eq x : fexp prec emax x = Z.max (x - 53) (-1074).
Proof. reflexivity. Qed.

Lemma shr_fexp_noshift m e :
  fexp prec emax (Zdigits2 m + e) <= e ->
  shr_fexp prec emax m e loc_Exact
  = ({| shr_m := m; shr_r := false; shr_s := false |}, e).
Proof.
  intros H. unfold shr_fexp, shr. cbn [shr_record_of_loc].
  destruct (fexp prec emax (Zdigits2 m + e) - e) eqn:E; try reflexivity. lia.
Qed.

Lemma shr_fexp_shift m e n :
  0 <= m -> 0 < n ->
  fexp prec emax (Zdigits2 m + e) - e = n ->
  exists k, n = Z.of_nat (S k)
            /\ shr_fexp prec emax m e loc_Exact = (shifted m (S k), e + n).
Proof.
  intros Hm Hn E. unfold shr_fexp, shr. cbn [shr_record_of_loc]. rewrite E.
  destruct n as [|p|p]; try lia.
  destruct (Pos2Nat.is_succ p) as [k Hk].
  exists k. split; [lia|].
  rewrite iter_pos_nat, Hk, shr_iter by lia. reflexivity.
Qed.

Lemma binary_round_aux_exact s p ex :
  fexp prec emax (Zdigits2 (Zpos p) + ex) <= ex ->
  ex <= emax - prec ->
  binary_round_aux prec emax s (Zpos p) ex loc_Exact = S754_finite s p ex.
Proof.
  intros Hf He. unfold binary_round_aux.
  rewrite (shr_fexp_noshift _ _ Hf). cbn [shr_m loc_of_shr_record round_nearest_even].
  rewrite (shr_fexp_noshift _ _ Hf). cbn [shr_m].
  apply Z.leb_le in He. now rewrite He.
Qed.

Lemma binary_round_aux_round s p ex n p' :
  fexp prec emax (Zdigits2 (Zpos p) + ex) - ex = n -> 0 < n ->
  rne (Zpos p) n = Zpos p' ->
  fexp prec emax (Zdigits2 (Zpos p') + (ex + n)) <= ex + n ->
  ex + n <= emax - prec ->
  binary_round_aux prec emax s (Zpos p) ex loc_Exact = S754_finite s p' (ex + n).
Proof.
  intros E Hn Hr Hf He. unfold binary_round_aux.
  destruct (shr_fexp_shift (Zpos p) ex n ltac:(lia) Hn E) as (k & Hk & ->).
  rewrite round_shifted by lia. rewrite <- Hk, Hr.
  rewrite (shr_fexp_noshift _ _ Hf). cbn [shr_m].
  apply Z.leb_le in He. now rewrite He.
Qed.

Lemma binary_round_aux_carry s p ex n p' :
  fexp prec emax (Zdigits2 (Zpos p) + ex) - ex = n -> 0 < n ->
  rne (Zpos p) n = Zpos (xO p') ->
  fexp prec emax (Zdigits2 (Zpos (xO p')) + (ex + n)) - (ex + n) = 1 ->
  ex + n + 1 <= emax - prec ->
  binary_round_aux prec emax s (Zpos p) ex loc_Exact = S754_finite s p' (ex + n + 1).
Proof.
  intros E Hn Hr Hf He. unfold binary_round_aux.
  destruct (shr_fexp_shift (Zpos p) ex n ltac:(lia) Hn E) as (k & Hk & ->).
  rewrite round_shifted by lia. rewrite <- Hk, Hr.
  unfold shr_fexp at 1. rewrite Hf. cbn [shr shr_record_of_loc iter_pos shr_1 shr_m].
  apply Z.leb_le in He. now rewrite He.
Qed.

(** Aligning two mantissas on the smaller exponent. *)
Lemma pos_iter_xO mx d : Zpos (Pos.iter xO mx d) = Zpos mx * 2 ^ Zpos d.
Proof.
  induction d as [|d IH] using Pos.peano_ind.
  - simpl. lia.
  - rewrite Pos.iter_succ, Pos2Z.inj_xO, IH, Pos2Z.inj_succ, Z.pow_succ_r by lia.
    lia.
Qed.

Lemma shl_align_spec mx ex ex' :
  ex' <= ex ->
  exists mz, shl_align mx ex ex' = (mz, ex')
             /\ Zpos mz = Zpos mx * 2 ^ (ex - ex').
Proof.
  intros H. unfold shl_align.
  destruct (ex' - ex) as [|d|d] eqn:E; try lia.
  - assert (ex' = ex) by lia. subst ex'. exists mx. split; auto.
    rewrite Z.sub_diag. simpl. lia.
  - exists (Pos.iter xO mx d). split; auto.
    rewrite pos_iter_xO. f_equal. f_equal. lia.
Qed.

Lemma shl_align_noop mx ex ex' : ex <= ex' -> shl_align mx ex ex' = (mx, ex).
Proof.
  intros H. unfold shl_align. destruct (ex' - ex) eqn:E; auto. lia.
Qed.

Lemma digits_scale p j :
  0 <= j -> Zdigits2 (Zpos p * 2 ^ j) = Zpos (digits2_pos p) + j.
Proof.
  intros Hj. pose proof (digits_bounds p) as [Hl Hh].
  assert (H2 : 0 < 2 ^ j) by (apply Z.pow_pos_nonneg; lia).
  apply digits_unique; [|lia].
  replace (Zpos (digits2_pos p) + j - 1) with (Zpos (digits2_pos p) - 1 + j) by lia.
  rewrite !Z.pow_add_r by lia. nia.
Qed.

Lemma SFsub_pos m1 e1 m2 e2 :
  e2 <= e1 ->
  SFsub prec emax (S754_finite false m1 e1) (S754_finite false m2 e2)
  = binary_normalize prec emax (Zpos m1 * 2 ^ (e1 - e2) - Zpos m2) e2 false.
Proof.
  intros H. cbn [SFsub]. rewrite Z.min_r by lia. cbn [cond_Zopp].
  destruct (shl_align_spec m1 e1 e2 H) as (mz & E1 & E2).
  rewrite E1, shl_align_noop by lia. cbn [fst]. now rewrite E2.
Qed.

Lemma SFadd_pos_hi m1 e1 m2 e2 :
  e2 <= e1 ->
  SFadd prec emax (S754_finite false m1 e1) (S754_finite false m2 e2)
  = binary_normalize prec emax (Zpos m1 * 2 ^ (e1 - e2) + Zpos m2) e2 false.
Proof.
  intros H. cbn [SFadd]. rewrite Z.min_r by lia. cbn [cond_Zopp].
  destruct (shl_align_spec m1 e1 e2 H) as (mz & E1 & E2).
  rewrite E1, shl_align_noop by lia. cbn [fst]. now rewrite E2.
Qed.

Lemma SFadd_pos_lo m1 e1 m2 e2 :
  e1 <= e2 ->
  SFadd prec emax (S754_finite false m1 e1) (S754_finite false m2 e2)
  = binary_normalize prec emax (Zpos m1 + Zpos m2 * 2 ^ (e2 - e1)) e1 false.
Proof.
  intros H. cbn [SFadd]. rewrite Z.min_l by lia. cbn [cond_Zopp].
  destruct (shl_align_spec m2 e2 e1 H) as (mz & E1 & E2).
  rewrite E1, shl_align_noop by lia. cbn [fst]. now rewrite E2.
Qed.

(** Rounding a positive integer times a power of two. *)
Lemma binary_round_exact s p e :
  fexp prec emax (Zpos (digits2_pos p) + e) <= e -> e <= emax - prec ->
  exists my,
    binary_round prec emax s p e
    = S754_finite s my (fexp prec emax (Zpos (digits2_pos p) + e))
    /\ Zpos my = Zpos p * 2 ^ (e - fexp prec emax (Zpos (digits2_pos p) + e)).
Proof.
  intros Hf He. unfold binary_round.
  set (t := fexp prec emax (Zpos (digits2_pos p) + e)) in *.
  destruct (shl_align_spec p e t Hf) as (mz & -> & Hmz).
  exists mz. split; auto.
  apply binary_round_aux_exact; [|lia].
  rewrite Hmz, digits_scale by lia.
  replace (Zpos (digits2_pos p) + (e - t) + t) with (Zpos (digits2_pos p) + e) by lia.
  fold t. lia.
Qed.

Lemma binary_round_inexact s p e :
  e <= fexp prec emax (Zpos (digits2_pos p) + e) ->
  binary_round prec emax s p e = binary_round_aux prec emax s (Zpos p) e loc_Exact.
Proof.
  intros H. unfold binary_round. now rewrite shl_align_noop.
Qed.

(** The rounded quotient. *)
Lemma rne_near q n d :
  0 < n -> Z.even q = true -> 2 * Z.abs d <= 2 ^ n -> rne (q * 2 ^ n + d) n = q.
Proof.
  intros Hn Hq Hd. unfold rne.
  assert (H2 : 0 < 2 ^ n) by (apply Z.pow_pos_nonneg; lia).
  destruct (Z_le_gt_dec 0 d) as [Hpos|Hneg].
  - assert (Hdiv : (q * 2 ^ n + d) / 2 ^ n = q)
      by (symmetry; apply Z.div_unique with d; lia).
    assert (Hmod : (q * 2 ^ n + d) mod 2 ^ n = d)
      by (symmetry; apply Z.mod_unique with q; lia).
    rewrite Hdiv, Hmod, Hq.
    destruct (Z.compare_spec (2 * d) (2 ^ n)); auto. lia.
  - assert (Hdiv : (q * 2 ^ n + d) / 2 ^ n = q - 1)
      by (symmetry; apply Z.div_unique with (2 ^ n + d); lia).
    assert (Hmod : (q * 2 ^ n + d) mod 2 ^ n = 2 ^ n + d)
      by (symmetry; apply Z.mod_unique with (q - 1); lia).
    rewrite Hdiv, Hmod, Z.even_sub, Hq.
    change (Z.even 1) with false. cbn [Bool.eqb].
    destruct (Z.compare_spec (2 * (2 ^ n + d)) (2 ^ n)); lia.
Qed.

Lemma rne_error N n :
  0 < n -> 2 * Z.abs (rne N n * 2 ^ n - N) <= 2 ^ n.
Proof.
  intros Hn. unfold rne.
  assert (H2 : 0 < 2 ^ n) by (apply Z.pow_pos_nonneg; lia).
  pose proof (Z.div_mod N (2 ^ n) ltac:(lia)) as E.
  pose proof (Z.mod_pos_bound N (2 ^ n) H2) as B.
  destruct (Z.compare_spec (2 * (N mod 2 ^ n)) (2 ^ n));
    try destruct (Z.even (N / 2 ^ n)); nia.
Qed.

Lemma rne_range N n d :
  2 ^ (d - 1) <= N < 2 ^ d -> 0 < n -> n = d - 53 ->
  2 ^ 52 <= rne N n <= 2 ^ 53.
Proof.
  intros [Hl Hh] Hn Hd.
  assert (H2 : 0 < 2 ^ n) by (apply Z.pow_pos_nonneg; lia).
  assert (E1 : 2 ^ (d - 1) = 2 ^ 52 * 2 ^ n)
    by (rewrite <- Z.pow_add_r by lia; f_equal; lia).
  assert (E2 : 2 ^ d = 2 ^ 53 * 2 ^ n)
    by (rewrite <- Z.pow_add_r by lia; f_equal; lia).
  assert (Hq1 : 2 ^ 52 <= N / 2 ^ n) by (apply Z.div_le_lower_bound; lia).
  assert (Hq2 : N / 2 ^ n < 2 ^ 53) by (apply Z.div_lt_upper_bound; lia).
  unfold rne.
  destruct (Z.compare_spec (2 * (N mod 2 ^ n)) (2 ^ n));
    try destruct (Z.even (N / 2 ^ n)); lia.
Qed.

(** The value a positive integer times [2^e] rounds to: exact, or off by at
    most half a unit of the last place kept. *)
Lemma binary_round_value p e :
  -1074 <= e -> e <= emax - prec -> Zpos (digits2_pos p) + e <= 1023 ->
  exists my ey d,
    binary_round prec emax false p e = S754_finite false my ey
    /\ ((ey <= e /\ d = 0 /\ Zpos my = Zpos p * 2 ^ (e - ey))
        \/ (e < ey /\ Zpos my * 2 ^ (ey - e) = Zpos p + d
            /\ 2 * Z.abs d <= 2 ^ (Zpos (digits2_pos p) - 53)
            /\ 53 < Zpos (digits2_pos p))).
Proof.
  intros Hlo Hhi Hmag.
  set (dp := Zpos (digits2_pos p)) in *.
  destruct (Z_le_gt_dec (fexp prec emax (dp + e)) e) as [Hex|Hin].
  - destruct (binary_round_exact false p e Hex Hhi) as (my & Hr & Hv).
    exists my, (fexp prec emax (dp + e)), 0. split; [exact Hr|]. left. auto.
  - assert (Ht : fexp prec emax (dp + e) = dp + e - 53)
      by (rewrite fexp_eq in *; lia).
    assert (Hdp : 53 < dp) by lia.
    set (n := dp - 53).
    rewrite binary_round_inexact by (fold dp; lia).
    pose proof (digits_bounds p) as Hb. fold dp in Hb.
    pose proof (rne_range (Zpos p) n dp Hb ltac:(lia) eq_refl) as Hq.
    pose proof (rne_error (Zpos p) n ltac:(lia)) as Herr.
    assert (E : fexp prec emax (Zdigits2 (Zpos p) + e) - e = n)
      by (cbn [Zdigits2]; fold dp; lia).
    assert (H2n : 0 < 2 ^ n) by (apply Z.pow_pos_nonneg; lia).
    destruct (Z.eq_dec (rne (Zpos p) n) (2 ^ 53)) as [Hc|Hc].
    + exists 4503599627370496%positive, (e + n + 1), (rne (Zpos p) n * 2 ^ n - Zpos p).
      split.
      * apply (binary_round_aux_carry false p e n _ E); [lia|exact Hc| |].
        -- change (Zdigits2 (Zpos 9007199254740992)) with 54.
           rewrite fexp_eq. lia.
        -- change (emax - prec) with 971. lia.
      * right. repeat split; try lia.
        replace (e + n + 1 - e) with (n + 1) by lia.
        rewrite Z.pow_add_r by lia. rewrite Hc.
        change (2 ^ 53) with 9007199254740992. change (2 ^ 1) with 2. lia.
    + destruct (rne (Zpos p) n) as [|p'|p'] eqn:Er; try lia.
      exists p', (e + n), (Zpos p' * 2 ^ n - Zpos p).
      split.
      * apply (binary_round_aux_round false p e n p' E); [lia|exact Er| |].
        -- rewrite (digits_unique (Zpos p') 53) by lia.
           rewrite fexp_eq. lia.
        -- change (emax - prec) with 971. lia.
      * right. repeat split; try lia.
        replace (e + n - e) with n by lia. lia.
Qed.

Lemma round_to_100 pS x j d :
  Zpos pS = Zpos M100 * 2 ^ j + d -> 0 <= j -> x + j = -46 ->
  2 * Z.abs d <= 2 ^ j ->
  binary_round prec emax false pS x = P100.
Proof.
  intros Hs Hj Hx Hd.
  destruct (Z.eq_dec j 0) as [->|Hj0].
  - change (2 ^ 0) with 1 in *. assert (d = 0) by lia. subst d.
    assert (pS = M100) by lia. subst pS.
    assert (x = -46) by lia. subst x. reflexivity.
  - assert (H2 : 0 < 2 ^ j) by (apply Z.pow_pos_nonneg; lia).
    assert (Hdig : Zdigits2 (Zpos pS) = 53 + j).
    { apply digits_unique; [|lia].
      replace (53 + j - 1) with (52 + j) by lia.
      rewrite !Z.pow_add_r by lia.
      change (2 ^ 52) with 4503599627370496.
      change (2 ^ 53) with 9007199254740992.
      rewrite Hs. unfold M100. nia. }
    cbn [Zdigits2] in Hdig.
    assert (Hf : fexp prec emax (Zpos (digits2_pos pS) + x) = -46).
    { rewrite Hdig. replace (53 + j + x) with 7 by lia. reflexivity. }
    rewrite binary_round_inexact by lia.
    unfold P100. replace (-46) with (x + j) by lia.
    apply (binary_round_aux_round false pS x j M100); [| | | |].
    + cbn [Zdigits2]. lia.
    + lia.
    + rewrite Hs. apply rne_near; [lia|reflexivity|lia].
    + rewrite Hx. reflexivity.
    + change (emax - prec) with 971. lia.
Qed.

Lemma sub_add_100 m e :
  bounded prec emax m e = true ->
  e < -46 \/ (e = -46 /\ Zpos m <= Zpos M100) ->
  SFadd prec emax (SFsub prec emax P100 (S754_finite false m e))
        (S754_finite false m e)
  = P100.
Proof.
  intros Hb Hle.
  unfold bounded, canonical_mantissa in Hb.
  apply andb_true_iff in Hb as [Hcan Hmax].
  apply Z.eqb_eq in Hcan. apply Z.leb_le in Hmax.
  rewrite fexp_eq in Hcan.
  pose proof (digits_bounds m) as [Hml Hmh].
  set (dm := Zpos (digits2_pos m)) in *.
  assert (Hdm : dm <= 53) by lia.
  assert (He : -1074 <= e) by lia.
  assert (Hm53 : Zpos m < 2 ^ 53).
  { assert (2 ^ dm <= 2 ^ 53) by (apply Z.pow_le_mono_r; lia). lia. }
  change (2 ^ 53) with 9007199254740992 in Hm53.
  set (k := -46 - e).
  assert (Hk : 0 <= k) by lia.
  assert (H2k : 0 < 2 ^ k) by (apply Z.pow_pos_nonneg; lia).
  unfold P100 at 1. rewrite SFsub_pos by lia. fold k.
  assert (HD : 0 <= Zpos M100 * 2 ^ k - Zpos m).
  { destruct Hle as [Hlt|[Heq Hle]].
    - assert (2 ^ 1 <= 2 ^ k) by (apply Z.pow_le_mono_r; lia).
      change (2 ^ 1) with 2 in *. unfold M100. nia.
    - replace k with 0 by lia. change (2 ^ 0) with 1. lia. }
  destruct (Zpos M100 * 2 ^ k - Zpos m) as [|pD|pD] eqn:ED; try lia.
  - (* c = 100 *)
    cbn [binary_normalize SFadd].
    assert (k = 0).
    { destruct (Z.eq_dec k 0); auto.
      assert (2 ^ 1 <= 2 ^ k) by (apply Z.pow_le_mono_r; lia).
      change (2 ^ 1) with 2 in *. unfold M100 in *. nia. }
    assert (e = -46) by lia. subst e.
    replace k with 0 in ED by lia. change (2 ^ 0) with 1 in ED.
    assert (m = M100) by lia. subst m. reflexivity.
  - cbn [binary_normalize].
    assert (HpD : Zpos pD < Zpos M100 * 2 ^ k) by lia.
    assert (HdD : Zpos (digits2_pos pD) <= 53 + k).
    { pose proof (digits_bounds pD) as [Hl _].
      destruct (Z_le_gt_dec (Zpos (digits2_pos pD)) (53 + k)); auto.
      assert (2 ^ (53 + k) <= 2 ^ (Zpos (digits2_pos pD) - 1))
        by (apply Z.pow_le_mono_r; lia).
      rewrite Z.pow_add_r in * by lia.
      change (2 ^ 53) with 9007199254740992 in *. unfold M100 in *. nia. }
    destruct (binary_round_value pD e He ltac:(change (emax - prec) with 971; lia)
                                 ltac:(lia))
      as (my & ey & d & -> & [(Hey & -> & Hv)|(Hey & Hv & Hd & Hdig)]).
    + rewrite SFadd_pos_lo by lia.
      assert (Hpos : 0 < Zpos my + Zpos m * 2 ^ (e - ey)) by nia.
      destruct (Zpos my + Zpos m * 2 ^ (e - ey)) as [|pS|pS] eqn:ES; try lia.
      cbn [binary_normalize].
      apply (round_to_100 pS ey (-46 - ey) 0); try lia.
      rewrite <- ES, Hv.
      replace (-46 - ey) with (k + (e - ey)) by lia.
      rewrite Z.pow_add_r by lia. nia.
    + rewrite SFadd_pos_hi by lia.
      destruct (Zpos my * 2 ^ (ey - e) + Zpos m) as [|pS|pS] eqn:ES; try lia.
      cbn [binary_normalize].
      apply (round_to_100 pS e k d); try lia.
      assert (2 ^ (Zpos (digits2_pos pD) - 53) <= 2 ^ k)
        by (apply Z.pow_le_mono_r; lia).
      lia.
Qed.

Lemma inv_plus_100 c :
  (0 <=? c)%float = true -> (c <=? 100)%float = true ->
  ((100 - c) + c =? 100)%float = true.
Proof.
  rewrite !leb_spec, eqb_spec, add_spec, sub_spec.
  change (Prim2SF 100) with P100. change (Prim2SF 0) with (S754_zero false).
  pose proof (Prim2SF_valid c) as Hv.
  destruct (Prim2SF c) as [s|s| |s m e]; intros H0 H100.
  - reflexivity.
  - destruct s; discriminate.
  - discriminate.
  - destruct s; [discriminate|].
    apply SFleb_rank in H100 as (_ & _ & Hle).
    unfold P100, rank, lex_le in Hle.
    unfold SF64add, SF64sub. rewrite sub_add_100; [reflexivity|exact Hv|].
    lia.
Qed.

End RoundingFacts.

(** ** The scalar normalizers *)

Module ScalarFacts.
Import Notions Py Scorer FloatFacts RoundingFacts.

(** C8: when [float(v)] succeeds, [to100(v)] and [inv100(v)] are both
    numbers and [inv100(v) + to100(v) == 100] holds exactly in binary64;
    when it fails, both are [None]. *)
Theorem inv100_plus_to100 (float_of_str : string -> option float) (v : value) :
  match float_ float_of_str v with
  | Ok _ =>
      exists a b,
        to100 float_of_str v = Some a
        /\ inv100 float_of_str v = Some b
        /\ (b + a =? 100)%float = true
  | Raise _ =>
      to100 float_of_str v = None /\ inv100 float_of_str v = None
  end.
Proof.
  unfold inv100, to100.
  destruct (float_ float_of_str v) as [f|e]; [|split; reflexivity].
  do 2 eexists. split; [reflexivity|]. split; [reflexivity|].
  apply inv_plus_100; apply clamp_range.
Qed.

(** [to100] and [inv100] on 0.25, on a NaN and on a value that is not a
    number. *)
Example to100_quarter :
  to100 Sample.float_of_str (VFloat 0.25) = Some 25%float
  /\ inv100 Sample.float_of_str (VFloat 0.25) = Some 75%float
  /\ to100 Sample.float_of_str (VFloat nan) = Some 100%float
  /\ to100 Sample.float_of_str VNone = None.
Proof. repeat split; reflexivity. Qed.

End ScalarFacts.

(** ** The order of floats and [clamp] *)

Module OrderFacts.
Import Notions Conditions Py Scorer FloatFacts.

Lemma SFeqb_rank a b :
  SFeqb a b = true <-> not_nan a /\ not_nan b /\ rank a = rank b.
Proof.
  unfold SFeqb, SFcompare.
  destruct a as [[|]|[|]| |[|] m1 e1], b as [[|]|[|]| |[|] m2 e2];
    cbn [rank not_nan]; split_compare; cbn [CompOpp];
    (split;
     [ intros Q; try discriminate Q; (split; [exact I|split; [exact I|]]);
       try reflexivity; try (f_equal; [f_equal|]; lia)
     | intros (N1 & N2 & Q); try reflexivity; try contradiction;
       try discriminate Q; try (injection Q; intros; lia) ]).
Qed.

Lemma eqb_rank x y :
  (x =? y)%float = true
  <-> is_nan x = false /\ is_nan y = false /\ frank x = frank y.
Proof. rewrite eqb_spec, SFeqb_rank, !is_nan_spec. reflexivity. Qed.

Lemma leb_not_nan_l x y : (x <=? y)%float = true -> is_nan x = false.
Proof. rewrite leb_rank. tauto. Qed.

Lemma leb_not_nan_r x y : (x <=? y)%float = true -> is_nan y = false.
Proof. rewrite leb_rank. tauto. Qed.

Lemma leb_trans x y z :
  (x <=? y)%float = true -> (y <=? z)%float = true -> (x <=? z)%float = true.
Proof.
  rewrite !leb_rank. intros (Hx & Hy & H1) (_ & Hz & H2).
  repeat split; auto. lex_arith.
Qed.

Lemma leb_not_ltb_eqb x y :
  (x <=? y)%float = true -> (x <? y)%float = false -> (x =? y)%float = true.
Proof.
  intros Hle Hlt. pose proof Hle as Hle'.
  apply leb_rank in Hle as (Hx & Hy & Hle).
  assert (H : ~ lex_lt (frank x) (frank y)).
  { intros H. rewrite (proj2 (ltb_rank x y)) in Hlt by auto. discriminate. }
  apply eqb_rank. repeat split; auto.
  unfold lex_lt, lex_le in *.
  destruct (frank x) as [[a b] c], (frank y) as [[a' b'] c'].
  f_equal; [f_equal|]; lia.
Qed.

Lemma eqb_refl x : is_nan x = false -> (x =? x)%float = true.
Proof. intros H. apply eqb_rank. auto. Qed.

Lemma eqb_sym x y : (x =? y)%float = true -> (y =? x)%float = true.
Proof. rewrite !eqb_rank. intuition congruence. Qed.

Lemma ltb_not_leb x y : (x <? y)%float = true -> (y <=? x)%float = false.
Proof.
  intros H. apply ltb_rank in H as (Hx & Hy & H).
  destruct (y <=? x)%float eqn:E; auto.
  apply leb_rank in E as (_ & _ & E). exfalso. lex_arith.
Qed.

Lemma nan_ltb_l x y : is_nan x = true -> (x <? y)%float = false.
Proof.
  intros H. destruct (x <? y)%float eqn:E; auto.
  apply ltb_rank in E as (E & _). congruence.
Qed.

(** [clamp] with any bounds. *)
Lemma clamp_bounds x lo hi :
  (lo <=? hi)%float = true ->
  (lo <=? clamp x lo hi)%float = true /\ (clamp x lo hi <=? hi)%float = true.
Proof.
  intros H.
  pose proof (leb_not_nan_l _ _ H) as Hlo.
  pose proof (leb_not_nan_r _ _ H) as Hhi.
  unfold clamp, py_max, py_min.
  destruct (x <? hi)%float eqn:H1.
  - destruct (lo <? x)%float eqn:H2.
    + split; now apply ltb_leb.
    + split; [now apply leb_refl|exact H].
  - destruct (lo <? hi)%float eqn:H2.
    + split; [exact H|now apply leb_refl].
    + split; [now apply leb_refl|exact H].
Qed.

Lemma clamp_fixed x lo hi :
  (lo <=? x)%float = true -> (x <=? hi)%float = true ->
  (clamp x lo hi =? x)%float = true.
Proof.
  intros Hl Hh.
  pose proof (leb_not_nan_r _ _ Hl) as Hx.
  unfold clamp, py_max, py_min.
  destruct (x <? hi)%float eqn:H1.
  - destruct (lo <? x)%float eqn:H2.
    + now apply eqb_refl.
    + now apply leb_not_ltb_eqb.
  - pose proof (leb_not_ltb_eqb _ _ Hh H1) as E.
    destruct (lo <? hi)%float eqn:H2.
    + now apply eqb_sym.
    + apply eqb_rank in E as (_ & Hhi & E).
      apply leb_rank in Hl as (Hlo & _ & Hl).
      assert (H : ~ lex_lt (frank lo) (frank hi)).
      { intros H. rewrite (proj2 (ltb_rank lo hi)) in H2 by auto. discriminate. }
      apply eqb_rank. repeat split; auto.
      rewrite <- E in H. unfold lex_lt, lex_le in *.
      destruct (frank x) as [[a b] c], (frank lo) as [[a' b'] c'].
      f_equal; [f_equal|]; lia.
Qed.

Lemma clamp_nan x lo hi :
  is_nan x = true -> (lo <=? hi)%float = true ->
  (clamp x lo hi =? hi)%float = true.
Proof.
  intros Hx H. unfold clamp, py_max, py_min.
  rewrite (nan_ltb_l _ _ Hx).
  destruct (lo <? hi)%float eqn:H2.
  - apply eqb_refl. now apply leb_not_nan_r in H.
  - now apply leb_not_ltb_eqb.
Qed.

End OrderFacts.

(** ** Values between 0 and 100 *)

Module RangeFacts.
Import Notions Conditions Py Scorer FloatFacts RoundingFacts OrderFacts.
Local Open Scope Z_scope.

(** A float at most 100, by its bits. *)
Lemma le_100_bits m e :
  SFleb (S754_finite false m e) P100 = true <->
  e < -46 \/ (e = -46 /\ Zpos m <= Zpos M100).
Proof.
  rewrite SFleb_rank. unfold P100, rank, lex_le, not_nan. lia.
Qed.

Lemma canonical_digits m e :
  bounded prec emax m e = true ->
  -1074 <= e <= 971 /\ Zpos (digits2_pos m) <= 53
  /\ (-1074 < e -> Zpos (digits2_pos m) = 53).
Proof.
  unfold bounded, canonical_mantissa. intros Hb.
  apply andb_true_iff in Hb as [Hcan Hmax].
  apply Z.eqb_eq in Hcan. apply Z.leb_le in Hmax.
  rewrite fexp_eq in Hcan. change (emax - prec) with 971 in Hmax. lia.
Qed.

(** [100 - c] for [c] in [[0, 100]] is in [[0, 100]]. *)
Lemma sub_100_range m e :
  bounded prec emax m e = true ->
  e < -46 \/ (e = -46 /\ Zpos m <= Zpos M100) ->
  forall r, r = SFsub prec emax P100 (S754_finite false m e) ->
  valid_binary r = true ->
  SFleb (S754_zero false) r = true /\ SFleb r P100 = true.
Proof.
  intros Hb Hle r Hr.
  destruct (canonical_digits m e Hb) as (He & Hdm & _).
  pose proof (digits_bounds m) as [Hml Hmh].
  set (dm := Zpos (digits2_pos m)) in *.
  assert (Hm53 : Zpos m < 2 ^ 53).
  { assert (2 ^ dm <= 2 ^ 53) by (apply Z.pow_le_mono_r; lia). lia. }
  change (2 ^ 53) with 9007199254740992 in Hm53.
  set (k := -46 - e).
  assert (Hk : 0 <= k) by lia.
  assert (H2k : 0 < 2 ^ k) by (apply Z.pow_pos_nonneg; lia).
  unfold P100 in Hr. rewrite SFsub_pos in Hr by lia. fold k in Hr.
  assert (HD : 0 <= Zpos M100 * 2 ^ k - Zpos m).
  { destruct Hle as [Hlt|[Heq Hle]].
    - assert (2 ^ 1 <= 2 ^ k) by (apply Z.pow_le_mono_r; lia).
      change (2 ^ 1) with 2 in *. unfold M100. nia.
    - replace k with 0 by lia. change (2 ^ 0) with 1. lia. }
  destruct (Zpos M100 * 2 ^ k - Zpos m) as [|pD|pD] eqn:ED; try lia.
  - subst r. intros _. split; reflexivity.
  - cbn [binary_normalize] in Hr.
    assert (HpD : Zpos pD < Zpos M100 * 2 ^ k) by lia.
    assert (HdD : Zpos (digits2_pos pD) <= 53 + k).
    { pose proof (digits_bounds pD) as [Hl _].
      destruct (Z_le_gt_dec (Zpos (digits2_pos pD)) (53 + k)); auto.
      assert (2 ^ (53 + k) <= 2 ^ (Zpos (digits2_pos pD) - 1))
        by (apply Z.pow_le_mono_r; lia).
      rewrite Z.pow_add_r in * by lia.
      change (2 ^ 53) with 9007199254740992 in *. unfold M100 in *. nia. }
    destruct (binary_round_value pD e ltac:(lia) ltac:(change (emax - prec) with 971; lia)
                                 ltac:(lia))
      as (my & ey & d & Hround & Hcases).
    rewrite Hround in Hr. subst r.
    cbn [valid_binary]. intros Hv. split; [reflexivity|].
    apply le_100_bits.
    destruct (canonical_digits my ey Hv) as (Hey & Hdy & Hcan).
    destruct Hcases as [(Hy & -> & Hval)|(Hy & Hval & Hd & Hdig)].
    + destruct (Z.eq_dec ey (-46)) as [E|E]; [|lia].
      right. split; [exact E|].
      assert (e = -46) by lia. assert (Hk0 : k = 0) by lia.
      rewrite Hk0 in ED. change (2 ^ 0) with 1 in ED.
      replace (e - ey) with 0 in Hval by lia. change (2 ^ 0) with 1 in Hval. lia.
    + destruct (Z_lt_ge_dec ey (-46)) as [Hlt|Hge]; [now left|].
      right.
      assert (Hk1 : 1 <= k) by lia.
      assert (Hpow : 2 ^ (Zpos (digits2_pos pD) - 53) <= 2 ^ k)
        by (apply Z.pow_le_mono_r; lia).
      set (t := ey - e - k).
      assert (Ht : 0 <= t) by (unfold t; lia).
      assert (Esplit : 2 ^ (ey - e) = 2 ^ t * 2 ^ k).
      { rewrite <- Z.pow_add_r by lia. f_equal. unfold t. lia. }
      assert (H2t : 0 < 2 ^ t) by (apply Z.pow_pos_nonneg; lia).
      assert (Hbound : 2 * (Zpos my * 2 ^ t) * 2 ^ k < (2 * Zpos M100 + 1) * 2 ^ k).
      { rewrite Esplit in Hval. nia. }
      assert (Hmy : Zpos my * 2 ^ t <= Zpos M100).
      { apply Z.mul_lt_mono_pos_r in Hbound; lia. }
      pose proof (digits_bounds my) as [Hyl _].
      rewrite (Hcan ltac:(lia)) in Hyl. change (2 ^ (53 - 1)) with 4503599627370496 in Hyl.
      assert (t = 0).
      { destruct (Z.eq_dec t 0); auto.
        assert (2 ^ 1 <= 2 ^ t) by (apply Z.pow_le_mono_r; lia).
        change (2 ^ 1) with 2 in *. unfold M100 in *. nia. }
      subst t. split; [lia|].
      replace (ey - e - k) with 0 in Hmy by lia. change (2 ^ 0) with 1 in Hmy. lia.
Qed.

Lemma inv_range c : in_range c -> in_range (100 - c).
Proof.
  unfold in_range. rewrite !leb_spec, sub_spec.
  change (Prim2SF 100) with P100. change (Prim2SF 0) with (S754_zero false).
  pose proof (Prim2SF_valid c) as Hv.
  pose proof (Prim2SF_valid (100 - c)) as Hr. rewrite sub_spec in Hr.
  change (Prim2SF 100) with P100 in Hr.
  unfold SF64sub in *.
  destruct (Prim2SF c) as [s|s| |s m e]; intros [H0 H100].
  - destruct s; split; reflexivity.
  - destruct s; discriminate.
  - discriminate.
  - destruct s; [discriminate|].
    apply le_100_bits in H100.
    exact (sub_100_range m e Hv H100 _ eq_refl Hr).
Qed.

(** *** [round(x, 2)] keeps a score a score *)

Lemma round_half_even_le num den q :
  0 < den -> 0 <= num -> num <= q * den -> 0 <= round_half_even num den <= q.
Proof.
  intros Hden Hnum Hle. unfold round_half_even.
  pose proof (Z.div_mod num den ltac:(lia)) as E.
  pose proof (Z.mod_pos_bound num den Hden) as B.
  assert (Hq0 : 0 <= num / den) by (apply Z.div_pos; lia).
  assert (Hq : num / den <= q) by (apply Z.div_le_upper_bound; lia).
  destruct (Z.eq_dec (num / den) q) as [Eq|Ne].
  - assert (num mod den = 0) by nia.
    replace (2 * (num mod den) ?= den) with Lt; [lia|].
    symmetry. apply Z.compare_lt_iff. lia.
  - destruct (2 * (num mod den) ?= den); try destruct (Z.even (num / den)); lia.
Qed.

Lemma hundredths_le m e :
  bounded prec emax m e = true ->
  e < -46 \/ (e = -46 /\ Zpos m <= Zpos M100) ->
  0 <= hundredths m e <= 10000.
Proof.
  intros Hb Hle.
  destruct (canonical_digits m e Hb) as (He & Hdm & _).
  pose proof (digits_bounds m) as [_ Hmh].
  assert (Hm53 : Zpos m < 2 ^ 53).
  { assert (2 ^ Zpos (digits2_pos m) <= 2 ^ 53) by (apply Z.pow_le_mono_r; lia). lia. }
  change (2 ^ 53) with 9007199254740992 in Hm53.
  unfold hundredths. destruct e as [|p|p]; try lia.
  rewrite Z.pow_pos_fold.
  assert (H2p : 0 < 2 ^ Zpos p) by (apply Z.pow_pos_nonneg; lia).
  apply round_half_even_le; try lia.
  destruct Hle as [Hlt|[Heq Hle]].
  - assert (2 ^ 47 <= 2 ^ Zpos p) by (apply Z.pow_le_mono_r; lia).
    change (2 ^ 47) with 140737488355328 in *. lia.
  - injection Heq as ->. unfold M100 in Hle.
    change (2 ^ 46) with 70368744177664. lia.
Qed.

Lemma cents_ok_spec n k j :
  cents_ok n k = true -> (k <= j)%positive -> Zpos j < Zpos k + Z.of_nat n ->
  cent_ok j = true.
Proof.
  revert k. induction n as [|n IH]; intros k H Hk Hj; [lia|].
  cbn [cents_ok] in H. apply andb_true_iff in H as [H1 H2].
  destruct (Pos.eq_dec k j) as [->|Hne]; auto.
  apply (IH (Pos.succ k)); auto; lia.
Qed.

Lemma cents_checked : cents_ok (Pos.to_nat 10000) 1 = true.
Proof. vm_compute. reflexivity. Qed.

Lemma round2_range x : in_range x -> in_range (round2 x).
Proof.
  unfold in_range. intros [H0 H100].
  pose proof (Prim2SF_valid x) as Hv.
  rewrite leb_spec in H0, H100.
  change (Prim2SF 100) with P100 in H100.
  change (Prim2SF 0) with (S754_zero false) in H0.
  unfold round2.
  destruct (Prim2SF x) as [s|s| |s m e] eqn:Ex.
  - rewrite !leb_spec, Ex. split; [reflexivity|now destruct s].
  - destruct s; discriminate.
  - discriminate.
  - destruct s; [discriminate|].
    apply le_100_bits in H100.
    pose proof (hundredths_le m e Hv H100) as Hh.
    destruct (hundredths m e) as [|k|k]; try (split; reflexivity).
    assert (Hk : cent_ok k = true)
      by (apply (cents_ok_spec _ 1 k cents_checked);
          [lia|rewrite positive_nat_Z; lia]).
    unfold cent_ok in Hk. apply andb_true_iff in Hk as [Hk H3].
    apply andb_true_iff in Hk as [H1 H2].
    rewrite !leb_spec. fold (cents k). rewrite (Prim2SF_SF2Prim _ H1).
    split; assumption.
Qed.

End RangeFacts.

(** ** The range of the scalar normalizers *)

Module ScalarRange.
Import Notions Conditions Py Scorer FloatFacts OrderFacts RangeFacts.

Section Facts.
Variable float_of_str : string -> option float.
Local Abbreviation to100 := (to100 float_of_str).
Local Abbreviation inv100 := (inv100 float_of_str).
Local Abbreviation minmax := (minmax float_of_str).
Local Abbreviation talk_balance_score := (talk_balance_score float_of_str).

Lemma to100_range v a : to100 v = Some a -> in_range a.
Proof.
  unfold Scorer.to100. destruct (float_ _ v); [|discriminate].
  intros [= <-]. apply clamp_range.
Qed.

Lemma inv100_range v a : inv100 v = Some a -> in_range a.
Proof.
  unfold Scorer.inv100. destruct (to100 v) as [c|] eqn:E; [|discriminate].
  intros [= <-]. apply inv_range. now apply to100_range in E.
Qed.

Lemma talk_range v a : talk_balance_score v = Some a -> in_range a.
Proof.
  unfold Scorer.talk_balance_score. destruct (float_ _ v); [|discriminate].
  intros [= <-]. apply clamp_range.
Qed.

Lemma minmax_range v lo hi a : minmax v lo hi = Ok (Some a) -> in_range a.
Proof.
  unfold Scorer.minmax. destruct (float_ _ v); [|discriminate].
  destruct (lo =? hi)%float.
  - intros [= <-]. split; reflexivity.
  - unfold py_fdiv. destruct (_ =? 0)%float; [discriminate|].
    cbn [rbind]. intros [= <-]. apply clamp_range.
Qed.

End Facts.
End ScalarRange.

(** ** The invariant of the normalized set *)

Module InvariantFacts.
Import Notions Conditions Py Scorer FloatFacts OrderFacts RangeFacts
       StoreFacts DictFacts ScalarRange.
Local Open Scope py_scope.

Section Rules.
Context {A B : Type}.
Variable I : store -> Prop.

Lemma keeps_ret (a : A) (Q : A -> Prop) : Q a -> keeps I (ret a) Q.
Proof. intros Ha h Hh. simpl. auto. Qed.

Lemma keeps_bind (m : M A) (k : A -> M B) (Q : A -> Prop) (R : B -> Prop) :
  keeps I m Q -> (forall a, Q a -> keeps I (k a) R) -> keeps I (bind m k) R.
Proof.
  intros Hm Hk h Hh. unfold bind. specialize (Hm h Hh).
  destruct (m h) as [a h1|e h1|]; auto.
  destruct Hm as (H1 & Ha). exact (Hk a Ha h1 H1).
Qed.

Lemma keeps_weaken (m : M A) (Q R : A -> Prop) :
  keeps I m Q -> (forall a, Q a -> R a) -> keeps I m R.
Proof.
  intros Hm HQR h Hh. specialize (Hm h Hh).
  destruct (m h) as [a h1|e h1|]; auto. destruct Hm. auto.
Qed.

Lemma keeps_raise (e : exn) (Q : A -> Prop) : keeps I (raise e) Q.
Proof. intros h Hh. exact Logic.I. Qed.

Lemma keeps_run (m : M A) (Q : A -> Prop) h a h' :
  keeps I m Q -> I h -> m h = Done a h' -> I h' /\ Q a.
Proof. intros K Hh E. specialize (K h Hh). now rewrite E in K. Qed.

(** A step that raises or returns, and what it returned. *)
Lemma keeps_lift (r : res A) : keeps I (lift r) (fun a => r = Ok a).
Proof. destruct r; [now apply keeps_ret | apply keeps_raise]. Qed.
End Rules.

Section Reads.
Variable I : store -> Prop.

Lemma keeps_deref l : keeps I (deref l) any.
Proof.
  intros h Hh. unfold deref. destruct (nth_error h l); auto. now split.
Qed.

Lemma keeps_d_get l k : keeps I (d_get l k) any.
Proof.
  unfold d_get. eapply keeps_bind; [apply keeps_deref|].
  intros. now apply keeps_ret.
Qed.

Lemma keeps_d_get_default l k v : keeps I (d_get_default l k v) any.
Proof.
  unfold d_get_default. eapply keeps_bind; [apply keeps_deref|].
  intros. now apply keeps_ret.
Qed.

Lemma keeps_d_has l k : keeps I (d_has l k) any.
Proof.
  unfold d_has. eapply keeps_bind; [apply keeps_deref|].
  intros. now apply keeps_ret.
Qed.

Lemma keeps_d_index l k : keeps I (d_index l k) any.
Proof.
  unfold d_index. eapply keeps_bind; [apply keeps_deref|].
  intros. eapply keeps_weaken; [apply keeps_lift|]. now intros.
Qed.

Lemma keeps_truthy v : keeps I (truthy v) any.
Proof.
  destruct v; simpl; try (now apply keeps_ret).
  eapply keeps_bind; [apply keeps_deref|]. intros. now apply keeps_ret.
Qed.

Lemma keeps_py_or a (b : M value) :
  keeps I b any -> keeps I (py_or a b) any.
Proof.
  intros Hb. unfold py_or. eapply keeps_bind; [apply keeps_truthy|].
  intros [|] _; [now apply keeps_ret | exact Hb].
Qed.

Lemma keeps_when (b : bool) (m : M unit) :
  keeps I m any -> keeps I (when b m) any.
Proof. destruct b; simpl; auto. intros _. now apply keeps_ret. Qed.
End Reads.

(** Writes: the object at [out] is touched only by the assignments to
    [out]. *)
Section Writes.
Variable out : loc.

Lemma metrics_ok_set d k v :
  metrics_ok d -> metric_ok k v -> metrics_ok (dict_set d k v).
Proof.
  unfold metrics_ok. intros Hd Hv.
  induction d as [|[k' v'] r IH]; simpl.
  - constructor; auto.
  - inversion Hd as [|? ? H1 H2]; subst. simpl in H1.
    destruct (String.eqb_spec k' k) as [->|Hne]; constructor; auto.
Qed.

Lemma keeps_alloc d :
  keeps (holds_metrics out) (alloc d) (fun l => l <> out).
Proof.
  intros h (o & Ho & Hok). unfold alloc. split.
  - exists o. split; auto.
    rewrite nth_error_app1; auto. apply nth_error_Some. congruence.
  - assert (out < List.length h) by (apply nth_error_Some; congruence). lia.
Qed.

Lemma keeps_empty_dict :
  keeps (holds_metrics out) (l <- alloc [] ;; ret (VDict l)) any.
Proof.
  eapply keeps_bind; [apply keeps_alloc|]. intros. now apply keeps_ret.
Qed.

Lemma keeps_dict_ctor v :
  keeps (holds_metrics out) (dict_ctor v) (fun l => l <> out).
Proof.
  destruct v as [| | | |s|l]; simpl; try apply keeps_raise.
  - destruct s as [|c s]; [apply keeps_alloc | apply keeps_raise].
  - eapply keeps_bind; [apply keeps_deref|]. intros. apply keeps_alloc.
Qed.

Lemma keeps_d_set_other l k v :
  l <> out -> keeps (holds_metrics out) (d_set l k v) any.
Proof.
  intros Hl h (o & Ho & Hok). unfold d_set.
  destruct (nth_error h l) as [d|]; auto. split; [|exact Logic.I].
  exists o. split; auto.
  rewrite nth_error_store_put_other; auto.
Qed.

Lemma keeps_d_set_out k v :
  metric_ok k v -> keeps (holds_metrics out) (d_set out k v) any.
Proof.
  intros Hv h (o & Ho & Hok). unfold d_set. rewrite Ho.
  split; [|exact Logic.I].
  exists (dict_set o k v). split.
  - apply nth_error_store_put_same. apply nth_error_Some. congruence.
  - now apply metrics_ok_set.
Qed.
End Writes.

Section Normalizer.
Variable float_of_str : string -> option float.
Local Abbreviation to100 := (to100 float_of_str).
Local Abbreviation inv100 := (inv100 float_of_str).
Local Abbreviation minmax := (minmax float_of_str).
Local Abbreviation talk_balance_score := (talk_balance_score float_of_str).

Lemma ok_to100 k v : In k normalized_keys -> metric_ok k (of_opt (to100 v)).
Proof.
  intros Hk. split; auto.
  destruct (to100 v) eqn:E; simpl; auto. right. eapply to100_range; eauto.
Qed.

Lemma ok_inv100 k v : In k normalized_keys -> metric_ok k (of_opt (inv100 v)).
Proof.
  intros Hk. split; auto.
  destruct (inv100 v) eqn:E; simpl; auto. right. eapply inv100_range; eauto.
Qed.

Lemma ok_talk k v :
  In k normalized_keys -> metric_ok k (of_opt (talk_balance_score v)).
Proof.
  intros Hk. split; auto.
  destruct (talk_balance_score v) eqn:E; simpl; auto.
  right. eapply talk_range; eauto.
Qed.

Lemma ok_minmax k v lo hi r :
  minmax v lo hi = Ok r -> In k normalized_keys -> metric_ok k (of_opt r).
Proof.
  intros E Hk. split; auto.
  destruct r; simpl; auto. right. eapply minmax_range; eauto.
Qed.

Lemma ok_unclamped k f :
  In k normalized_keys -> unclamped k = true -> metric_ok k (VFloat f).
Proof. intros Hk Hu. split; auto. Qed.

Ltac metric :=
  first [ apply ok_to100 | apply ok_inv100 | apply ok_talk
        | eapply ok_minmax; [eassumption|]
        | apply ok_unclamped; [|reflexivity] ];
  simpl; tauto.

(** One step through a block of the normalizer, by its shape. *)
Ltac keeps_step :=
  lazymatch goal with
  | |- keeps _ (ret _) any => apply keeps_ret; exact Logic.I
  | |- keeps _ (bind (alloc _) _) _ =>
      eapply keeps_bind; [apply keeps_alloc | intros ? ?]
  | |- keeps _ (bind (lift _) _) _ =>
      eapply keeps_bind;
      [apply keeps_lift | let E := fresh "E" in intros ? E; cbv beta in E]
  | |- keeps _ (bind _ _) _ =>
      eapply (keeps_bind _ _ _ any); [ | intros ? _ ]
  | |- keeps _ (when _ _) any => apply keeps_when
  | |- keeps _ (py_or _ _) any => apply keeps_py_or
  | |- keeps _ (d_set _ _ _) any =>
      first [ apply keeps_d_set_other; assumption
            | apply keeps_d_set_out; metric ]
  | |- keeps _ (lift _) any =>
      eapply keeps_weaken; [apply keeps_lift | intros; exact Logic.I]
  | |- keeps _ (match ?x with _ => _ end) _ => destruct x
  | |- keeps _ (if ?x then _ else _) _ => destruct x
  | |- keeps _ _ _ =>
      solve [auto using keeps_raise, keeps_deref, keeps_d_get,
               keeps_d_get_default, keeps_d_has, keeps_d_index, keeps_truthy,
               keeps_empty_dict]
  end.

Ltac keeps_auto := repeat keeps_step.

Variable out : loc.
Local Abbreviation inv := (holds_metrics out).

Lemma keeps_section_copy spiky name :
  keeps inv (section_copy spiky name) (fun l => l <> out).
Proof.
  unfold section_copy.
  eapply (keeps_bind _ _ _ any); [apply keeps_d_get | intros v _].
  eapply (keeps_bind _ _ _ any); [|intros x _; apply keeps_dict_ctor].
  keeps_auto.
Qed.

Lemma keeps_norm_positivity L :
  L <> out -> keeps inv (norm_positivity float_of_str L out) any.
Proof. intros HL. unfold norm_positivity. keeps_auto. Qed.

Lemma keeps_norm_objectivity L :
  L <> out -> keeps inv (norm_objectivity float_of_str L out) any.
Proof. intros HL. unfold norm_objectivity. keeps_auto. Qed.

Lemma keeps_norm_style L :
  L <> out -> keeps inv (norm_style float_of_str L out) any.
Proof. intros HL. unfold norm_style. keeps_auto. Qed.

Lemma keeps_norm_keywords L :
  L <> out -> keeps inv (norm_keywords float_of_str L out) any.
Proof. intros HL. unfold norm_keywords. keeps_auto. Qed.

Lemma keeps_norm_question L :
  L <> out -> keeps inv (norm_question float_of_str L out) any.
Proof. intros HL. unfold norm_question. keeps_auto. Qed.

Lemma keeps_norm_offensiveness L :
  L <> out -> keeps inv (norm_offensiveness float_of_str L out) any.
Proof. intros HL. unfold norm_offensiveness. keeps_auto. Qed.

Lemma keeps_norm_energy V :
  V <> out -> keeps inv (norm_energy float_of_str V out) any.
Proof. intros HV. unfold norm_energy. keeps_auto. Qed.

Lemma keeps_get_or_zero d k : keeps inv (get_or_zero d k) any.
Proof. unfold get_or_zero. keeps_auto. Qed.

Lemma keeps_norm_vocal_emotions V :
  V <> out -> keeps inv (norm_vocal_emotions float_of_str V out) any.
Proof.
  pose proof keeps_get_or_zero.
  intros HV. unfold norm_vocal_emotions. keeps_auto.
Qed.

Lemma keeps_norm_attention F :
  F <> out -> keeps inv (norm_attention float_of_str F out) any.
Proof. intros HF. unfold norm_attention. keeps_auto. Qed.

Lemma keeps_norm_facial_emotions F :
  F <> out -> keeps inv (norm_facial_emotions float_of_str F out) any.
Proof.
  pose proof keeps_get_or_zero.
  intros HF. unfold norm_facial_emotions. keeps_auto.
Qed.

Lemma keeps_norm_interaction I :
  I <> out -> keeps inv (norm_interaction float_of_str I out) any.
Proof. intros HI. unfold norm_interaction. keeps_auto. Qed.

Lemma keeps_norm_highlevel H :
  H <> out -> keeps inv (norm_highlevel float_of_str H out) any.
Proof. intros HH. unfold norm_highlevel. keeps_auto. Qed.

End Normalizer.

(** The dict [normalize_metrics] returns is a normalized set. *)
Lemma normalize_metrics_ok float_of_str spiky h out h' :
  normalize_metrics float_of_str spiky h = Done out h' ->
  holds_metrics out h'.
Proof.
  unfold normalize_metrics.
  match goal with |- bind (alloc []) ?k h = _ -> _ => set (rest := k) end.
  assert (Hrest : forall o, keeps (holds_metrics o) (rest o) (fun r => r = o)).
  { intros o. subst rest. cbv beta.
    do 5 (eapply keeps_bind; [apply keeps_section_copy | intros ? ?]).
    repeat lazymatch goal with
           | |- keeps _ (bind _ _) _ =>
               eapply (keeps_bind _ _ _ any);
               [ solve [auto using keeps_norm_positivity,
                          keeps_norm_objectivity, keeps_norm_style,
                          keeps_norm_keywords, keeps_norm_question,
                          keeps_norm_offensiveness, keeps_norm_energy,
                          keeps_norm_vocal_emotions, keeps_norm_attention,
                          keeps_norm_facial_emotions, keeps_norm_interaction,
                          keeps_norm_highlevel]
               | intros ? _ ]
           end.
    now apply keeps_ret. }
  assert (H0 : holds_metrics (List.length h) (h ++ [[]])).
  { exists []. split; [|constructor].
    rewrite nth_error_app2, Nat.sub_diag by lia. reflexivity. }
  unfold bind, alloc. intros E.
  destruct (keeps_run _ _ _ _ _ _ (Hrest _) H0 E) as [Hinv ->]. exact Hinv.
Qed.

Lemma normalized_ok float_of_str h spiky d :
  normalized float_of_str h spiky = Returns d -> metrics_ok d.
Proof.
  unfold normalized. unfold bind.
  destruct (normalize_metrics float_of_str spiky h) as [out h'| |] eqn:E;
    try discriminate.
  apply normalize_metrics_ok in E as (o & Ho & Hok).
  unfold deref. rewrite Ho. cbn [observe]. now intros [= <-].
Qed.

End InvariantFacts.

(** ** Signs, norms and the product with one *)

Module SignFacts.
Import Notions Conditions Py Scorer FloatFacts RoundingFacts OrderFacts
       RangeFacts.

Lemma binary_round_aux_signed s m e l :
  signed s (binary_round_aux prec emax s m e l).
Proof.
  unfold binary_round_aux.
  destruct (shr_fexp prec emax m e l) as [mrs1 e1].
  destruct (shr_fexp prec emax _ e1 loc_Exact) as [mrs2 e2].
  destruct (shr_m mrs2); cbn [signed]; auto.
  now destruct (e2 <=? emax - prec)%Z.
Qed.

Lemma binary_round_signed s m e : signed s (binary_round prec emax s m e).
Proof.
  unfold binary_round. destruct (shl_align m e _) as [mz ez].
  apply binary_round_aux_signed.
Qed.

Lemma signed_unsigned f : signed false f -> unsigned f.
Proof. destruct f; auto. Qed.

Lemma SFmul_self_unsigned x : unsigned (SFmul prec emax x x).
Proof.
  destruct x as [s|s| |s m e]; cbn [SFmul unsigned].
  - now destruct s.
  - now destruct s.
  - exact I.
  - rewrite xorb_nilpotent. apply signed_unsigned, binary_round_aux_signed.
Qed.

Lemma SFadd_unsigned x y :
  unsigned x -> unsigned y -> unsigned (SFadd prec emax x y).
Proof.
  destruct x as [sx|sx| |sx mx ex], y as [sy|sy| |sy my ey];
    cbn [unsigned]; intros Hx Hy; subst; cbn [SFadd Bool.eqb unsigned]; auto.
  cbn [cond_Zopp].
  destruct (shl_align mx ex (Z.min ex ey)) as [m1 e1].
  destruct (shl_align my ey (Z.min ex ey)) as [m2 e2]. cbn [fst].
  change (Zpos m1 + Zpos m2)%Z with (Zpos (m1 + m2)). cbn [binary_normalize].
  apply signed_unsigned, binary_round_signed.
Qed.

Lemma unsigned_not_neg x : unsigned (Prim2SF x) -> (x <? 0)%float = false.
Proof.
  rewrite ltb_spec. change (Prim2SF 0) with (S754_zero false).
  destruct (Prim2SF x) as [s|s| |s m e]; cbn [unsigned]; intros H; subst;
    reflexivity.
Qed.

(** A sum of squares is not negative: [math.sqrt] accepts it. *)
Lemma sum_squares_unsigned (v : list float) acc :
  unsigned (Prim2SF acc) ->
  unsigned (Prim2SF (fold_left (fun a x => (a + x)%float)
                               (map (fun x => (x * x)%float) v) acc)).
Proof.
  revert acc. induction v as [|x r IH]; intros acc Hacc; simpl; auto.
  apply IH. rewrite add_spec, mul_spec.
  apply SFadd_unsigned; auto. apply SFmul_self_unsigned.
Qed.

Lemma float_or_nonzero x : (float_or x 1 =? 0)%float = false.
Proof.
  unfold float_or. destruct (x =? 0)%float eqn:E; [reflexivity|exact E].
Qed.

Lemma norm_or_one_returns (v : list float) :
  exists n, norm_or_one v = Ok n /\ (n =? 0)%float = false.
Proof.
  unfold norm_or_one, math_sqrt, py_sum.
  rewrite unsigned_not_neg by (apply sum_squares_unsigned; reflexivity).
  cbn [rbind]. eexists. split; [reflexivity|]. apply float_or_nonzero.
Qed.

(** Multiplying by one changes nothing. *)
Lemma rne_exact q n : (0 < n)%Z -> rne (q * 2 ^ n) n = q.
Proof.
  intros Hn. unfold rne.
  assert (H2 : (0 < 2 ^ n)%Z) by (apply Z.pow_pos_nonneg; lia).
  rewrite Z.div_mul by lia. rewrite Z_mod_mult.
  destruct (Z.compare_spec (2 * 0) (2 ^ n)); [lia|reflexivity|lia].
Qed.

Lemma SFmul_one s m e :
  bounded prec emax m e = true ->
  SFmul prec emax (S754_finite s m e) (Prim2SF 1) = S754_finite s m e.
Proof.
  intros Hb.
  change (Prim2SF 1) with (S754_finite false 4503599627370496 (-52)).
  cbn [SFmul]. rewrite xorb_false_r.
  pose proof Hb as Hb'. unfold bounded, canonical_mantissa in Hb'.
  apply andb_true_iff in Hb' as [Hcan Hmax].
  apply Z.eqb_eq in Hcan. apply Z.leb_le in Hmax.
  rewrite Pos2Z.inj_mul. change (Zpos 4503599627370496) with (2 ^ 52)%Z.
  destruct (Zpos m * 2 ^ 52)%Z as [|p|p] eqn:Ep; try lia.
  assert (Hdig : Zdigits2 (Zpos p) = (Zpos (digits2_pos m) + 52)%Z)
    by (rewrite <- Ep; apply digits_scale; lia).
  rewrite (binary_round_aux_round s p (e + -52) 52 m).
  - f_equal. lia.
  - rewrite Hdig.
    replace (Zpos (digits2_pos m) + 52 + (e + -52))%Z
      with (Zpos (digits2_pos m) + e)%Z by lia.
    rewrite Hcan. lia.
  - lia.
  - rewrite <- Ep. apply rne_exact. lia.
  - replace (e + -52 + 52)%Z with e by lia. cbn [Zdigits2]. lia.
  - lia.
Qed.

Lemma mul_one x : (x * 1)%float = x.
Proof.
  transitivity (SF2Prim (Prim2SF x)); [|apply SF2Prim_Prim2SF].
  rewrite <- (SF2Prim_Prim2SF (x * 1)).
  f_equal. rewrite mul_spec. unfold SF64mul.
  pose proof (Prim2SF_valid x) as Hv.
  destruct (Prim2SF x) as [s|s| |s m e].
  - cbn. now destruct s.
  - cbn. now destruct s.
  - reflexivity.
  - now apply SFmul_one.
Qed.

End SignFacts.

(** ** The curated metrics *)

Module CuratedFacts.
Import Notions Conditions Py Scorer DictFacts SearchFacts.
Local Open Scope py_scope.

Section Facts.
Variable float_of_str : string -> option float.
Local Abbreviation _avg := (_avg float_of_str).
Local Abbreviation _wavg := (_wavg float_of_str).
Local Abbreviation build_curated_metrics := (build_curated_metrics float_of_str).

Ltac numbers_or_none :=
  repeat match goal with
         | H : Forall number_or_none (_ :: _) |- _ =>
             let H1 := fresh in let H2 := fresh in
             inversion H as [|? ? H1 H2]; subst; clear H
         | H : number_or_none ?v |- _ =>
             destruct v; cbn [number_or_none] in H; try contradiction; clear H
         end.

(** [_avg] of up to three numbers or [None]s returns, and returns a number
    exactly when it is given one. *)
Lemma avg_numbers (vals : list value) :
  Forall number_or_none vals -> List.length vals <= 3 ->
  exists r, _avg vals = Ok r /\ is_number (of_opt r) = existsb is_number vals.
Proof.
  intros Hv Hlen.
  destruct vals as [|a [|b [|c [|d r]]]]; simpl in Hlen; try lia;
    numbers_or_none; (eexists; split; [reflexivity|reflexivity]).
Qed.

(** [_wavg] of two numbers or [None]s with the weights of line 143. *)
Lemma wavg_numbers (a b : value) :
  number_or_none a -> number_or_none b ->
  exists r, _wavg [a; b] [0.7; 0.3]%float = Ok r
            /\ is_number (of_opt r) = existsb is_number [a; b].
Proof.
  intros Ha Hb. numbers_or_none; (eexists; split; [reflexivity|reflexivity]).
Qed.

Lemma get_number_or_none (norm : dict) k :
  Forall number_or_none (dict_values norm) ->
  number_or_none (dict_get_default norm k VNone).
Proof.
  intros H. unfold dict_get_default.
  destruct (dict_get norm k) as [v|] eqn:E; [|exact I].
  apply dict_get_in in E. rewrite Forall_forall in H. apply H.
  unfold dict_values. change v with (snd (k, v)). now apply in_map.
Qed.

(** Line 147: the items that are not [None], converted. *)
Lemma drop_none_numbers (cur : dict) (acc : pydict float) :
  Forall number_or_none (dict_values cur) ->
  NoDup (dict_keys acc ++ dict_keys cur) ->
  rfold (fun (acc : pydict float) (kv : string * value) =>
           if is_none (snd kv) then Ok acc
           else f <~ float_ float_of_str (snd kv) ;; Ok (dict_set acc (fst kv) f))
        cur acc
  = Ok (acc ++ numbers cur).
Proof.
  revert acc. induction cur as [|[k v] r IH]; intros acc Hv Hnd.
  - simpl. now rewrite app_nil_r.
  - inversion Hv as [|? ? H1 H2]; subst. cbn [snd] in H1.
    cbn [rfold rbind fst snd]. cbn [dict_keys map fst] in Hnd.
    destruct v; cbn [number_or_none] in H1; try contradiction;
      cbn [is_none float_ py_float rbind numbers flat_map fst snd].
    + apply IH; auto. fold (dict_keys r). now apply NoDup_remove_1 in Hnd.
    + rewrite dict_set_fresh.
      * rewrite (IH _ H2).
        -- cbn [app]. now rewrite <- app_assoc.
        -- unfold dict_keys in *. rewrite map_app. cbn [map fst].
           now rewrite <- app_assoc.
      * apply NoDup_remove_2 in Hnd. intros Hin. apply Hnd.
        apply in_or_app. now left.
Qed.

Lemma numbers_keys (cur : dict) :
  dict_keys (numbers cur)
  = map fst (filter (fun kv : string * value => is_number (snd kv)) cur).
Proof.
  induction cur as [|[k v] r IH]; [reflexivity|].
  cbn [numbers flat_map filter fst snd].
  destruct v; cbn [is_number app]; auto.
  cbn [dict_keys map fst]. f_equal. exact IH.
Qed.

Lemma numbers_get (cur : dict) k f :
  NoDup (dict_keys cur) -> In (k, VFloat f) cur ->
  dict_get (numbers cur) k = Some f.
Proof.
  induction cur as [|[k' v] r IH]; intros Hnd Hin; [contradiction|].
  cbn [dict_keys map fst] in Hnd. inversion Hnd as [|? ? Hk Hr]; subst.
  destruct Hin as [[= -> ->]|Hin].
  - cbn [numbers flat_map fst snd app dict_get]. now rewrite String.eqb_refl.
  - assert (Hne : k' <> k).
    { intros ->. apply Hk. change k with (fst (k, VFloat f)). now apply in_map. }
    specialize (IH Hr Hin).
    cbn [numbers flat_map fst snd].
    destruct v; cbn [app]; auto.
    cbn [dict_get]. apply String.eqb_neq in Hne. now rewrite Hne.
Qed.

Lemma build_curated_numbers (norm : dict) :
  Forall number_or_none (dict_values norm) ->
  exists a1 a2 a3 a4,
    build_curated_metrics norm = Ok (numbers (cur_of norm a1 a2 a3 a4))
    /\ is_number (of_opt a1)
       = has_number norm ["filler_inv"; "avg_sentence_len_norm"]
    /\ is_number (of_opt a2)
       = has_number norm ["kw_strength"; "lang_emo_curiosity"]
    /\ is_number (of_opt a3)
       = has_number norm ["attention_att"; "attention_dist_inv"]
    /\ is_number (of_opt a4)
       = has_number norm ["positivity"; "emo_pos"; "emo_neg_inv"].
Proof.
  intros Hn.
  pose proof (fun k => get_number_or_none norm k Hn) as G.
  destruct (avg_numbers [dict_get_default norm "filler_inv" VNone;
                         dict_get_default norm "avg_sentence_len_norm" VNone])
    as (a1 & E1 & N1); [repeat constructor; apply G|simpl; lia|].
  destruct (avg_numbers [dict_get_default norm "kw_strength" VNone;
                         dict_get_default norm "lang_emo_curiosity" VNone])
    as (a2 & E2 & N2); [repeat constructor; apply G|simpl; lia|].
  destruct (wavg_numbers (dict_get_default norm "attention_att" VNone)
                         (dict_get_default norm "attention_dist_inv" VNone))
    as (a3 & E3 & N3); [apply G|apply G|].
  destruct (avg_numbers [dict_get_default norm "positivity" VNone;
                         dict_get_default norm "emo_pos" VNone;
                         dict_get_default norm "emo_neg_inv" VNone])
    as (a4 & E4 & N4); [repeat constructor; apply G|simpl; lia|].
  exists a1, a2, a3, a4. split; [|auto].
  unfold Scorer.build_curated_metrics.
  rewrite E1. cbn [rbind]. rewrite E2. cbn [rbind]. rewrite E3. cbn [rbind].
  rewrite E4. cbn [rbind].
  change (dict_set _ "positivity_tone" (of_opt a4))
    with (cur_of norm a1 a2 a3 a4).
  rewrite drop_none_numbers; [reflexivity| |].
  - unfold cur_of, dict_values. cbn [map snd].
    repeat constructor; try apply G;
      match goal with |- number_or_none (of_opt ?a) => now destruct a end.
  - cbn. repeat constructor; simpl; intuition discriminate.
Qed.

End Facts.
End CuratedFacts.

(** ** Base factors, multipliers and alignment *)

Module FactorFacts.
Import Notions Conditions Py Scorer DictFacts FloatFacts OrderFacts
       RangeFacts SignFacts PatternFacts SearchFacts.
Local Open Scope py_scope.

Lemma known_factor_spec f : known_factor f = true <-> In f factor_names.
Proof.
  unfold known_factor. rewrite existsb_exists. split.
  - intros (x & Hx & E). apply String.eqb_eq in E. now subst.
  - intros H. exists f. split; auto. apply String.eqb_refl.
Qed.

Lemma dict_get_none_iff {V} (d : pydict V) k :
  dict_get d k = None <-> ~ In k (dict_keys d).
Proof.
  split; [|apply dict_get_not_in].
  intros E Hin. unfold dict_keys in Hin. apply in_map_iff in Hin as ([k' v] & <- & Hin).
  clear -E Hin. induction d as [|[k0 v0] r IH]; [contradiction|].
  simpl in *. destruct (String.eqb_spec k0 k') as [->|Hne]; [discriminate|].
  destruct Hin as [[= -> ->]|Hin]; [congruence|auto].
Qed.

Lemma dict_has_in {V} (d : pydict V) k :
  dict_has d k = true <-> In k (dict_keys d).
Proof.
  unfold dict_has. destruct (dict_get d k) eqn:E.
  - split; auto. intros _. eapply dict_get_some_key; eauto.
  - apply dict_get_none_iff in E. split; [discriminate|contradiction].
Qed.

Section Facts.
Variable weights : pydict (pydict float).
Variable multipliers : pydict float.
Local Abbreviation add_metric := (add_metric weights).
Local Abbreviation base_factors := (base_factors weights).
Local Abbreviation apply_pattern := (apply_pattern multipliers).
Local Abbreviation cosine_alignment := (cosine_alignment multipliers).
Local Abbreviation target_vector := (target_vector multipliers).

(** *** [base_factors] *)

(** One [bases[f] += ...] (line 171): it raises exactly on a factor that is
    not a key of [bases], and adds no key. *)
Lemma add_weighted_spec s total bases fw :
  (total =? 0)%float = false ->
  match add_weighted s total bases fw with
  | Ok b => dict_has bases (fst fw) = true /\ dict_keys b = dict_keys bases
  | Raise e => e = KeyError /\ dict_has bases (fst fw) = false
  end.
Proof.
  intros Ht. unfold add_weighted, dict_index, py_fdiv, dict_has.
  rewrite Ht.
  destruct (dict_get bases (fst fw)) as [b|] eqn:E; cbn [rbind]; auto.
  split; auto. rewrite dict_keys_set. unfold dict_has. now rewrite E.
Qed.

Lemma row_spec s total row bases :
  (total =? 0)%float = false ->
  dict_keys bases = factor_names ->
  match rfold (add_weighted s total) row bases with
  | Ok b => row_known row = true /\ dict_keys b = factor_names
  | Raise e => e = KeyError /\ row_known row = false
  end.
Proof.
  intros Ht. revert bases.
  induction row as [|fw r IH]; intros bases Hk; cbn [rfold]; auto.
  pose proof (add_weighted_spec s total bases fw Ht) as H.
  unfold row_known. cbn [dict_keys map forallb].
  assert (Hf : known_factor (fst fw) = dict_has bases (fst fw)).
  { apply eq_true_iff_eq. rewrite known_factor_spec, dict_has_in, Hk. tauto. }
  rewrite Hf.
  destruct (add_weighted s total bases fw) as [b|e]; cbn [rbind].
  - destruct H as [-> Hb]. cbn [andb]. apply IH. congruence.
  - destruct H as [-> ->]. auto.
Qed.

Lemma metrics_spec curated bases :
  dict_keys bases = factor_names ->
  match rfold add_metric curated bases with
  | Ok b => rows_known weights curated = true /\ dict_keys b = factor_names
  | Raise e => e = KeyError /\ rows_known weights curated = false
  end.
Proof.
  revert bases.
  induction curated as [|ms r IH]; intros bases Hk; cbn [rfold]; auto.
  unfold rows_known. cbn [forallb]. unfold Scorer.add_metric at 1.
  destruct (dict_get weights (fst ms)) as [row|]; cbn [rbind andb].
  - pose proof (row_spec (snd ms) _ row bases
                         (float_or_nonzero (py_sum (dict_values row))) Hk) as H.
    destruct (rfold _ row bases) as [b|e]; cbn [rbind].
    + destruct H as [-> Hb]. cbn [andb]. now apply IH.
    + destruct H as [-> ->]. auto.
  - now apply IH.
Qed.

(** Line 168: a metric without a row leaves the bases as they are. *)
Lemma metrics_without_row curated bases :
  rfold add_metric curated bases
  = rfold add_metric
          (filter (fun ms : string * float => dict_has weights (fst ms))
                  curated) bases.
Proof.
  revert bases. induction curated as [|ms r IH]; intros bases; [reflexivity|].
  cbn [rfold filter]. unfold dict_has.
  destruct (dict_get weights (fst ms)) as [row|] eqn:E; cbn [rfold].
  - destruct (add_metric bases ms); cbn [rbind]; auto.
  - unfold Scorer.add_metric at 1. rewrite E. cbn [rbind]. apply IH.
Qed.

(** Lines 172: every base ends clamped. *)
Lemma clamp_bases (b : pydict float) :
  dict_keys b = factor_names ->
  fold_left (fun (b : pydict float) k =>
               dict_set b k (clamp (dict_get_default b k 0%float) 0 100))
            (dict_keys b) b
  = map (fun kv : string * float => (fst kv, clamp (snd kv) 0 100)) b.
Proof.
  intros Hk. rewrite Hk.
  destruct b as [|[k1 v1] [|[k2 v2] [|[k3 v3] [|[k4 v4] [|? ?]]]]];
    try discriminate.
  injection Hk as -> -> -> ->. reflexivity.
Qed.

Lemma base_factors_spec curated :
  match base_factors curated with
  | Ok b => rows_known weights curated = true
            /\ dict_keys b = factor_names
            /\ Forall in_range (dict_values b)
  | Raise e => e = KeyError /\ rows_known weights curated = false
  end.
Proof.
  unfold Scorer.base_factors.
  pose proof (metrics_spec curated (map (fun f => (f, 0%float)) factor_names)
                           eq_refl) as H.
  destruct (rfold _ curated _) as [b|e]; cbn [rbind]; auto.
  destruct H as [Hr Hk]. split; auto.
  rewrite (clamp_bases b Hk). split.
  - unfold dict_keys in *. rewrite map_map. cbn [fst]. exact Hk.
  - unfold dict_values. rewrite map_map. cbn [snd].
    apply Forall_forall. intros x Hx. apply in_map_iff in Hx as (kv & <- & _).
    apply clamp_range.
Qed.

Lemma weights_ok_rows curated :
  weights_ok weights = true -> rows_known weights curated = true.
Proof.
  intros Hw. unfold rows_known. apply forallb_forall. intros ms _.
  destruct (dict_get weights (fst ms)) as [row|] eqn:E; auto.
  apply dict_get_in in E.
  unfold weights_ok in Hw. rewrite forallb_forall in Hw.
  exact (Hw _ E).
Qed.

(** *** [apply_pattern] *)

Lemma apply_pattern_spec bases order :
  dict_keys bases = factor_names ->
  match apply_pattern bases order with
  | Ok s => 4 <= List.length order
            /\ dict_keys s = factor_names
            /\ Forall in_range (dict_values s)
  | Raise e => e = IndexError /\ List.length order < 4
  end.
Proof.
  intros Hk.
  assert (Hnd : NoDup (dict_keys bases)).
  { rewrite Hk. repeat constructor; simpl; intuition discriminate. }
  destruct (Nat.lt_ge_cases (List.length order) 4) as [Hlt|Hge].
  - unfold Scorer.apply_pattern. rewrite (rank_map_short _ Hlt). cbn [rbind].
    auto.
  - destruct (rank_map_long _ Hge) as (a & b & c & d & r & _ & Hmap).
    rewrite (apply_pattern_distinct multipliers bases order _ Hnd Hmap).
    split; auto. split.
    + unfold dict_keys in *. rewrite map_map. cbn [fst]. exact Hk.
    + unfold dict_values. rewrite map_map. cbn [snd].
      apply Forall_forall. intros x Hx. apply in_map_iff in Hx as (kv & <- & _).
      apply clamp_range.
Qed.

(** *** [cosine_alignment] *)

Lemma rmap_fdiv (t : list float) n :
  (n =? 0)%float = false ->
  rmap (fun x => py_fdiv x n) t = Ok (map (fun x => x / n)%float t).
Proof.
  intros Hn. induction t as [|x r IH]; [reflexivity|].
  cbn [rmap map]. unfold py_fdiv at 1. rewrite Hn. cbn [rbind].
  rewrite IH. reflexivity.
Qed.

Lemma target_vector_returns :
  multipliers_ok multipliers = true -> exists t, target_vector = Ok t.
Proof.
  unfold multipliers_ok, ranks. cbn [forallb]. unfold dict_has.
  intros H. unfold Scorer.target_vector, dict_index. cbn [rmap].
  destruct (dict_get multipliers "primary"); [|discriminate].
  destruct (dict_get multipliers "secondary"); [|discriminate].
  destruct (dict_get multipliers "tertiary"); [|discriminate].
  destruct (dict_get multipliers "quaternary"); [|discriminate].
  cbn [rbind].
  destruct (norm_or_one_returns [f; f0; f1; f2]) as (n & -> & Hn).
  cbn [rbind]. rewrite (rmap_fdiv _ _ Hn). eauto.
Qed.

Lemma subject_vector_returns scores order :
  dict_keys scores = factor_names -> order_ok order = true ->
  exists s, subject_vector scores order = Ok s.
Proof.
  intros Hk Ho. unfold order_ok in Ho.
  apply andb_true_iff in Ho as [Hlen Hkn]. apply Nat.leb_le in Hlen.
  destruct order as [|a [|b [|c [|d r]]]]; simpl in Hlen; try lia.
  cbn [firstn forallb] in Hkn.
  repeat (apply andb_true_iff in Hkn as [?H Hkn]).
  unfold subject_vector, list_index, dict_index.
  cbn [rmap nth_error rbind].
  assert (G : forall k, known_factor k = true ->
                        exists v, dict_get scores k = Some v).
  { intros k Hkk. apply known_factor_spec in Hkk. rewrite <- Hk in Hkk.
    destruct (dict_get scores k) eqn:E; eauto.
    apply dict_get_none_iff in E. contradiction. }
  destruct (G a) as (va & ->); auto. destruct (G b) as (vb & ->); auto.
  destruct (G c) as (vc & ->); auto. destruct (G d) as (vd & ->); auto.
  cbn [rbind]. eauto.
Qed.

Lemma cosine_alignment_range scores order a :
  cosine_alignment scores order = Ok a -> in_range a.
Proof.
  unfold Scorer.cosine_alignment. intros H.
  apply rbind_ok in H as (tvec & _ & H).
  apply rbind_ok in H as (svec & _ & H).
  apply rbind_ok in H as (snorm & _ & H).
  apply rbind_ok in H as (sim & _ & H).
  injection H as <-. apply clamp_range.
Qed.

Lemma cosine_alignment_returns scores order :
  multipliers_ok multipliers = true ->
  dict_keys scores = factor_names -> order_ok order = true ->
  exists a, cosine_alignment scores order = Ok a.
Proof.
  intros Hm Hk Ho. unfold Scorer.cosine_alignment.
  destruct (target_vector_returns Hm) as (t & ->). cbn [rbind].
  destruct (subject_vector_returns scores order Hk Ho) as (s & ->). cbn [rbind].
  destruct (norm_or_one_returns s) as (n & -> & Hn). cbn [rbind].
  rewrite mul_one. unfold py_fdiv. rewrite Hn. cbn [rbind]. eauto.
Qed.

End Facts.
End FactorFacts.

(** ** The stages after normalization *)

Module PipelineFacts.
Import Notions Conditions Py Scorer DictFacts FloatFacts OrderFacts
       RangeFacts SignFacts PatternFacts SearchFacts InvariantFacts
       CuratedFacts FactorFacts.
Local Open Scope py_scope.

Lemma rmap_raises {A B} (P : exn -> Prop) (f : A -> res B) xs e :
  (forall x e, f x = Raise e -> P e) -> rmap f xs = Raise e -> P e.
Proof.
  intros Hf. induction xs as [|x r IH]; cbn [rmap]; [discriminate|].
  destruct (f x) as [y|e'] eqn:E; cbn [rbind].
  - destruct (rmap f r) as [ys|e'']; cbn [rbind]; [discriminate|].
    intros [= <-]. now apply IH.
  - intros [= <-]. eapply Hf; eauto.
Qed.

Lemma metrics_numbers d :
  metrics_ok d -> Forall number_or_none (dict_values d).
Proof.
  unfold metrics_ok, dict_values. intros H.
  apply Forall_forall. intros v Hv. apply in_map_iff in Hv as ([k v'] & <- & Hin).
  rewrite Forall_forall in H. destruct (H _ Hin) as [_ Hm]. cbn [fst snd] in *.
  now destruct v'.
Qed.

Section Facts.
Variable float_of_str : string -> option float.
Variable weights : pydict (pydict float).
Variable multipliers : pydict float.
Local Abbreviation score_norm := (score_norm float_of_str weights multipliers).
Local Abbreviation score_one := (score_one float_of_str weights multipliers).
Local Abbreviation normalized := (normalized float_of_str).
Local Abbreviation cosine_alignment := (cosine_alignment multipliers).

(** [cosine_alignment] raises on a missing key or a short ordering only. *)
Lemma cosine_alignment_raises scores order e :
  cosine_alignment scores order = Raise e -> e = KeyError \/ e = IndexError.
Proof.
  unfold Scorer.cosine_alignment, target_vector.
  destruct (rmap (dict_index multipliers) _) as [t|e1] eqn:Et; cbn [rbind].
  - destruct (norm_or_one_returns t) as (tn & -> & Htn). cbn [rbind].
    rewrite (rmap_fdiv _ _ Htn). cbn [rbind].
    destruct (subject_vector scores order) as [s|e2] eqn:Es; cbn [rbind].
    + destruct (norm_or_one_returns s) as (sn & -> & Hsn). cbn [rbind].
      rewrite mul_one. unfold py_fdiv. rewrite Hsn. discriminate.
    + intros [= <-]. unfold subject_vector in Es.
      apply (rmap_raises (fun e => e = KeyError \/ e = IndexError)) in Es; auto.
      intros i e. unfold list_index, dict_index.
      destruct (nth_error order i); cbn [rbind].
      * destruct (dict_get scores s); [discriminate|]. intros [= <-]. now left.
      * intros [= <-]. now right.
  - intros [= <-]. left.
    apply (rmap_raises (fun e => e = KeyError)) in Et; auto.
    intros k e. unfold dict_index.
    destruct (dict_get multipliers k); [discriminate|]. now intros [= <-].
Qed.

(** Line 202: the factor names in lower case, the scores rounded. *)
Lemma lower_factors (scores : pydict float) :
  dict_keys scores = factor_names ->
  fold_left (fun (d : pydict float) (kv : string * float) =>
               dict_set d (lower (fst kv)) (round2 (snd kv))) scores []
  = combine factor_keys (map round2 (dict_values scores)).
Proof.
  intros Hk.
  destruct scores as [|[k1 v1] [|[k2 v2] [|[k3 v3] [|[k4 v4] [|? ?]]]]];
    try discriminate.
  injection Hk as -> -> -> ->. reflexivity.
Qed.

(** What [score_one] computes from the normalized set, stage by stage. *)
Lemma score_norm_stages d order r :
  score_norm d order = Ok r ->
  exists bases scores a,
    build_curated_metrics float_of_str d = Ok (curated r)
    /\ base_factors weights (curated r) = Ok bases
    /\ apply_pattern multipliers bases order = Ok scores
    /\ cosine_alignment scores order = Ok a
    /\ raw r = d
    /\ factors r = combine factor_keys (map round2 (dict_values scores))
    /\ alignment_pct r = round2 a.
Proof.
  unfold Scorer.score_norm. intros H.
  apply rbind_ok in H as (s_cur & Hc & H).
  apply rbind_ok in H as (bases & Hb & H).
  apply rbind_ok in H as (scores & Hs & H).
  apply rbind_ok in H as (a & Ha & H).
  injection H as <-. cbn [curated raw factors alignment_pct].
  exists bases, scores, a. repeat split; auto.
  apply lower_factors.
  pose proof (base_factors_spec weights s_cur) as Hbs. rewrite Hb in Hbs.
  destruct Hbs as (_ & Hk & _).
  pose proof (apply_pattern_spec multipliers bases order Hk) as Hps.
  rewrite Hs in Hps. tauto.
Qed.

Lemma score_norm_range d order r :
  score_norm d order = Ok r ->
  raw r = d
  /\ dict_keys (factors r) = factor_keys
  /\ Forall in_range (dict_values (factors r))
  /\ in_range (alignment_pct r).
Proof.
  intros H.
  destruct (score_norm_stages d order r H)
    as (bases & scores & a & Hc & Hb & Hs & Ha & Hraw & Hf & Hal).
  pose proof (base_factors_spec weights (curated r)) as Hbs. rewrite Hb in Hbs.
  destruct Hbs as (_ & Hk & _).
  pose proof (apply_pattern_spec multipliers bases order Hk) as Hps.
  rewrite Hs in Hps. destruct Hps as (_ & Hks & Hrs).
  split; [exact Hraw|]. rewrite Hf, Hal.
  destruct scores as [|[k1 v1] [|[k2 v2] [|[k3 v3] [|[k4 v4] [|? ?]]]]];
    try discriminate.
  split; [reflexivity|]. split.
  - cbn. cbn in Hrs.
    repeat match goal with
           | H : Forall _ (_ :: _) |- _ => inversion H; subst; clear H
           end.
    repeat constructor; now apply round2_range.
  - apply round2_range. eapply cosine_alignment_range; eauto.
Qed.

(** On a normalized set, scoring returns unless the configuration or the
    ordering is at fault. *)
Lemma score_norm_fails d order e :
  Forall number_or_none (dict_values d) ->
  score_norm d order = Raise e ->
  (e = KeyError \/ e = IndexError)
  /\ weights_ok weights && multipliers_ok multipliers && order_ok order = false.
Proof.
  intros Hd. unfold Scorer.score_norm.
  destruct (build_curated_numbers float_of_str d Hd)
    as (a1 & a2 & a3 & a4 & -> & _). cbn [rbind].
  set (cur := numbers _).
  pose proof (base_factors_spec weights cur) as Hb.
  destruct (base_factors weights cur) as [bases|eb]; cbn [rbind].
  - destruct Hb as (_ & Hk & _).
    pose proof (apply_pattern_spec multipliers bases order Hk) as Hp.
    destruct (apply_pattern multipliers bases order) as [scores|ep]; cbn [rbind].
    + destruct Hp as (Hlen & Hks & _).
      destruct (cosine_alignment scores order) as [a|ec] eqn:Ec; cbn [rbind];
        [discriminate|].
      intros [= <-]. split; [eapply cosine_alignment_raises; eauto|].
      destruct (multipliers_ok multipliers) eqn:Hm;
        [|now rewrite andb_false_r].
      destruct (order_ok order) eqn:Ho; [|now rewrite andb_false_r].
      destruct (cosine_alignment_returns multipliers scores order Hm Hks Ho)
        as (a & Ha).
      rewrite Ha in Ec. discriminate.
    + destruct Hp as [-> Hlen]. intros [= <-]. split; [now right|].
      unfold order_ok. apply Nat.leb_gt in Hlen. rewrite Hlen.
      cbn [andb]. now rewrite andb_false_r.
  - destruct Hb as [-> Hr]. intros [= <-]. split; [now left|].
    destruct (weights_ok weights) eqn:Hw; [|reflexivity].
    rewrite (weights_ok_rows weights cur Hw) in Hr. discriminate.
Qed.

(** [score_one] is [normalize_metrics] followed by [score_norm]. *)
Lemma score_one_normalized h spiky order :
  score_one h spiky order
  = match normalized h spiky with
    | Returns d =>
        match score_norm d order with
        | Ok r => Returns r
        | Raise e => Raises e
        end
    | Raises e => Raises e
    | Stuck => Stuck
    end.
Proof.
  unfold Scorer.score_one, Scorer.normalized, score_one_st, bind.
  destruct (normalize_metrics float_of_str spiky h) as [out h1|e h1|];
    try reflexivity.
  unfold deref. destruct (nth_error h1 out) as [d|]; [|reflexivity].
  cbn [observe]. now destruct (score_norm d order).
Qed.

End Facts.
End PipelineFacts.

(** ** One request, the catalog search and the lookup by name *)

Module RequestFacts.
Import Notions Conditions Py Scorer Api DictFacts FloatFacts OrderFacts
       RangeFacts SearchFacts InvariantFacts CuratedFacts FactorFacts
       PipelineFacts.
Local Open Scope py_scope.

Lemma dict_set_in {V} (d : pydict V) k v k' v' :
  In (k', v') (dict_set d k v) -> (k', v') = (k, v) \/ In (k', v') d.
Proof.
  induction d as [|[k0 v0] r IH]; simpl.
  - intros [H|[]]. left. congruence.
  - destruct (String.eqb_spec k0 k) as [->|Hne]; simpl.
    + intros [H|H]; auto.
    + intros [H|H]; auto. destruct (IH H); auto.
Qed.

Section Facts.
Variable float_of_str : string -> option float.
Variable int_of_str : string -> option Z.
Variable str_lower : string -> string.
Variable weights : pydict (pydict float).
Variable multipliers : pydict float.
Variable patterns : pydict pattern_info.

Local Abbreviation score_one := (score_one float_of_str weights multipliers).
Local Abbreviation score_norm := (score_norm float_of_str weights multipliers).
Local Abbreviation normalized := (normalized float_of_str).
Local Abbreviation search_step :=
  (search_step float_of_str int_of_str weights multipliers).
Local Abbreviation search := (search float_of_str int_of_str weights multipliers).
Local Abbreviation score_all_patterns :=
  (score_all_patterns float_of_str int_of_str weights multipliers patterns).
Local Abbreviation score :=
  (score float_of_str int_of_str str_lower weights multipliers patterns).
Local Abbreviation reply_single := (reply_single float_of_str weights multipliers).
Local Abbreviation reply_best :=
  (reply_best float_of_str int_of_str weights multipliers patterns).

(** *** One pattern *)

Lemma score_one_returns h spiky order d :
  weights_ok weights = true -> multipliers_ok multipliers = true ->
  order_ok order = true ->
  normalized h spiky = Returns d ->
  exists r, score_one h spiky order = Returns r.
Proof.
  intros Hw Hm Ho Hd. rewrite score_one_normalized, Hd.
  destruct (score_norm d order) as [r|e] eqn:E; [eauto|].
  apply score_norm_fails in E as [_ E].
  - rewrite Hw, Hm, Ho in E. discriminate.
  - apply metrics_numbers. eapply normalized_ok; eauto.
Qed.

Lemma score_one_raises h spiky order e :
  normalized h spiky = Raises e -> score_one h spiky order = Raises e.
Proof. intros H. now rewrite score_one_normalized, H. Qed.

Lemma score_one_stuck h spiky order :
  normalized h spiky = Stuck -> score_one h spiky order = Stuck.
Proof. intros H. now rewrite score_one_normalized, H. Qed.

Lemma score_one_same_metrics h spiky o1 o2 r1 r2 :
  score_one h spiky o1 = Returns r1 -> score_one h spiky o2 = Returns r2 ->
  raw r1 = raw r2 /\ curated r1 = curated r2.
Proof.
  rewrite !score_one_normalized.
  destruct (normalized h spiky) as [d| |]; try discriminate.
  destruct (score_norm d o1) as [r1'|] eqn:E1; try discriminate.
  destruct (score_norm d o2) as [r2'|] eqn:E2; try discriminate.
  intros [= <-] [= <-].
  destruct (score_norm_stages _ _ _ _ _ _ E1) as (? & ? & ? & C1 & _ & _ & _ & R1 & _).
  destruct (score_norm_stages _ _ _ _ _ _ E2) as (? & ? & ? & C2 & _ & _ & _ & R2 & _).
  split; congruence.
Qed.

(** *** The catalog loop *)

Lemma search_step_returns h spiky best acc pid pinfo st :
  search_step h spiky (best, acc) (pid, pinfo) = Returns st ->
  exists id r,
    int_of_str pid = Some id
    /\ score_one h spiky (p_order pinfo) = Returns r
    /\ snd st = dict_set acc pid (catalog_entry id pinfo r)
    /\ (fst st = best \/ fst st = Some (catalog_entry id pinfo r))
    /\ fst st <> None.
Proof.
  unfold Scorer.search_step.
  destruct (score_one h spiky (p_order pinfo)) as [r| |]; try discriminate.
  destruct (int_of_str pid) as [id|]; try discriminate.
  intros [= <-]. exists id, r. cbn [fst snd].
  repeat split; auto.
  - destruct best as [b|]; auto.
    destruct (_ <? _)%float; auto.
  - destruct best as [b|]; [destruct (_ <? _)%float|]; discriminate.
Qed.

Lemma search_returns h spiky ps :
  forall best acc best' acc',
    search h spiky ps (best, acc) = Returns (best', acc') ->
    (forall pid pinfo, In (pid, pinfo) ps ->
       exists id r, int_of_str pid = Some id
                    /\ score_one h spiky (p_order pinfo) = Returns r)
    /\ (forall pid e, In (pid, e) acc' ->
          In (pid, e) acc
          \/ exists pinfo id r,
               In (pid, pinfo) ps /\ int_of_str pid = Some id
               /\ score_one h spiky (p_order pinfo) = Returns r
               /\ e = catalog_entry id pinfo r)
    /\ (ps <> [] -> best' <> None).
Proof.
  induction ps as [|[pid pinfo] ps IH]; intros best acc best' acc'.
  - cbn [Scorer.search]. intros [= <- <-]. split; [|split].
    + intros ? ? [].
    + auto.
    + congruence.
  - cbn [Scorer.search].
    destruct (search_step h spiky (best, acc) (pid, pinfo)) as [[b1 a1]| |] eqn:E;
      try discriminate.
    apply search_step_returns in E as (id & r & Hid & Hr & Ha & Hb & Hn).
    cbn [fst snd] in *. intros H.
    destruct (IH _ _ _ _ H) as (H1 & H2 & H3). split; [|split].
    + intros pid' pinfo' [[= <- <-]|Hin]; [eauto|auto].
    + intros pid' e Hin. destruct (H2 _ _ Hin) as [Hacc|(pi & i & r' & ? & ? & ? & ?)].
      * subst a1. apply dict_set_in in Hacc as [[= -> ->]|Hacc]; auto.
        right. exists pinfo, id, r. repeat split; auto. now left.
      * right. exists pi, i, r'. repeat split; auto. now right.
    + intros _. destruct ps as [|p ps'].
      * cbn [Scorer.search] in H. injection H as <- <-. exact Hn.
      * apply H3. discriminate.
Qed.

Lemma search_total h spiky ps :
  (forall pid pinfo, In (pid, pinfo) ps ->
     exists id r, int_of_str pid = Some id
                  /\ score_one h spiky (p_order pinfo) = Returns r) ->
  forall st, exists st', search h spiky ps st = Returns st'.
Proof.
  induction ps as [|[pid pinfo] ps IH]; intros Hok st.
  - eexists. reflexivity.
  - destruct (Hok pid pinfo (or_introl eq_refl)) as (id & r & Hid & Hr).
    cbn [Scorer.search]. unfold Scorer.search_step at 1.
    destruct st as [best acc]. rewrite Hr, Hid.
    apply IH. intros ? ? Hin. apply Hok. now right.
Qed.

Lemma search_raises h spiky pid pinfo ps st e :
  score_one h spiky (p_order pinfo) = Raises e ->
  search h spiky ((pid, pinfo) :: ps) st = Raises e.
Proof.
  intros H. cbn [Scorer.search]. unfold Scorer.search_step.
  destruct st as [best acc]. now rewrite H.
Qed.

Lemma search_stuck h spiky pid pinfo ps st :
  score_one h spiky (p_order pinfo) = Stuck ->
  search h spiky ((pid, pinfo) :: ps) st = Stuck.
Proof.
  intros H. cbn [Scorer.search]. unfold Scorer.search_step.
  destruct st as [best acc]. now rewrite H.
Qed.

Lemma catalog_ok_entry pid pinfo :
  catalog_ok int_of_str patterns = true -> In (pid, pinfo) patterns ->
  (exists id, int_of_str pid = Some id) /\ order_ok (p_order pinfo) = true.
Proof.
  unfold catalog_ok. rewrite forallb_forall. intros H Hin.
  specialize (H _ Hin). cbn [fst snd] in H.
  apply andb_true_iff in H as [H1 H2]. split; auto.
  destruct (int_of_str pid); [eauto|discriminate].
Qed.

(** *** Looking a pattern up by name *)

Lemma find_by_name_first name (v : pattern_info) :
  NoDup (map (fun v => str_lower (p_name v)) (dict_values patterns)) ->
  In v (dict_values patterns) ->
  str_lower (p_name v) = str_lower name ->
  find_by_name str_lower patterns name = Some (p_order v).
Proof.
  unfold find_by_name. generalize (dict_values patterns) as vs.
  induction vs as [|w r IH]; intros Hnd Hin Hname; [contradiction|].
  cbn [filter]. cbn [map] in Hnd. inversion Hnd as [|? ? Hw Hr]; subst.
  destruct Hin as [->|Hin].
  - rewrite Hname, String.eqb_refl. reflexivity.
  - destruct (String.eqb_spec (str_lower (p_name w)) (str_lower name))
      as [E|E].
    + exfalso. apply Hw. rewrite E, <- Hname.
      now apply (in_map (fun v => str_lower (p_name v))).
    + now apply IH.
Qed.

End Facts.
End RequestFacts.

(** ** Bounds of [clamp], [to100], [inv100], [minmax] *)

Module ScalarBounds.
Import Notions Conditions Py Scorer Api DictFacts FloatFacts OrderFacts
       RangeFacts SignFacts SearchFacts ScalarRange InvariantFacts
       CuratedFacts FactorFacts PipelineFacts RequestFacts PatternFacts.
Local Open Scope py_scope.

(** ** clamp *)

(** X1: for bounds with [lo <= hi], [clamp x lo hi] lies between [lo] and
    [hi] for every float [x], an infinity or a NaN included; a NaN is sent
    to [hi]. *)
Theorem clamp_within_bounds (x lo hi : float) :
  (lo <=? hi)%float = true ->
  (lo <=? clamp x lo hi)%float = true
  /\ (clamp x lo hi <=? hi)%float = true
  /\ (is_nan x = true -> (clamp x lo hi =? hi)%float = true).
Proof.
  intros H. destruct (clamp_bounds x lo hi H) as [H1 H2].
  repeat split; auto. intros Hx. now apply clamp_nan.
Qed.

Lemma clamp_within_bounds_witness :
  (0 <=? clamp nan 0 100)%float = true
  /\ (clamp nan 0 100 <=? 100)%float = true
  /\ (is_nan nan = true -> (clamp nan 0 100 =? 100)%float = true).
Proof. apply (clamp_within_bounds nan 0 100). reflexivity. Defined.

(** X2: [clamp] returns a value that lies between its bounds as it is
    (equal as a float: of two equal zeros it may return the bound). *)
Theorem clamp_keeps_values_in_bounds (x lo hi : float) :
  (lo <=? x)%float = true -> (x <=? hi)%float = true ->
  (clamp x lo hi =? x)%float = true.
Proof. apply clamp_fixed. Qed.

Lemma clamp_keeps_values_in_bounds_witness :
  (clamp 42.5 0 100 =? 42.5)%float = true.
Proof. apply (clamp_keeps_values_in_bounds 42.5 0 100); reflexivity. Defined.

(** ** scalars *)

Section Scalars.
Variable float_of_str : string -> option float.
Local Abbreviation float_ := (float_ float_of_str).
Local Abbreviation to100 := (to100 float_of_str).
Local Abbreviation inv100 := (inv100 float_of_str).
Local Abbreviation minmax := (minmax float_of_str).
Local Abbreviation talk_balance_score := (talk_balance_score float_of_str).

(** X3: where [float(v)] succeeds, [to100], [inv100] and
    [talk_balance_score] each return a number between 0 and 100, never a
    NaN, whatever number [v] is; where it fails, all three return [None]. *)
Theorem scalars_in_range (v : value) :
  match float_ v with
  | Ok _ =>
      exists a b c,
        to100 v = Some a /\ inv100 v = Some b /\ talk_balance_score v = Some c
        /\ in_range a /\ in_range b /\ in_range c
  | Raise _ =>
      to100 v = None /\ inv100 v = None /\ talk_balance_score v = None
  end.
Proof.
  destruct (float_ v) as [f|e] eqn:E.
  - destruct (to100 v) as [a|] eqn:Ea;
      [|unfold Scorer.to100 in Ea; rewrite E in Ea; discriminate].
    destruct (inv100 v) as [b|] eqn:Eb;
      [|unfold Scorer.inv100 in Eb; rewrite Ea in Eb; discriminate].
    destruct (talk_balance_score v) as [c|] eqn:Ec;
      [|unfold Scorer.talk_balance_score in Ec; rewrite E in Ec; discriminate].
    exists a, b, c. repeat split; auto.
    + eapply to100_range; eauto.
    + eapply to100_range; eauto.
    + eapply inv100_range; eauto.
    + eapply inv100_range; eauto.
    + eapply talk_range; eauto.
    + eapply talk_range; eauto.
  - unfold Scorer.inv100, Scorer.to100, Scorer.talk_balance_score.
    rewrite E. auto.
Qed.

(** X4: a number [minmax] returns lies between 0 and 100, for any bounds;
    and with each of the three pairs of bounds [normalize_metrics] uses
    (4-25, 0-180, 90-180) [minmax] never raises: it returns a number where
    [float(v)] succeeds and [None] where it fails. *)
Theorem minmax_in_range (v : value) :
  (forall lo hi a, minmax v lo hi = Ok (Some a) -> in_range a)
  /\ (forall lo hi, In (lo, hi) minmax_ranges ->
        match float_ v with
        | Ok _ => exists a, minmax v lo hi = Ok (Some a)
        | Raise _ => minmax v lo hi = Ok None
        end).
Proof.
  split; [intros lo hi a; apply minmax_range|].
  intros lo hi Hin. unfold Scorer.minmax.
  destruct (float_ v) as [f|e]; [|reflexivity].
  destruct Hin as [[= <- <-]|[[= <- <-]|[[= <- <-]|[]]]];
    eexists; reflexivity.
Qed.

(** X5: [to100] on a float [x]: above 1 and up to 100 it returns [x]; above
    100 it returns 100; below 0 it returns 0; on a NaN it returns 100. *)
Theorem to100_by_cases (x : float) :
  ((1 <? x)%float = true -> (x <=? 100)%float = true ->
     exists a, to100 (VFloat x) = Some a /\ (a =? x)%float = true)
  /\ ((100 <? x)%float = true -> to100 (VFloat x) = Some 100%float)
  /\ ((x <? 0)%float = true -> to100 (VFloat x) = Some 0%float)
  /\ (is_nan x = true -> to100 (VFloat x) = Some 100%float).
Proof.
  unfold Scorer.to100. cbn [Scorer.float_ py_float].
  split; [|split; [|split]].
  - intros H1 H100. rewrite (ltb_not_leb _ _ H1).
    eexists. split; [reflexivity|].
    apply clamp_fixed; auto.
    apply ltb_leb. eapply ltb_trans; [|exact H1]. reflexivity.
  - intros H.
    assert (H1 : (1 <? x)%float = true)
      by (eapply ltb_trans; [|exact H]; reflexivity).
    rewrite (ltb_not_leb _ _ H1). f_equal.
    unfold clamp, py_min.
    destruct (x <? 100)%float eqn:E; [|reflexivity].
    apply ltb_leb in E. rewrite (ltb_not_leb _ _ H) in E. discriminate.
  - intros H.
    assert (H1 : (x <=? 1)%float = true).
    { apply ltb_leb. eapply ltb_trans; [exact H|]. reflexivity. }
    rewrite H1. f_equal.
    assert (Hy : (x * 100 <? 100)%float = true /\ (0 <? x * 100)%float = false).
    { rewrite !ltb_spec, mul_spec. rewrite ltb_spec in H.
      change (Prim2SF 100) with P100. change (Prim2SF 0) with (S754_zero false) in *.
      unfold SF64mul.
      destruct (Prim2SF x) as [s|s| |s m e]; try discriminate.
      - destruct s; [|discriminate]. split; reflexivity.
      - destruct s; [|discriminate]. unfold P100. cbn [SFmul xorb].
        pose proof (binary_round_aux_signed true (Zpos (m * M100)) (e + -46) loc_Exact) as Hs.
        pose proof (binary_round_aux_not_nan true (Zpos (m * M100)) (e + -46) loc_Exact
                                             ltac:(lia)) as Hn.
        destruct (binary_round_aux _ _ _ _ _ _) as [s'|s'| |s' m' e'];
          cbn [signed not_nan] in Hs, Hn; try contradiction; subst s';
          split; reflexivity. }
    destruct Hy as [Hy1 Hy2]. unfold clamp, py_min, py_max.
    now rewrite Hy1, Hy2.
  - intros H.
    assert (H1 : (x <=? 1)%float = false).
    { destruct (x <=? 1)%float eqn:E; auto.
      apply leb_not_nan_l in E. congruence. }
    rewrite H1. f_equal. unfold clamp, py_min.
    now rewrite (nan_ltb_l _ _ H).
Qed.

End Scalars.

Lemma minmax_in_range_witness :
  exists a, minmax Sample.float_of_str (VFloat 14.5) 4 25 = Ok (Some a)
            /\ in_range a.
Proof.
  destruct (minmax_in_range Sample.float_of_str (VFloat 14.5)) as [Hr Hm].
  destruct (Hm 4%float 25%float) as (a & Ha); [simpl; tauto|].
  exists a. split; [exact Ha|exact (Hr _ _ _ Ha)].
Defined.

Lemma to100_by_cases_witness :
  exists a, to100 Sample.float_of_str (VFloat 42.5) = Some a
            /\ (a =? 42.5)%float = true.
Proof.
  exact (proj1 (to100_by_cases Sample.float_of_str 42.5) eq_refl eq_refl).
Defined.

End ScalarBounds.

(** ** What [normalize_metrics] returns and what it refuses *)

Module NormalizerBounds.
Import Notions Conditions Py Scorer Api DictFacts FloatFacts OrderFacts
       RangeFacts SignFacts SearchFacts ScalarRange InvariantFacts
       CuratedFacts FactorFacts PipelineFacts RequestFacts PatternFacts
       StoreFacts.
Local Open Scope py_scope.

(** ** normalize_metrics *)

(** X6: every item of the set [normalize_metrics] returns has one of the 23
    keys the function assigns and holds [None] or a float; the float lies
    between 0 and 100 unless the key is [negativity_inv] or [kw_strength],
    the two values written without [clamp]. *)
Theorem normalized_set_invariant (float_of_str : string -> option float)
        (h : store) (spiky : loc) (d : dict) :
  normalized float_of_str h spiky = Returns d ->
  forall k v, In (k, v) d ->
    In k normalized_keys
    /\ (v = VNone
        \/ exists f, v = VFloat f /\ (unclamped k = true \/ in_range f)).
Proof.
  intros H k v Hin. apply normalized_ok in H.
  unfold metrics_ok in H. rewrite Forall_forall in H.
  destruct (H _ Hin) as [Hk Hv]. cbn [fst snd] in *. split; auto.
  destruct v; try contradiction; eauto.
Qed.

Lemma normalized_set_invariant_witness :
  In "filler_inv" normalized_keys
  /\ (VFloat 75 = VNone
      \/ exists f, VFloat 75 = VFloat f
                   /\ (unclamped "filler_inv" = true \/ in_range f)).
Proof.
  apply (normalized_set_invariant
           Sample.float_of_str (fst (Sample.build Sample.asks))
           (snd (Sample.build Sample.asks))
           [("filler_inv", VFloat 75); ("question_ratio", VFloat 100)]).
  - vm_compute. reflexivity.
  - simpl. auto.
Defined.

Lemma section_copy_returns (spiky : loc) name (h0 h : store) (d : dict) :
  nth_error h spiky = Some d ->
  List.length h0 <= List.length h ->
  section_ok h0 (dict_get d name) ->
  exists l h', section_copy spiky name h = Done l h'.
Proof.
  intros Hs Hlen Hok.
  unfold section_copy, d_get, bind, deref, ret, dict_get_default.
  rewrite Hs. unfold py_or, bind.
  assert (Hempty : exists l h',
             match alloc [] h with
             | Done a h1 => match ret (VDict a) h1 with
                            | Done a0 h2 => dict_ctor a0 h2
                            | Fail e h2 => Fail e h2
                            | Dangling => Dangling
                            end
             | Fail e h1 => Fail e h1
             | Dangling => Dangling
             end = Done l h').
  { unfold alloc, ret. cbn [dict_ctor]. unfold bind, deref.
    rewrite nth_error_app2, Nat.sub_diag by lia. cbn [nth_error].
    unfold alloc. eauto. }
  destruct (dict_get d name) as [[|b|z|f|s|l]|];
    cbn [section_ok truthy_scalar] in Hok; cbn [truthy ret].
  - exact Hempty.
  - rewrite Hok. exact Hempty.
  - rewrite Hok. exact Hempty.
  - rewrite Hok. exact Hempty.
  - rewrite Hok. exact Hempty.
  - unfold bind, deref.
    destruct (nth_error h l) as [dl|] eqn:El.
    + unfold ret. destruct dl; [exact Hempty|].
      cbn [dict_ctor]. unfold bind, deref. rewrite El. unfold alloc. eauto.
    + apply nth_error_None in El. lia.
  - exact Hempty.
Qed.

(** X7: a section of the bundle that holds a truthy scalar ([True], a
    number other than zero, a non-empty string) makes [normalize_metrics]
    raise, [dict(...)] refusing it: ValueError for the string, TypeError for
    the number and for [True]; the other sections being absent, falsy or
    dicts. *)
Theorem scalar_section_raises (float_of_str : string -> option float)
        (h : store) (spiky : loc) (d : dict) (name : string) (v : value) :
  nth_error h spiky = Some d ->
  In name sections ->
  (forall n, In n sections -> n <> name -> section_ok h (dict_get d n)) ->
  dict_get d name = Some v ->
  truthy_scalar v = true ->
  normalized float_of_str h spiky
  = Raises (match v with VStr _ => ValueError | _ => TypeError end).
Proof.
  intros Hs Hname Hothers Hv Ht.
  assert (Hgood : forall h' n,
            In n sections -> n <> name -> nth_error h' spiky = Some d ->
            List.length h <= List.length h' ->
            exists l h'', section_copy spiky n h' = Done l h''
                          /\ nth_error h'' spiky = Some d
                          /\ List.length h <= List.length h'').
  { intros h' n Hn Hne Hs' Hlen.
    destruct (section_copy_returns spiky n h h' d Hs' Hlen (Hothers n Hn Hne))
      as (l & h'' & E).
    exists l, h''. split; [exact E|].
    pose proof (frame_section_copy (List.length h') spiky n h' (le_n _)) as F.
    rewrite E in F. destruct F as (Hl & Hag & _). split; [|lia].
    rewrite Hag; auto. apply nth_error_Some. congruence. }
  assert (Hbad : forall h', nth_error h' spiky = Some d ->
            section_copy spiky name h'
            = Fail (match v with VStr _ => ValueError | _ => TypeError end) h').
  { intros h' Hs'.
    unfold section_copy, d_get, bind, deref, ret, dict_get_default.
    rewrite Hs', Hv. unfold py_or, bind.
    destruct v as [|b|z|f|s|l]; cbn [truthy_scalar] in Ht; try discriminate;
      cbn [truthy ret]; rewrite ?Ht; cbn [dict_ctor]; try reflexivity.
    destruct s; [discriminate|reflexivity]. }
  unfold Scorer.normalized, normalize_metrics.
  unfold bind at 1. unfold bind at 1. unfold alloc at 1.
  match goal with
  | |- context [bind (section_copy spiky _) _ ?x] =>
      assert (Hs0 : nth_error x spiky = Some d)
        by (rewrite nth_error_app1; auto; apply nth_error_Some; congruence);
      assert (Hl0 : List.length h <= List.length x)
        by (rewrite length_app; lia);
      revert Hs0 Hl0; generalize x; intros h0 Hs0 Hl0
  end.
  cbn [sections In] in Hname.
  destruct Hname as [Hn|Hname];
    [subst name; unfold bind at 1; rewrite Hbad by assumption; reflexivity|].
  do 4 (unfold bind at 1;
        match goal with
        | |- context [section_copy spiky ?n ?x] =>
            let E := fresh "E" in
            destruct (Hgood x n) as (? & ? & E & ? & ?);
            [ simpl; tauto
            | let Q := fresh "Q" in
              intros Q; rewrite <- Q in Hname; simpl in Hname;
              intuition discriminate
            | assumption | assumption | ];
            rewrite E; clear E
        end;
        destruct Hname as [Hn|Hname];
        [subst name; unfold bind at 1; rewrite Hbad by assumption;
         reflexivity|]).
  destruct Hname.
Qed.

Lemma scalar_section_raises_witness :
  normalized Sample.float_of_str [[("vocal", VInt 5)]] 0 = Raises TypeError.
Proof.
  apply (scalar_section_raises Sample.float_of_str [[("vocal", VInt 5)]] 0
           [("vocal", VInt 5)] "vocal" (VInt 5)).
  - reflexivity.
  - simpl. tauto.
  - intros n Hn Hne. simpl in Hn.
    destruct Hn as [<-|[<-|[<-|[<-|[<-|[]]]]]]; try exact I. congruence.
  - reflexivity.
  - reflexivity.
Defined.

End NormalizerBounds.

(** ** The stages of [score_one] *)

Module StageFacts.
Import Notions Conditions Py Scorer Api DictFacts FloatFacts OrderFacts
       RangeFacts SignFacts SearchFacts ScalarRange InvariantFacts
       CuratedFacts FactorFacts PipelineFacts RequestFacts PatternFacts
       StoreFacts.
Local Open Scope py_scope.

(** ** build_curated_metrics *)

Lemma filter_keys_eq {A B} (p : A -> bool) (q : B -> bool)
      (l1 : list (string * A)) (l2 : list (string * B)) :
  Forall2 (fun x y => fst x = fst y /\ p (snd x) = q (snd y)) l1 l2 ->
  map fst (filter (fun x => p (snd x)) l1)
  = map fst (filter (fun y => q (snd y)) l2).
Proof.
  induction 1 as [|x y r1 r2 [Hk Hv] _ IH]; [reflexivity|].
  cbn [filter]. rewrite Hv. destruct (q (snd y)); cbn [map]; congruence.
Qed.

(** X8: on a set whose values are numbers or [None],
    [build_curated_metrics] returns; the keys of its result are, in program
    order, the curated metrics of which at least one source key holds a
    number; and a curated metric with a single source is that number. *)
Theorem curated_metrics_emitted (float_of_str : string -> option float)
        (norm : dict) :
  Forall number_or_none (dict_values norm) ->
  exists cur,
    build_curated_metrics float_of_str norm = Ok cur
    /\ dict_keys cur
       = map fst (filter (fun ks : string * list string =>
                            has_number norm (snd ks)) curated_sources)
    /\ (forall k s f,
          In (k, [s]) curated_sources ->
          dict_get_default norm s VNone = VFloat f ->
          dict_get cur k = Some f).
Proof.
  intros Hn.
  destruct (build_curated_numbers float_of_str norm Hn)
    as (a1 & a2 & a3 & a4 & E & N1 & N2 & N3 & N4).
  eexists. split; [exact E|]. split.
  - rewrite numbers_keys.
    apply (filter_keys_eq is_number (has_number norm)).
    unfold cur_of, curated_sources.
    repeat (constructor;
            [cbn [fst snd]; split; [reflexivity|];
             first [ exact N1 | exact N2 | exact N3 | exact N4
                   | unfold has_number; cbn [existsb];
                     now rewrite orb_false_r ]|]).
    constructor.
  - intros k s f Hin Hs. apply numbers_get.
    + cbn. repeat constructor; simpl; intuition discriminate.
    + unfold cur_of. cbn [curated_sources In] in Hin.
      repeat (destruct Hin as [Hin|Hin];
              [try discriminate Hin;
               injection Hin as <- <-; rewrite Hs; simpl; tauto|]).
      contradiction.
Qed.

Lemma curated_metrics_emitted_witness :
  exists cur,
    build_curated_metrics Sample.float_of_str
                          [("filler_inv", VFloat 75); ("energy", VNone);
                           ("talk_balance", VFloat 100)] = Ok cur
    /\ dict_keys cur = ["clarity_conciseness"; "talk_balance"].
Proof.
  destruct (curated_metrics_emitted
              Sample.float_of_str
              [("filler_inv", VFloat 75); ("energy", VNone);
               ("talk_balance", VFloat 100)]) as (cur & E & K & _).
  - repeat constructor.
  - exists cur. split; [exact E|exact K].
Defined.

(** ** base_factors *)

(** X9: [base_factors] returns exactly when the weight rows of the curated
    metrics it is given name factors only, and then its result has the four
    factors, each between 0 and 100; otherwise it raises KeyError.  A
    curated metric without a row is skipped: the outcome is that of
    [base_factors] on the curated metrics that have a row. *)
Theorem base_factors_checks_rows (weights : pydict (pydict float))
        (curated : pydict float) :
  (rows_known weights curated = true ->
   exists b, base_factors weights curated = Ok b
             /\ dict_keys b = factor_names
             /\ Forall in_range (dict_values b))
  /\ (rows_known weights curated = false ->
      base_factors weights curated = Raise KeyError)
  /\ base_factors weights curated
     = base_factors weights
                    (filter (fun ms : string * float =>
                               dict_has weights (fst ms)) curated).
Proof.
  pose proof (base_factors_spec weights curated) as H.
  split; [|split].
  - destruct (base_factors weights curated) as [b|e].
    + destruct H as (Hr & Hk & Hv). eauto.
    + destruct H as [-> Hr]. congruence.
  - destruct (base_factors weights curated) as [b|e].
    + destruct H as (Hr & Hk & Hv). congruence.
    + destruct H as [-> Hr]. auto.
  - unfold Scorer.base_factors. now rewrite metrics_without_row.
Qed.

(** ** cosine_alignment *)

Lemma target_vector_ok multipliers t :
  target_vector multipliers = Ok t -> multipliers_ok multipliers = true.
Proof.
  unfold target_vector, multipliers_ok, ranks, dict_index, dict_has.
  cbn [rmap forallb].
  destruct (dict_get multipliers "primary"); [|discriminate].
  destruct (dict_get multipliers "secondary"); [|discriminate].
  destruct (dict_get multipliers "tertiary"); [|discriminate].
  destruct (dict_get multipliers "quaternary"); [|discriminate].
  reflexivity.
Qed.

Lemma subject_vector_ok scores order s :
  dict_keys scores = factor_names ->
  subject_vector scores order = Ok s -> order_ok order = true.
Proof.
  intros Hk. unfold subject_vector, order_ok, list_index, dict_index.
  cbn [rmap].
  destruct order as [|a [|b [|c [|d r]]]]; cbn [nth_error rbind];
    try discriminate;
    repeat match goal with
           | |- context [dict_get scores ?k] =>
               let E := fresh "E" in
               destruct (dict_get scores k) eqn:E; cbn [rbind];
               try discriminate
           end.
  intros _. cbn [List.length Nat.leb firstn forallb andb].
  assert (G : forall k v, dict_get scores k = Some v -> known_factor k = true).
  { intros k v E'. apply known_factor_spec. rewrite <- Hk.
    eapply dict_get_some_key; eauto. }
  rewrite (G _ _ E), (G _ _ E0), (G _ _ E1), (G _ _ E2). reflexivity.
Qed.

(** X10: on scores over the four factors, [cosine_alignment] returns, a
    number between 0 and 100, exactly when the multiplier table has the four
    ranks and the ordering has at least four entries, the first four of
    them factor names; otherwise it raises KeyError or IndexError, so it
    never divides by zero. *)
Theorem cosine_alignment_checks_keys (multipliers : pydict float)
        (scores : pydict float) (order : list string) :
  dict_keys scores = factor_names ->
  match cosine_alignment multipliers scores order with
  | Ok a =>
      in_range a
      /\ multipliers_ok multipliers = true /\ order_ok order = true
  | Raise e =>
      (e = KeyError \/ e = IndexError)
      /\ multipliers_ok multipliers && order_ok order = false
  end.
Proof.
  intros Hk.
  destruct (cosine_alignment multipliers scores order) as [a|e] eqn:E.
  - split; [eapply cosine_alignment_range; eauto|].
    unfold cosine_alignment in E.
    apply rbind_ok in E as (t & Ht & E).
    apply rbind_ok in E as (s & Hs & _).
    split; [eapply target_vector_ok; eauto|eapply subject_vector_ok; eauto].
  - split; [eapply cosine_alignment_raises; eauto|].
    destruct (multipliers_ok multipliers) eqn:Hm; [|reflexivity].
    destruct (order_ok order) eqn:Ho; [|reflexivity].
    destruct (cosine_alignment_returns multipliers scores order Hm Hk Ho)
      as (a & Ha).
    congruence.
Qed.

Lemma cosine_alignment_checks_keys_witness :
  (KeyError = KeyError \/ KeyError = IndexError)
  /\ multipliers_ok [("primary", 2%float)]
     && order_ok ["Precision"; "Resolve"; "Innovation"; "Harmony"] = false.
Proof.
  exact (cosine_alignment_checks_keys
           [("primary", 2%float)] zeros
           ["Precision"; "Resolve"; "Innovation"; "Harmony"] eq_refl).
Defined.

(** ** score_one *)

Section Pipeline.
Variable float_of_str : string -> option float.
Variable weights : pydict (pydict float).
Variable multipliers : pydict float.
Local Abbreviation score_one := (score_one float_of_str weights multipliers).
Local Abbreviation score_norm := (score_norm float_of_str weights multipliers).
Local Abbreviation normalized := (normalized float_of_str).

(** X11: a result of [score_one] has the factors [precision], [resolve],
    [innovation] and [harmony], each between 0 and 100, an alignment
    between 0 and 100, and as [raw] the normalized set of the bundle. *)
Theorem scores_are_percentages (h : store) (spiky : loc)
        (order : list string) (r : result) :
  score_one h spiky order = Returns r ->
  dict_keys (factors r) = factor_keys
  /\ Forall in_range (dict_values (factors r))
  /\ in_range (alignment_pct r)
  /\ normalized h spiky = Returns (raw r).
Proof.
  rewrite score_one_normalized.
  destruct (normalized h spiky) as [d| |]; try discriminate.
  destruct (score_norm d order) as [r'|] eqn:E; try discriminate.
  intros [= <-].
  destruct (score_norm_range _ _ _ _ _ _ E) as (Hraw & Hk & Hv & Ha).
  repeat split; auto; try apply Hv; try apply Ha. now rewrite Hraw.
Qed.

(** X12: once the bundle normalizes, [score_one] returns or raises, and it
    raises KeyError or IndexError only, and only if the weights table, the
    multiplier table or the ordering is malformed: no bundle makes the
    stages after normalization fail.  A result holds the normalized set and
    the curated metrics built from it. *)
Theorem scoring_fails_on_configuration_only (h : store) (spiky : loc)
        (order : list string) (d : dict) :
  normalized h spiky = Returns d ->
  match score_one h spiky order with
  | Returns r =>
      raw r = d /\ build_curated_metrics float_of_str d = Ok (curated r)
  | Raises e =>
      (e = KeyError \/ e = IndexError)
      /\ weights_ok weights && multipliers_ok multipliers && order_ok order
         = false
  | Stuck => False
  end.
Proof.
  intros Hd. rewrite score_one_normalized, Hd.
  destruct (score_norm d order) as [r|e] eqn:E.
  - destruct (score_norm_stages _ _ _ _ _ _ E)
      as (? & ? & ? & Hc & _ & _ & _ & Hraw & _).
    auto.
  - apply score_norm_fails in E; auto.
    apply metrics_numbers. eapply normalized_ok; eauto.
Qed.

End Pipeline.

Lemma scores_are_percentages_witness :
  let h := fst (Sample.build Sample.balanced) in
  let l := snd (Sample.build Sample.balanced) in
  exists r,
    score_one Sample.float_of_str Sample.weights Sample.multipliers h l
              ["Harmony"; "Resolve"; "Innovation"; "Precision"] = Returns r
    /\ dict_keys (factors r) = factor_keys
    /\ Forall in_range (dict_values (factors r))
    /\ in_range (alignment_pct r).
Proof.
  intros h l.
  destruct (score_one Sample.float_of_str Sample.weights Sample.multipliers h l
                      ["Harmony"; "Resolve"; "Innovation"; "Precision"])
    as [r| |] eqn:E; try (vm_compute in E; discriminate E).
  exists r. split; [reflexivity|].
  destruct (scores_are_percentages _ _ _ _ _ _ _ E) as (H1 & H2 & H3 & _).
  auto.
Defined.

Lemma scoring_fails_on_configuration_only_witness :
  let h := fst (Sample.build Sample.balanced) in
  let l := snd (Sample.build Sample.balanced) in
  match score_one Sample.float_of_str Sample.weights Sample.multipliers h l
                  ["Harmony"; "Resolve"; "Innovation"] with
  | Returns r => True
  | Raises e =>
      (e = KeyError \/ e = IndexError)
      /\ weights_ok Sample.weights && multipliers_ok Sample.multipliers
         && order_ok ["Harmony"; "Resolve"; "Innovation"] = false
  | Stuck => False
  end.
Proof.
  intros h l.
  pose proof (scoring_fails_on_configuration_only
                Sample.float_of_str Sample.weights Sample.multipliers h l
                ["Harmony"; "Resolve"; "Innovation"]
                [("talk_balance", VFloat 100)]) as H.
  destruct (score_one _ _ _ h l _); [exact I| |];
    apply H; vm_compute; reflexivity.
Defined.

Lemma base_factors_checks_rows_witness :
  (exists b,
     base_factors Sample.weights
                  [("energy", 80%float); ("talk_balance", 100%float)] = Ok b
     /\ dict_keys b = factor_names
     /\ Forall in_range (dict_values b))
  /\ base_factors Sample.weights
                  [("energy", 80%float); ("talk_balance", 100%float)]
     = base_factors Sample.weights [("talk_balance", 100%float)].
Proof.
  destruct (base_factors_checks_rows
              Sample.weights
              [("energy", 80%float); ("talk_balance", 100%float)])
    as (H1 & _ & H3).
  split; [exact (H1 eq_refl)|exact H3].
Defined.

End StageFacts.

(** ** [score_all_patterns] and the endpoint *)

Module EndpointFacts.
Import Notions Conditions Py Scorer Api DictFacts FloatFacts OrderFacts
       RangeFacts SignFacts SearchFacts ScalarRange InvariantFacts
       CuratedFacts FactorFacts PipelineFacts RequestFacts PatternFacts
       StoreFacts.
Local Open Scope py_scope.

Section Requests.
Variable float_of_str : string -> option float.
Variable int_of_str : string -> option Z.
Variable str_lower : string -> string.
Variable weights : pydict (pydict float).
Variable multipliers : pydict float.
Variable patterns : pydict pattern_info.

Local Abbreviation score_one := (score_one float_of_str weights multipliers).
Local Abbreviation normalized := (normalized float_of_str).
Local Abbreviation search := (search float_of_str int_of_str weights multipliers).
Local Abbreviation score_all_patterns :=
  (score_all_patterns float_of_str int_of_str weights multipliers patterns).
Local Abbreviation score :=
  (score float_of_str int_of_str str_lower weights multipliers patterns).
Local Abbreviation reply_single := (reply_single float_of_str weights multipliers).
Local Abbreviation reply_best :=
  (reply_best float_of_str int_of_str weights multipliers patterns).

(** ** score_all_patterns *)

(** X13: where [score_all_patterns] returns, every catalog entry was
    scored: its key reads as an int and [score_one] returned on its
    ordering; every item of [all] is such an entry with its result, id, name
    and ordering; all items have the same raw and curated metrics; and
    [best] is [None] only for an empty catalog. *)
Theorem catalog_search_is_all_or_nothing (h : store) (spiky : loc)
        (resp : response) :
  score_all_patterns h spiky = Returns resp ->
  (forall pid pinfo, In (pid, pinfo) patterns ->
     exists id r, int_of_str pid = Some id
                  /\ score_one h spiky (p_order pinfo) = Returns r)
  /\ (forall pid e, In (pid, e) (all resp) ->
        exists pinfo id r,
          In (pid, pinfo) patterns /\ int_of_str pid = Some id
          /\ score_one h spiky (p_order pinfo) = Returns r
          /\ e = catalog_entry id pinfo r)
  /\ (forall e1 e2, In e1 (dict_values (all resp)) ->
                    In e2 (dict_values (all resp)) ->
        raw (e_result e1) = raw (e_result e2)
        /\ curated (e_result e1) = curated (e_result e2))
  /\ (best resp = None <-> patterns = []).
Proof.
  unfold Scorer.score_all_patterns.
  destruct (search h spiky patterns (None, [])) as [[b a]| |] eqn:E;
    try discriminate.
  intros [= <-]. cbn [all best].
  destruct (search_returns _ _ _ _ _ _ _ _ _ _ _ E) as (H1 & H2 & H3).
  assert (H2' : forall pid e, In (pid, e) a ->
            exists pinfo id r,
              In (pid, pinfo) patterns /\ int_of_str pid = Some id
              /\ score_one h spiky (p_order pinfo) = Returns r
              /\ e = catalog_entry id pinfo r).
  { intros pid e Hin. destruct (H2 _ _ Hin) as [[]|H]. exact H. }
  split; [exact H1|]. split; [exact H2'|]. split.
  - intros e1 e2 Hin1 Hin2.
    unfold dict_values in *.
    apply in_map_iff in Hin1 as ([p1 x1] & <- & Hin1).
    apply in_map_iff in Hin2 as ([p2 x2] & <- & Hin2).
    destruct (H2' _ _ Hin1) as (i1 & n1 & r1 & _ & _ & S1 & ->).
    destruct (H2' _ _ Hin2) as (i2 & n2 & r2 & _ & _ & S2 & ->).
    cbn [snd catalog_entry e_result].
    eapply score_one_same_metrics; eauto.
  - split.
    + intros ->. destruct patterns as [|p ps] eqn:Ep; auto.
      exfalso. apply H3; [discriminate|reflexivity].
    + intros Ep. rewrite Ep in E. cbn [Scorer.search] in E. congruence.
Qed.

(** ** score *)

(** X14: a non-empty literal ordering is scored as it is, whatever id and
    name the request has; without one, a non-zero id that is in the catalog
    is scored with the ordering of that entry, whatever the name is. *)
Theorem selector_priority (h : store) (req : ScoreRequest) :
  (forall o, bcat_pattern req = Some o -> o <> [] ->
     score h req = reply_single h (spiky req) o)
  /\ (order_given (bcat_pattern req) = false ->
      forall z info,
        pattern_id req = Some z -> z <> 0%Z ->
        dict_get patterns (str_of_int z) = Some info ->
        score h req = reply_single h (spiky req) (p_order info)).
Proof.
  split.
  - intros o Ho Hne. unfold Api.score, select_order. rewrite Ho.
    destruct o as [|x o]; [congruence|]. cbn [order_given].
    now rewrite !orb_true_r.
  - intros Ho z info Hz Hne Hinfo.
    unfold Api.score, select_order, id_in_catalog, dict_has, dict_index.
    rewrite Ho, Hz, Hinfo. cbn [id_given].
    apply Z.eqb_neq in Hne. rewrite Hne. cbn [negb andb orb rbind].
    reflexivity.
Qed.

(** X15: a 200 reply to a request with a selector has an empty [all], and
    its [best] is the result of [score_one] on the selected ordering with
    the pattern tag [id: None, name: custom] and that ordering: the
    catalog name and id of the selected pattern are not in the reply. *)
Theorem selected_reply_is_custom (h : store) (req : ScoreRequest)
        (body : response) :
  id_given (pattern_id req) || name_given (pattern_name req)
  || order_given (bcat_pattern req) = true ->
  score h req = Http200 body ->
  exists order r,
    select_order str_lower patterns req = Ok order
    /\ score_one h (spiky req) order = Returns r
    /\ body = {| best := Some {| e_result := r;
                                 e_pattern := custom_tag order |};
                 all := [] |}.
Proof.
  intros Hg. unfold Api.score. rewrite Hg.
  destruct (select_order str_lower patterns req) as [order|e]; [|discriminate].
  unfold Api.reply_single.
  destruct (score_one h (spiky req) order) as [r| |] eqn:E; try discriminate.
  intros [= <-]. exists order, r. auto.
Qed.

(** X16: with no literal ordering and no id in the catalog, a non-empty
    name selects the catalog entry whose name, lowered by [str.lower], is
    the name asked for, lowered; the lowered names of the catalog being
    distinct.  [str.lower] is a parameter: this holds of the Unicode case
    mapping as of any other. *)
Theorem name_lookup_ignores_case (h : store) (req : ScoreRequest)
        (name pid : string) (info : pattern_info) :
  order_given (bcat_pattern req) = false ->
  id_in_catalog patterns (pattern_id req) = false ->
  pattern_name req = Some name -> name <> "" ->
  NoDup (map (fun v => str_lower (p_name v)) (dict_values patterns)) ->
  In (pid, info) patterns ->
  str_lower (p_name info) = str_lower name ->
  score h req = reply_single h (spiky req) (p_order info).
Proof.
  intros Ho Hi Hn Hne Hnd Hin Hl.
  assert (Hg : name_given (pattern_name req) = true).
  { rewrite Hn. cbn [name_given]. apply String.eqb_neq in Hne. now rewrite Hne. }
  unfold Api.score, select_order. rewrite Ho, Hi, Hg, Hn.
  rewrite orb_true_r. cbn [orb].
  rewrite (find_by_name_first str_lower patterns name info Hnd); auto.
  unfold dict_values. change info with (snd (pid, info)). now apply in_map.
Qed.

(** X17: with a well-formed configuration (weight rows over the factors,
    the four multipliers, a non-empty catalog of orderings of factor names
    under numeric keys) a request without selector and a request with a
    well-formed literal ordering are answered with 200 exactly when the
    bundle normalizes; where normalization raises, both get a 400 with that
    error. *)
Theorem requests_fail_on_bundles_only (h : store) (l : loc) :
  weights_ok weights = true -> multipliers_ok multipliers = true ->
  catalog_ok int_of_str patterns = true -> patterns <> [] ->
  match normalized h l with
  | Returns _ =>
      (exists body, score h (auto_request l) = Http200 body)
      /\ (forall o, order_ok o = true ->
            exists body, score h (order_request l o) = Http200 body)
  | Raises e =>
      score h (auto_request l) = Http400 e
      /\ (forall o, o <> [] -> score h (order_request l o) = Http400 e)
  | Stuck =>
      score h (auto_request l) = Broken
      /\ (forall o, o <> [] -> score h (order_request l o) = Broken)
  end.
Proof.
  intros Hw Hm Hc Hne.
  assert (Hauto : score h (auto_request l) = reply_best h l) by reflexivity.
  assert (Hfix : forall o, o <> [] ->
                   score h (order_request l o) = reply_single h l o).
  { intros o Ho. destruct o; [congruence|reflexivity]. }
  rewrite Hauto. unfold Api.reply_best, Scorer.score_all_patterns.
  destruct (normalized h l) as [d|e|] eqn:En.
  - split.
    + destruct (search_total float_of_str int_of_str weights multipliers
                             h l patterns) with (st := (@None entry, @nil (string * entry)))
        as ([b a] & ->).
      * intros pid pinfo Hin.
        destruct (catalog_ok_entry int_of_str patterns pid pinfo Hc Hin)
          as [[id Hid] Ho].
        destruct (score_one_returns float_of_str weights multipliers
                                    h l _ d Hw Hm Ho En) as (r & Hr).
        eauto.
      * cbn [reply_of]. eauto.
    + intros o Ho.
      assert (o <> []) by (intros ->; discriminate).
      rewrite Hfix by assumption. unfold Api.reply_single.
      destruct (score_one_returns float_of_str weights multipliers
                                  h l o d Hw Hm Ho En) as (r & ->).
      eauto.
  - split.
    + destruct patterns as [|[pid pinfo] ps]; [congruence|].
      rewrite (search_raises float_of_str int_of_str weights multipliers
                             h l pid pinfo ps _ e); [reflexivity|].
      now apply score_one_raises.
    + intros o Ho. rewrite Hfix by assumption. unfold Api.reply_single.
      now rewrite (score_one_raises float_of_str weights multipliers h l o e En).
  - split.
    + destruct patterns as [|[pid pinfo] ps]; [congruence|].
      rewrite (search_stuck float_of_str int_of_str weights multipliers
                            h l pid pinfo ps _); [reflexivity|].
      now apply score_one_stuck.
    + intros o Ho. rewrite Hfix by assumption. unfold Api.reply_single.
      now rewrite (score_one_stuck float_of_str weights multipliers h l o En).
Qed.

End Requests.

Lemma catalog_search_is_all_or_nothing_witness :
  let h := fst (Sample.build Sample.balanced) in
  let l := snd (Sample.build Sample.balanced) in
  exists id r,
    Sample.int_of_str "15" = Some id
    /\ score_one Sample.float_of_str Sample.weights Sample.multipliers h l
                 ["Resolve"; "Precision"; "Innovation"; "Harmony"]
       = Returns r.
Proof.
  intros h l.
  destruct (score_all_patterns Sample.float_of_str Sample.int_of_str
              Sample.weights Sample.multipliers Sample.patterns h l)
    as [resp| |] eqn:E; try (vm_compute in E; discriminate E).
  destruct (catalog_search_is_all_or_nothing _ _ _ _ _ _ _ _ E) as (H & _).
  apply (H "15" {| p_name := "Driver";
                   p_order := ["Resolve"; "Precision"; "Innovation"; "Harmony"] |}).
  simpl. tauto.
Defined.

Lemma selector_priority_witness :
  let hr := Sample.request Sample.balanced (Some 2%Z) (Some "Analyst")
                           (Some ["Harmony"; "Resolve"; "Innovation"; "Precision"]) in
  score Sample.float_of_str Sample.int_of_str Sample.str_lower
        Sample.weights Sample.multipliers Sample.patterns (fst hr) (snd hr)
  = reply_single Sample.float_of_str Sample.weights Sample.multipliers
                 (fst hr) (spiky (snd hr))
                 ["Harmony"; "Resolve"; "Innovation"; "Precision"].
Proof.
  cbv zeta.
  apply (proj1 (selector_priority Sample.float_of_str Sample.int_of_str Sample.str_lower
                  Sample.weights Sample.multipliers Sample.patterns _ _)).
  - reflexivity.
  - discriminate.
Defined.

Lemma selected_reply_is_custom_witness :
  let hr := Sample.request Sample.balanced (Some 2%Z) None None in
  exists order r,
    select_order Sample.str_lower Sample.patterns (snd hr) = Ok order
    /\ score_one Sample.float_of_str Sample.weights Sample.multipliers
                 (fst hr) (spiky (snd hr)) order = Returns r
    /\ score Sample.float_of_str Sample.int_of_str Sample.str_lower
             Sample.weights Sample.multipliers Sample.patterns (fst hr) (snd hr)
       = Http200 {| best := Some {| e_result := r;
                                    e_pattern := custom_tag order |};
                    all := [] |}.
Proof.
  cbv zeta.
  destruct (score Sample.float_of_str Sample.int_of_str Sample.str_lower
                  Sample.weights Sample.multipliers Sample.patterns
                  (fst (Sample.request Sample.balanced (Some 2%Z) None None))
                  (snd (Sample.request Sample.balanced (Some 2%Z) None None)))
    as [body| |] eqn:E; try (vm_compute in E; discriminate E).
  destruct (selected_reply_is_custom
              Sample.float_of_str Sample.int_of_str Sample.str_lower
              Sample.weights Sample.multipliers Sample.patterns
              (fst (Sample.request Sample.balanced (Some 2%Z) None None))
              (snd (Sample.request Sample.balanced (Some 2%Z) None None))
              body eq_refl E)
    as (order & r & H1 & H2 & ->).
  exists order, r. auto.
Defined.

Lemma name_lookup_ignores_case_witness :
  let hr := Sample.request Sample.balanced None (Some "MEDIATOR") None in
  score Sample.float_of_str Sample.int_of_str Sample.str_lower
        Sample.weights Sample.multipliers Sample.patterns (fst hr) (snd hr)
  = reply_single Sample.float_of_str Sample.weights Sample.multipliers
                 (fst hr) (spiky (snd hr))
                 ["Harmony"; "Resolve"; "Innovation"; "Precision"].
Proof.
  cbv zeta.
  apply (name_lookup_ignores_case
           Sample.float_of_str Sample.int_of_str Sample.str_lower
           Sample.weights Sample.multipliers Sample.patterns _ _
           "MEDIATOR" "2"
           {| p_name := "Mediator";
              p_order := ["Harmony"; "Resolve"; "Innovation"; "Precision"] |}).
  - reflexivity.
  - reflexivity.
  - reflexivity.
  - discriminate.
  - vm_compute. repeat constructor; simpl; intuition discriminate.
  - simpl. tauto.
  - reflexivity.
Defined.

Lemma requests_fail_on_bundles_only_witness :
  let h := fst (Sample.build Sample.energy_text) in
  let l := snd (Sample.build Sample.energy_text) in
  score Sample.float_of_str Sample.int_of_str Sample.str_lower
        Sample.weights Sample.multipliers Sample.patterns h (auto_request l)
  = Http400 TypeError.
Proof.
  intros h l.
  pose proof (requests_fail_on_bundles_only
                Sample.float_of_str Sample.int_of_str Sample.str_lower
                Sample.weights Sample.multipliers Sample.patterns h l
                eq_refl eq_refl eq_refl ltac:(discriminate)) as H.
  replace (normalized Sample.float_of_str h l) with (@Raises dict TypeError) in H
    by (vm_compute; reflexivity).
  exact (proj1 H).
Defined.

End EndpointFacts.

(** ** Text fields of the language section *)

Module TextFacts.
Import Notions Conditions Py Scorer DictFacts StoreFacts RunFacts.
Local Open Scope py_scope.

Lemma run_d_has h l d k :
  nth_error h l = Some d -> d_has l k h = Done (dict_has d k) h.
Proof.
  intros H. unfold d_has. now rewrite (run_bind _ _ _ _ _ (run_deref _ _ _ H)).
Qed.

Lemma run_d_index h l d k v :
  nth_error h l = Some d -> dict_get d k = Some v -> d_index l k h = Done v h.
Proof.
  intros H Hk. unfold d_index.
  rewrite (run_bind _ _ _ _ _ (run_deref _ _ _ H)).
  unfold dict_index. now rewrite Hk.
Qed.

Lemma nth_error_put_other (h : store) l l' d :
  l <> l' -> nth_error (store_put h l d) l' = nth_error h l'.
Proof. intros H. apply nth_error_store_put_other. congruence. Qed.

Section Facts.
Variable float_of_str : string -> option float.
Local Abbreviation to100 := (to100 float_of_str).
Local Abbreviation inv100 := (inv100 float_of_str).
Local Abbreviation norm_question := (norm_question float_of_str).
Local Abbreviation norm_offensiveness := (norm_offensiveness float_of_str).

(** The last step of lines 80-86, line 86. *)
Lemma question_ratio_written h L out dL o r :
  nth_error h L = Some dL -> nth_error h out = Some o ->
  dict_get dL "question_ratio" = Some r ->
  (has_ratio <- d_has L "question_ratio" ;;
   when has_ratio (v <- d_index L "question_ratio" ;;
                   d_set out "question_ratio" (of_opt (to100 v)))) h
  = Done tt (store_put h out (dict_set o "question_ratio" (of_opt (to100 r)))).
Proof.
  intros HL Hout Hr.
  erewrite run_bind by (apply run_d_has; exact HL).
  unfold dict_has. rewrite Hr. unfold when.
  erewrite run_bind by (eapply run_d_index; eauto).
  now apply run_d_set.
Qed.

(** X18: lines 80-86.  A [question_ratio] of the language section is
    written through [to100], also beside a [question] text; without it a
    [question] text gives 100 when, in lower case, it starts with
    [question], and 0 otherwise; with neither, nothing is written and the
    store is as before. *)
Theorem question_ratio_rule (h : store) (L out : loc) (dL o : dict) :
  nth_error h L = Some dL -> nth_error h out = Some o -> L <> out ->
  (forall r, dict_get dL "question_ratio" = Some r ->
     exists h' o',
       norm_question L out h = Done tt h'
       /\ nth_error h' out = Some o'
       /\ dict_get o' "question_ratio" = Some (of_opt (to100 r)))
  /\ (forall s, dict_get dL "question_ratio" = None ->
        dict_get dL "question" = Some (VStr s) ->
        exists h' o',
          norm_question L out h = Done tt h'
          /\ nth_error h' out = Some o'
          /\ dict_get o' "question_ratio"
             = Some (VFloat (if startswith (lower s) "question"
                             then 100 else 0)))
  /\ (dict_get dL "question_ratio" = None -> dict_get dL "question" = None ->
      norm_question L out h = Done tt h).
Proof.
  intros HL Hout Hne. split; [|split].
  - intros r Hr. unfold Scorer.norm_question.
    erewrite run_bind by (apply run_d_get; exact HL).
    set (q := dict_get_default dL "question" VNone).
    assert (Hstep : exists h1 d1,
               match q with
               | VStr s => d_set L "question" (flag_of_prefix s "question")
               | _ => ret tt
               end h = Done tt h1
               /\ nth_error h1 L = Some d1 /\ nth_error h1 out = Some o
               /\ dict_get d1 "question_ratio" = Some r).
    { destruct q; try (exists h, dL; repeat split; auto; fail).
      eexists. eexists. split; [apply run_d_set; exact HL|].
      split; [eapply nth_error_put; exact HL|]. split.
      - rewrite nth_error_put_other by exact Hne. exact Hout.
      - rewrite dict_get_set_other by discriminate. exact Hr. }
    destruct Hstep as (h1 & d1 & E1 & HL1 & Hout1 & Hr1).
    erewrite run_bind by exact E1.
    erewrite run_bind by (apply run_d_has; exact HL1).
    erewrite run_bind by (apply run_d_has; exact HL1).
    unfold dict_has at 1. rewrite Hr1. cbn [negb andb when].
    erewrite run_bind by reflexivity.
    rewrite (question_ratio_written h1 L out d1 o r HL1 Hout1 Hr1).
    do 2 eexists. split; [reflexivity|]. split.
    + eapply nth_error_put; exact Hout1.
    + apply dict_get_set_same.
  - intros s Hr Hq. unfold Scorer.norm_question.
    erewrite run_bind by (apply run_d_get; exact HL).
    unfold dict_get_default at 1. rewrite Hq.
    set (flag := if startswith (lower s) "question" then 1%float else 0%float).
    change (flag_of_prefix s "question") with (VFloat flag).
    set (d1 := dict_set dL "question" (VFloat flag)).
    set (h1 := store_put h L d1).
    assert (HL1 : nth_error h1 L = Some d1)
      by (eapply nth_error_put; exact HL).
    erewrite run_bind by (apply run_d_set; exact HL). fold d1 h1.
    erewrite run_bind by (apply run_d_has; exact HL1).
    erewrite run_bind by (apply run_d_has; exact HL1).
    assert (Hr1 : dict_get d1 "question_ratio" = None)
      by (unfold d1; rewrite dict_get_set_other by discriminate; exact Hr).
    assert (Hq1 : dict_get d1 "question" = Some (VFloat flag))
      by apply dict_get_set_same.
    unfold dict_has at 1 2. rewrite Hr1, Hq1. cbn [negb andb when].
    set (d2 := dict_set d1 "question_ratio" (VFloat flag)).
    set (h2 := store_put h1 L d2).
    assert (HL2 : nth_error h2 L = Some d2)
      by (eapply nth_error_put; exact HL1).
    assert (Hout2 : nth_error h2 out = Some o).
    { unfold h2, h1. rewrite !nth_error_put_other by exact Hne. exact Hout. }
    erewrite run_bind.
    2:{ erewrite run_bind by (eapply run_d_index; eauto).
        cbn [Scorer.float_ py_float].
        erewrite run_bind by reflexivity.
        apply run_d_set. exact HL1. }
    fold d2 h2.
    rewrite (question_ratio_written h2 L out d2 o (VFloat flag) HL2 Hout2
                                    (dict_get_set_same _ _ _)).
    do 2 eexists. split; [reflexivity|]. split.
    + eapply nth_error_put; exact Hout2.
    + rewrite dict_get_set_same. unfold flag.
      destruct (startswith (lower s) "question"); reflexivity.
  - intros Hr Hq. unfold Scorer.norm_question.
    erewrite run_bind by (apply run_d_get; exact HL).
    unfold dict_get_default at 1. rewrite Hq.
    erewrite run_bind by reflexivity.
    erewrite run_bind by (apply run_d_has; exact HL).
    erewrite run_bind by (apply run_d_has; exact HL).
    unfold dict_has at 1 2. rewrite Hr, Hq. cbn [negb andb when].
    erewrite run_bind by reflexivity.
    erewrite run_bind by (apply run_d_has; exact HL).
    unfold dict_has. rewrite Hr. reflexivity.
Qed.

(** X19: lines 87-89.  A text in [offensiveness] gives [offensiveness_inv]
    0 when, in lower case, it starts with [offen], and 100 otherwise, and
    the text in the copy [L] of the language section is replaced by the
    flag 1 or 0. *)
Theorem offensiveness_text_is_a_flag (h : store) (L out : loc) (dL o : dict)
        (s : string) :
  nth_error h L = Some dL -> nth_error h out = Some o -> L <> out ->
  dict_get dL "offensiveness" = Some (VStr s) ->
  exists h' o',
    norm_offensiveness L out h = Done tt h'
    /\ nth_error h' out = Some o'
    /\ dict_get o' "offensiveness_inv"
       = Some (VFloat (if startswith (lower s) "offen" then 0 else 100))
    /\ nth_error h' L
       = Some (dict_set dL "offensiveness"
                        (VFloat (if startswith (lower s) "offen"
                                 then 1 else 0))).
Proof.
  intros HL Hout Hne Ho. unfold Scorer.norm_offensiveness.
  erewrite run_bind by (apply run_d_get; exact HL).
  unfold dict_get_default at 1. rewrite Ho.
  set (flag := if startswith (lower s) "offen" then 1%float else 0%float).
  change (flag_of_prefix s "offen") with (VFloat flag).
  set (d1 := dict_set dL "offensiveness" (VFloat flag)).
  set (h1 := store_put h L d1).
  assert (HL1 : nth_error h1 L = Some d1) by (eapply nth_error_put; exact HL).
  assert (Hout1 : nth_error h1 out = Some o).
  { unfold h1. rewrite nth_error_put_other by exact Hne. exact Hout. }
  erewrite run_bind by (apply run_d_set; exact HL). fold d1 h1.
  erewrite run_bind by (apply run_d_has; exact HL1).
  unfold dict_has, d1. rewrite dict_get_set_same. cbn [when]. fold d1.
  erewrite run_bind by (eapply run_d_index; [exact HL1|apply dict_get_set_same]).
  erewrite run_d_set by exact Hout1.
  do 2 eexists. split; [reflexivity|]. split; [|split].
  - eapply nth_error_put; exact Hout1.
  - rewrite dict_get_set_same. unfold flag.
    destruct (startswith (lower s) "offen"); reflexivity.
  - rewrite nth_error_put_other by congruence. exact HL1.
Qed.

End Facts.

Lemma question_ratio_rule_witness :
  exists h' o',
    norm_question Sample.float_of_str 0 1
                  [[("question", VStr "Question about price")]; []]
    = Done tt h'
    /\ nth_error h' 1 = Some o'
    /\ dict_get o' "question_ratio" = Some (VFloat 100).
Proof.
  destruct (question_ratio_rule
              Sample.float_of_str
              [[("question", VStr "Question about price")]; []] 0 1
              [("question", VStr "Question about price")] []
              eq_refl eq_refl ltac:(discriminate)) as (_ & H & _).
  exact (H "Question about price" eq_refl eq_refl).
Defined.

Lemma offensiveness_text_is_a_flag_witness :
  exists h' o',
    norm_offensiveness Sample.float_of_str 0 1
                       [[("offensiveness", VStr "Offensive")]; []]
    = Done tt h'
    /\ nth_error h' 1 = Some o'
    /\ dict_get o' "offensiveness_inv" = Some (VFloat 0)
    /\ nth_error h' 0 = Some [("offensiveness", VFloat 1)].
Proof.
  exact (offensiveness_text_is_a_flag
           Sample.float_of_str
           [[("offensiveness", VStr "Offensive")]; []] 0 1
           [("offensiveness", VStr "Offensive")] [] "Offensive"
           eq_refl eq_refl ltac:(discriminate) eq_refl).
Defined.

End TextFacts.
